(** * pytojsregex: a Python-to-JavaScript regular expression converter

    Shallow embedding of [pytojsregex.py] and the properties of its
    conversion pipeline.

    Modelling conventions.
    - A Python [str] is a [string]; one [ascii] stands for one code point
      below 256.  The character tables ([isspace], the [\w] class) are the
      CPython tables restricted to that range.
    - A Python [int] used as a flag set is a [Z]; [&], [|] and [~] are
      [Z.land], [Z.lor] and [Z.lnot].
    - Truthiness of an [int] is [_ <> 0], of a list or a string is
      non-emptiness. *)

From Stdlib Require Import Bool Arith ZArith List Ascii String Lia.
Import ListNotations.

Local Open Scope string_scope.
Local Open Scope nat_scope.

(** ** Characters that Rocq's string notation cannot spell *)

Definition newline : ascii := "010"%char.
Definition dquote : ascii := "034"%char.
Definition squote : ascii := "039"%char.
Definition backslash : ascii := "\"%char.

(** ** The [str] builtins the converter calls *)

Module PyStr.

(** [sub in s] for strings: [sub] occurs as a contiguous slice of [s]. *)
Fixpoint contains (sub s : string) : bool :=
  match s with
  | EmptyString => prefix sub EmptyString
  | String _ t => prefix sub s || contains sub t
  end.

(** [c in chars] for a single character. *)
Fixpoint mem (c : ascii) (chars : string) : bool :=
  match chars with
  | EmptyString => false
  | String d t => Ascii.eqb c d || mem c t
  end.

(** [s[n:]] for [n <= len(s)] (and the empty string beyond). *)
Fixpoint drop (n : nat) (s : string) : string :=
  match n, s with
  | O, _ => s
  | S _, EmptyString => EmptyString
  | S n', String _ t => drop n' t
  end.

(** [s[:n]]. *)
Fixpoint take (n : nat) (s : string) : string :=
  match n, s with
  | O, _ => EmptyString
  | S _, EmptyString => EmptyString
  | S n', String c t => String c (take n' t)
  end.

(** [s.replace(old, new)]: left to right, non-overlapping occurrences.
    [skip] counts the characters of the occurrence just replaced that are
    still to be passed over.  When [old] is empty CPython inserts [new]
    before every character and at the end. *)
Fixpoint replace_scan (old new : string) (skip : nat) (s : string) : string :=
  match s with
  | EmptyString => EmptyString
  | String c t =>
    match skip with
    | S k => replace_scan old new k t
    | O =>
      if prefix old s
      then new ++ replace_scan old new (length old - 1) t
      else String c (replace_scan old new 0 t)
    end
  end.

Fixpoint interleave (new s : string) : string :=
  match s with
  | EmptyString => new
  | String c t => new ++ String c (interleave new t)
  end.

Definition replace (old new s : string) : string :=
  match old with
  | EmptyString => interleave new s
  | String _ _ => replace_scan old new 0 s
  end.

(** [s.lstrip(chars)], [s.rstrip(chars)], [s.strip(chars)]: [chars] is a
    set of characters, and every leading (trailing) member is removed. *)
Fixpoint lstrip (chars s : string) : string :=
  match s with
  | EmptyString => EmptyString
  | String c t => if mem c chars then lstrip chars t else s
  end.

Fixpoint rstrip (chars s : string) : string :=
  match s with
  | EmptyString => EmptyString
  | String c t =>
    match rstrip chars t with
    | EmptyString => if mem c chars then EmptyString else String c EmptyString
    | r => String c r
    end
  end.

Definition strip (chars s : string) : string := rstrip chars (lstrip chars s).

(** [str.isspace] on one code point below 256 (CPython's
    [_PyUnicode_IsWhitespace]): TAB..CR, FS..US, SPACE, NEL, NBSP. *)
Definition isspace (c : ascii) : bool :=
  let n := nat_of_ascii c in
  ((9 <=? n) && (n <=? 13)) || ((28 <=? n) && (n <=? 32))
  || (n =? 133) || (n =? 160).

(** [s.strip()] with no argument strips whitespace. *)
Fixpoint lstrip_space (s : string) : string :=
  match s with
  | EmptyString => EmptyString
  | String c t => if isspace c then lstrip_space t else s
  end.

Fixpoint rstrip_space (s : string) : string :=
  match s with
  | EmptyString => EmptyString
  | String c t =>
    match rstrip_space t with
    | EmptyString => if isspace c then EmptyString else String c EmptyString
    | r => String c r
    end
  end.

Definition strip_space (s : string) : string := rstrip_space (lstrip_space s).

(** Number of occurrences of a character. *)
Fixpoint count_char (p : ascii) (s : string) : nat :=
  match s with
  | EmptyString => 0
  | String c t => (if Ascii.eqb c p then 1 else 0) + count_char p t
  end.

(** Number of positions at which [sub] occurs (overlapping ones included). *)
Fixpoint occurrences (sub s : string) : nat :=
  match s with
  | EmptyString => 0
  | String _ t => (if prefix sub s then 1 else 0) + occurrences sub t
  end.

End PyStr.

(** ** Flag bits: the values of [re.IGNORECASE] etc. in CPython's [re] *)

Definition IGNORECASE : Z := 2.
Definition MULTILINE : Z := 8.
Definition DOTALL : Z := 16.
Definition UNICODE : Z := 32.
Definition VERBOSE : Z := 64.

(** Truthiness of an [int]. *)
Definition truthy (z : Z) : bool := negb (Z.eqb z 0).

(** ** [handle_flags] and [parse_flags] *)

Definition handle_flags (py_flags : Z) : string :=
  let js_flags := "" in
  let js_flags := if truthy (Z.land py_flags IGNORECASE) then js_flags ++ "i" else js_flags in
  let js_flags := if truthy (Z.land py_flags MULTILINE) then js_flags ++ "m" else js_flags in
  let js_flags := if truthy (Z.land py_flags DOTALL) then js_flags ++ "s" else js_flags in
  let js_flags := if truthy (Z.land py_flags UNICODE) then js_flags ++ "u" else js_flags in
  js_flags.

Definition parse_flags (flags_str : string) : Z :=
  let flags := 0%Z in
  let flags := if PyStr.contains "i" flags_str then Z.lor flags IGNORECASE else flags in
  let flags := if PyStr.contains "m" flags_str then Z.lor flags MULTILINE else flags in
  let flags := if PyStr.contains "s" flags_str then Z.lor flags DOTALL else flags in
  let flags := if PyStr.contains "x" flags_str then Z.lor flags VERBOSE else flags in
  let flags := if PyStr.contains "u" flags_str then Z.lor flags UNICODE else flags in
  flags.

(** ** [balance_parentheses] *)

(** The [while i < len(regex)] loop.  [s] is [regex[i:]]; [stack] holds the
    positions of the openers still open, most recent first. *)
Fixpoint balance_scan (s : string) (i : nat) (stack : list nat) (result : string)
  : string * list nat :=
  match s with
  | EmptyString => (result, stack)
  | String c t =>
    if Ascii.eqb c backslash then
      (* result += regex[i:i+2]; i += 2 *)
      match t with
      | EmptyString => (result ++ String c EmptyString, stack)
      | String d t' => balance_scan t' (i + 2) stack (result ++ String c (String d EmptyString))
      end
    else if Ascii.eqb c "("%char then
      balance_scan t (i + 1) (i :: stack) (result ++ String c EmptyString)
    else if Ascii.eqb c ")"%char then
      match stack with
      | _ :: stack' => balance_scan t (i + 1) stack' (result ++ String c EmptyString)
      | [] => balance_scan t (i + 1) [] (result ++ String backslash (String c EmptyString))
      end
    else balance_scan t (i + 1) stack (result ++ String c EmptyString)
  end.

(** The [while stack] loop. *)
Fixpoint balance_close (stack : list nat) (result : string) : string :=
  match stack with
  | [] => result
  | _ :: stack' => balance_close stack' (result ++ ")")
  end.

Definition balance_parentheses (regex : string) : string :=
  let '(result, stack) := balance_scan regex 0 [] "" in
  balance_close stack result.

(** *** What "non-escaped" means for the balancer's output

    A backslash escapes the character after it; a delimiter counts when the
    left-to-right reading meets it outside such a pair. *)
Fixpoint count_unescaped (p : ascii) (s : string) : nat :=
  match s with
  | EmptyString => 0
  | String c t =>
    if Ascii.eqb c backslash then
      match t with
      | EmptyString => 0
      | String _ t' => count_unescaped p t'
      end
    else (if Ascii.eqb c p then 1 else 0) + count_unescaped p t
  end.

(** The reading of [s] ends on a backslash with nothing after it. *)
Fixpoint dangling_escape (s : string) : bool :=
  match s with
  | EmptyString => false
  | String c t =>
    if Ascii.eqb c backslash then
      match t with
      | EmptyString => true
      | String _ t' => dangling_escape t'
      end
    else dangling_escape t
  end.

(** ** The part of CPython's [re] the converter uses

    A backtracking matcher in the style of [_sre]: alternatives are tried in
    priority order and the first overall success wins.  A position in the
    subject is the suffix still to be read, together with the character
    just before it (for the look-behind).  Empty matches are treated as
    CPython treats them from version 3.7 on: one is allowed right after a
    match that was not empty, and the match after an empty one may not be
    empty at the same position. *)

Module Re.

(** Members of a character set. *)
Inductive cclass : Type :=
| CLit (c : ascii)      (* a literal character *)
| CWord                 (* \w *)
| CSpace                (* \s *)
| CNotSpace.            (* \S *)

Inductive cset : Type :=
| Is (k : cclass)             (* a literal or a class on its own *)
| Dot                         (* . without DOTALL *)
| In (items : list cclass)    (* [...] *)
| NotIn (items : list cclass). (* [^...] *)

(** [\w] for a [str] pattern, on a code point below 256: [str.isalnum] or
    the underscore. *)
Definition isword (c : ascii) : bool :=
  let n := nat_of_ascii c in
  ((48 <=? n) && (n <=? 57)) || ((65 <=? n) && (n <=? 90)) || (n =? 95)
  || ((97 <=? n) && (n <=? 122))
  || (n =? 170) || (n =? 178) || (n =? 179) || (n =? 181) || (n =? 185) || (n =? 186)
  || ((188 <=? n) && (n <=? 190)) || ((192 <=? n) && (n <=? 214))
  || ((216 <=? n) && (n <=? 246)) || ((248 <=? n) && (n <=? 255)).

Definition cclass_mem (k : cclass) (c : ascii) : bool :=
  match k with
  | CLit d => Ascii.eqb c d
  | CWord => isword c
  | CSpace => PyStr.isspace c
  | CNotSpace => negb (PyStr.isspace c)
  end.

Definition cset_mem (cs : cset) (c : ascii) : bool :=
  match cs with
  | Is k => cclass_mem k c
  | Dot => negb (Ascii.eqb c newline)
  | In items => existsb (fun k => cclass_mem k c) items
  | NotIn items => negb (existsb (fun k => cclass_mem k c) items)
  end.

Inductive greed : Type := Greedy | Lazy.

Inductive regex : Type :=
| Empty
| Char (cs : cset)
| Seq (r1 r2 : regex)
| Alt (r1 r2 : regex)              (* r1|r2 *)
| Star (g : greed) (r : regex)     (* r* and r*? *)
| Group (n : nat) (r : regex)      (* capturing group number n *)
| Ahead (r : regex)                (* (?=r) *)
| NotBehind (cs : cset)            (* (?<!c), one character wide *)
| Eol (multiline : bool).          (* $ *)

(** [r+] and [r?] and their lazy forms, and a literal string. *)
Definition Plus (g : greed) (r : regex) : regex := Seq r (Star g r).

Definition Opt (g : greed) (r : regex) : regex :=
  match g with
  | Greedy => Alt r Empty
  | Lazy => Alt Empty r
  end.

Fixpoint Lit (s : string) : regex :=
  match s with
  | EmptyString => Empty
  | String c t => Seq (Char (Is (CLit c))) (Lit t)
  end.

(** Matcher state: where we are and what the groups hold. *)
Record mstate : Type := MState {
  prev : option ascii;          (* character before the position *)
  rest : string;                (* subject from the position on *)
  caps : list (nat * string)    (* group number, text; latest first *)
}.

Definition advance (c : ascii) (t : string) (st : mstate) : mstate :=
  {| prev := Some c; rest := t; caps := caps st |}.

(** Text read between an earlier state and a later one. *)
Definition consumed (st st' : mstate) : string :=
  PyStr.take (length (rest st) - length (rest st')) (rest st).

Definition set_cap (n : nat) (text : string) (st : mstate) : mstate :=
  {| prev := prev st; rest := rest st; caps := (n, text) :: caps st |}.

Definition with_caps (st st' : mstate) : mstate :=
  {| prev := prev st; rest := rest st; caps := caps st' |}.

(** [$]: at the end, or before a newline that is the last character; with
    MULTILINE before any newline. *)
Definition at_eol (multiline : bool) (s : string) : bool :=
  match s with
  | EmptyString => true
  | String c t =>
    Ascii.eqb c newline
    && (multiline || match t with EmptyString => true | String _ _ => false end)
  end.

Definition kont : Type := mstate -> option mstate.

(** Repetition.  An iteration has to read at least one character, so
    [length (rest st)] iterations are all there can be. *)
Fixpoint star_loop (g : greed) (body : kont -> kont) (k : kont) (fuel : nat)
  (st : mstate) : option mstate :=
  match fuel with
  | O => k st
  | S fuel' =>
    let again : kont := fun st' =>
      if length (rest st') <? length (rest st)
      then star_loop g body k fuel' st' else None in
    match g with
    | Greedy =>
      match body again st with
      | Some x => Some x
      | None => k st
      end
    | Lazy =>
      match k st with
      | Some x => Some x
      | None => body again st
      end
    end
  end.

(** [m r k st]: match [r] at [st], then go on with [k]; [None] makes the
    matcher backtrack. *)
Fixpoint m (r : regex) (k : kont) (st : mstate) {struct r} : option mstate :=
  match r with
  | Empty => k st
  | Char cs =>
    match rest st with
    | EmptyString => None
    | String c t => if cset_mem cs c then k (advance c t st) else None
    end
  | Seq r1 r2 => m r1 (m r2 k) st
  | Alt r1 r2 =>
    match m r1 k st with
    | Some x => Some x
    | None => m r2 k st
    end
  | Star g r1 => star_loop g (m r1) k (length (rest st)) st
  | Group n r1 => m r1 (fun st' => k (set_cap n (consumed st st') st')) st
  | Ahead r1 =>
    match m r1 Some st with
    | Some st' => k (with_caps st st')
    | None => None
    end
  | NotBehind cs =>
    match prev st with
    | Some c => if cset_mem cs c then None else k st
    | None => k st
    end
  | Eol multiline => if at_eol multiline (rest st) then k st else None
  end.

(** A match object: [group(0)] and the numbered groups. *)
Record mobj : Type := MObj {
  whole : string;
  groups : list (nat * string)
}.

Fixpoint lookup (n : nat) (l : list (nat * string)) : option string :=
  match l with
  | [] => None
  | (i, v) :: l' => if Nat.eqb i n then Some v else lookup n l'
  end.

(** [match.group(n)] for [n >= 1]; a group that took no part gives
    [None]. *)
Definition group (n : nat) (mo : mobj) : option string := lookup n (groups mo).

(** [str(match.group(n))] inside an f-string. *)
Definition group_str (n : nat) (mo : mobj) : string :=
  match group n mo with
  | Some v => v
  | None => "None"
  end.

(** A group reference in a replacement template: a group that took no part
    expands to the empty string. *)
Definition group_text (n : nat) (mo : mobj) : string :=
  match group n mo with
  | Some v => v
  | None => EmptyString
  end.

(** One attempt at the current position.  With [must_advance] an empty
    overall match is refused and the matcher backtracks. *)
Definition match_here (r : regex) (must_advance : bool) (p : option ascii)
  (s : string) : option mstate :=
  m r (fun st' =>
         if must_advance && (length (rest st') =? length s)
         then None else Some st')
    {| prev := p; rest := s; caps := [] |}.

(** A found match: the text skipped before it, the match, and the position
    after it. *)
Record found : Type := Found {
  gap : string;
  mo : mobj;
  after_prev : option ascii;
  after : string
}.

(** [_sre]'s search: try the start position, then each later one up to and
    including the end of the subject. *)
Fixpoint search (r : regex) (must_advance : bool) (p : option ascii) (s : string)
  : option found :=
  match match_here r must_advance p s with
  | Some st' =>
    Some {| gap := EmptyString;
            mo := {| whole := PyStr.take (length s - length (rest st')) s;
                     groups := caps st' |};
            after_prev := prev st';
            after := rest st' |}
  | None =>
    match s with
    | EmptyString => None
    | String c t =>
      match search r false (Some c) t with
      | Some f =>
        Some {| gap := String c (gap f); mo := mo f;
                after_prev := after_prev f; after := after f |}
      | None => None
      end
    end
  end.

Definition is_empty (s : string) : bool :=
  match s with
  | EmptyString => true
  | String _ _ => false
  end.

(** The loop of [re.sub] and [re.finditer]: successive non-overlapping
    matches, each with the text before it, and the text left after the
    last one.  After an empty match the next one may not be empty at the
    same position. *)
Fixpoint scan_loop (fuel : nat) (r : regex) (must_advance : bool)
  (p : option ascii) (s : string) : list (string * mobj) * string :=
  match fuel with
  | O => ([], s)
  | S fuel' =>
    match search r must_advance p s with
    | None => ([], s)
    | Some f =>
      let '(segs, tail) :=
        scan_loop fuel' r (is_empty (whole (mo f))) (after_prev f) (after f) in
      ((gap f, mo f) :: segs, tail)
    end
  end.

(** Every match but an empty one shortens the subject, and two empty
    matches are never adjacent: [2 * len + 1] rounds are enough. *)
Definition scan (r : regex) (s : string) : list (string * mobj) * string :=
  scan_loop (2 * length s + 1) r false None s.

Fixpoint join (pieces : list string) : string :=
  match pieces with
  | [] => EmptyString
  | x :: l => x ++ join l
  end.

(** [re.sub(r, repl, s)] with a side-effect free [repl]. *)
Definition sub (r : regex) (repl : mobj -> string) (s : string) : string :=
  let '(segs, tail) := scan r s in
  join (map (fun '(g, x) => g ++ repl x) segs) ++ tail.

(** Declarative reading of the patterns, without priorities: [matches r st
    st'] when [r] can take the matcher from [st] to [st']. *)
Inductive matches : regex -> mstate -> mstate -> Prop :=
| M_Empty st : matches Empty st st
| M_Char cs c t st :
    rest st = String c t -> cset_mem cs c = true ->
    matches (Char cs) st (advance c t st)
| M_Seq r1 r2 st st1 st2 :
    matches r1 st st1 -> matches r2 st1 st2 -> matches (Seq r1 r2) st st2
| M_AltL r1 r2 st st' : matches r1 st st' -> matches (Alt r1 r2) st st'
| M_AltR r1 r2 st st' : matches r2 st st' -> matches (Alt r1 r2) st st'
| M_StarStop g r st : matches (Star g r) st st
| M_StarStep g r st st1 st2 :
    matches r st st1 -> matches (Star g r) st1 st2 -> matches (Star g r) st st2
| M_Group n r st st' :
    matches r st st' -> matches (Group n r) st (set_cap n (consumed st st') st')
| M_Ahead r st st' : matches r st st' -> matches (Ahead r) st (with_caps st st')
| M_NotBehind cs st :
    (forall c, prev st = Some c -> cset_mem cs c = false) ->
    matches (NotBehind cs) st st
| M_Eol multiline st :
    at_eol multiline (rest st) = true -> matches (Eol multiline) st st.

End Re.

Import Re.

(** ** The patterns of the source, as syntax trees

    Each comment gives the pattern as it is written in the source (a raw
    string there, so every backslash below is one character). *)

Definition word1 : regex := Plus Greedy (Char (Is CWord)).     (* "\w+" *)

(** "\(\?P<(\w+)>" *)
Definition re_named_group : regex :=
  Seq (Lit "(?P<") (Seq (Group 1 word1) (Lit ">")).

(** "\(\?:[^)]*?\)\?" *)
Definition re_optional_group : regex :=
  Seq (Lit "(?:") (Seq (Star Lazy (Char (NotIn [CLit ")"%char]))) (Lit ")?")).

(** "(?<!\\)#.*$" with [re.MULTILINE] *)
Definition re_comment : regex :=
  Seq (NotBehind (Is (CLit backslash)))
      (Seq (Lit "#") (Seq (Star Greedy (Char Dot)) (Eol true))).

(** "[^[\]()\\]" and "[^[\]]" *)
Definition plain_char : regex :=
  Char (NotIn [CLit "["%char; CLit "]"%char; CLit "("%char; CLit ")"%char;
               CLit backslash]).
Definition no_bracket : regex := Char (NotIn [CLit "["%char; CLit "]"%char]).

(** The look-ahead of the layout pattern.  With P for "[^[\]()\\]" and B
    for "[^[\]]" it reads, spaced out,
    "(?: P* (?: \\. P* )* \[ B* \] )* B* $". *)
Definition re_outside_class : regex :=
  Seq (Star Greedy
         (Seq (Star Greedy plain_char)
         (Seq (Star Greedy (Seq (Lit "\") (Seq (Char Dot) (Star Greedy plain_char))))
         (Seq (Lit "[") (Seq (Star Greedy no_bracket) (Lit "]"))))))
      (Seq (Star Greedy no_bracket) (Eol false)).

(** "\s+(?=...)" with the look-ahead above *)
Definition re_layout : regex :=
  Seq (Plus Greedy (Char (Is CSpace))) (Ahead re_outside_class).

(** "\(\?x\)" *)
Definition re_inline_verbose : regex := Lit "(?x)".

(** "\(\?P=(\w+)\)" *)
Definition re_named_ref : regex :=
  Seq (Lit "(?P=") (Seq (Group 1 word1) (Lit ")")).

(** "\(\?:" *)
Definition re_noncapturing : regex := Lit "(?:".

(** "\(\?:([^)]*?)\)\?" *)
Definition re_preserve_optional : regex :=
  Seq (Lit "(?:")
      (Seq (Group 1 (Star Lazy (Char (NotIn [CLit ")"%char])))) (Lit ")?")).

(** "([\w\s\S]*?)(\\\w|\[.*?\]|\(.*?\))?\??$" *)
Definition re_preserve_tail : regex :=
  Seq (Group 1 (Star Lazy (Char (In [CWord; CSpace; CNotSpace]))))
  (Seq (Opt Greedy
          (Group 2
             (Alt (Seq (Lit "\") (Char (Is CWord)))
             (Alt (Seq (Lit "[") (Seq (Star Lazy (Char Dot)) (Lit "]")))
                  (Seq (Lit "(") (Seq (Star Lazy (Char Dot)) (Lit ")")))))))
  (Seq (Opt Greedy (Lit "?")) (Eol false))).

(** "(\(\?:.*?\)\?\\n\?)\+": the "\\n" is a backslash and the letter n *)
Definition re_preserve_repeated : regex :=
  Seq (Group 1 (Seq (Lit "(?:") (Seq (Star Lazy (Char Dot)) (Lit ")?\n?"))))
      (Lit "+").

(** "\n": the newline character *)
Definition re_newline : regex := Char (Is (CLit newline)).

(** ** The patterns, written back

    [show r] spells a syntax tree in the pattern language of [re], the way the
    source writes its patterns: a backslash before a literal that the
    language would read as an operator, the newline as backslash-n, and a
    non-capturing group around what a quantifier applies to when that is
    more than one item. *)

Definition is_special (c : ascii) : bool :=
  PyStr.mem c "()[]?+*.|^${}\".

Definition show_char (c : ascii) : string :=
  if Ascii.eqb c newline then "\n"
  else if is_special c then String backslash (String c EmptyString)
  else String c EmptyString.

(** Inside a set only the closing bracket and the backslash are escaped. *)
Definition show_in_set (k : cclass) : string :=
  match k with
  | CLit c =>
    if Ascii.eqb c "]" || Ascii.eqb c backslash
    then String backslash (String c EmptyString)
    else String c EmptyString
  | CWord => "\w"
  | CSpace => "\s"
  | CNotSpace => "\S"
  end.

Definition show_cclass (k : cclass) : string :=
  match k with
  | CLit c => show_char c
  | CWord => "\w"
  | CSpace => "\s"
  | CNotSpace => "\S"
  end.

Definition show_cset (cs : cset) : string :=
  match cs with
  | Is k => show_cclass k
  | Dot => "."
  | In items => "[" ++ Re.join (map show_in_set items) ++ "]"
  | NotIn items => "[^" ++ Re.join (map show_in_set items) ++ "]"
  end.

(** One item, to which a quantifier applies as it stands. *)
Definition is_item (r : regex) : bool :=
  match r with
  | Char _ | Group _ _ | Seq (Char _) Empty => true
  | _ => false
  end.

Definition show_greed (g : greed) : string :=
  match g with
  | Greedy => ""
  | Lazy => "?"
  end.

Definition quantified (r : regex) (body suffix : string) : string :=
  (if is_item r then body else "(?:" ++ body ++ ")") ++ suffix.

Definition same_chars (r1 r2 : regex) : bool :=
  match r1, r2 with
  | Char (Is CWord), Char (Is CWord) => true
  | Char (Is CSpace), Char (Is CSpace) => true
  | _, _ => false
  end.

Fixpoint show (r : regex) : string :=
  match r with
  | Empty => ""
  | Char cs => show_cset cs
  | Seq r1 r2 =>
    match r2 with
    | Star g r3 =>
      (* r1 followed by its own repetition is written with a plus *)
      if same_chars r1 r3 then quantified r1 (show r1) ("+" ++ show_greed g)
      else show r1 ++ show r2
    | _ => show r1 ++ show r2
    end
  | Alt r1 Empty => quantified r1 (show r1) "?"
  | Alt Empty r2 => quantified r2 (show r2) "??"
  | Alt r1 r2 => show r1 ++ "|" ++ show r2
  | Star g r1 => quantified r1 (show r1) ("*" ++ show_greed g)
  | Group _ r1 => "(" ++ show r1 ++ ")"
  | Ahead r1 => "(?=" ++ show r1 ++ ")"
  | NotBehind cs => "(?<!" ++ show_cset cs ++ ")"
  | Eol _ => "$"
  end.

(** ** The pure stages *)

(** [conservative_conversion] *)
Definition conservative_conversion (regex : string) : string :=
  let js_regex := PyStr.replace "\Z" "$" (PyStr.replace "\A" "^" regex) in
  (* template "(?<\1>" *)
  let js_regex := Re.sub re_named_group (fun mt => "(?<" ++ group_text 1 mt ++ ">") js_regex in
  let js_regex := Re.sub re_optional_group (fun mt => "(?:" ++ whole mt ++ ")?") js_regex in
  js_regex.

(** [handle_verbose_mode] *)
Definition handle_verbose_mode (regex : string) : string :=
  let regex := Re.sub re_comment (fun _ => "") regex in
  let regex := Re.sub re_layout (fun _ => "") regex in
  let regex := Re.sub re_inline_verbose (fun _ => "") regex in
  PyStr.strip_space regex.

(** [preserve_complex_pattern] *)
Definition preserve_complex_pattern (regex : string) : string :=
  let regex := Re.sub re_preserve_optional (fun mt => "(?:" ++ group_str 1 mt ++ ")?") regex in
  let regex := Re.sub re_preserve_tail (fun mt => whole mt) regex in
  let regex := Re.sub re_preserve_repeated (fun mt => whole mt) regex in
  regex.

(** ** Mutable lists and exceptions

    The lists the converter builds ([warnings_list], [steps] and each
    helper's own [warnings]) are objects of the interpreter's heap.  The heap
    is passed along explicitly; it outlives a call, so that what a later call
    can see of an earlier one is part of the model. *)

Record loc : Type := Loc { addr : nat }.

Definition Store : Type := list (list string).

Inductive exn : Type :=
| RegexConversionError (msg : string).

Inductive res (A : Type) : Type :=
| Val (a : A)
| Raised (e : exn).
Arguments Val {A} a.
Arguments Raised {A} e.

Definition M (A : Type) : Type := Store -> res A * Store.

Definition ret {A} (a : A) : M A := fun h => (Val a, h).

Definition bind {A B} (c : M A) (f : A -> M B) : M B :=
  fun h =>
    match c h with
    | (Val a, h') => f a h'
    | (Raised e, h') => (Raised e, h')
    end.

Notation "x <- c ;; k" := (bind c (fun x => k))
  (at level 61, c at next level, right associativity).
Notation "' pat <- c ;; k" := (bind c (fun x => match x with pat => k end))
  (at level 61, pat pattern, c at next level, right associativity).
Notation "c ;; k" := (bind c (fun _ => k))
  (at level 61, right associativity).

(** [raise e] and [try: body except RegexConversionError as e: handler]. *)
Definition raise {A} (e : exn) : M A := fun h => (Raised e, h).

Definition try_except {A} (body : M A) (handler : exn -> M A) : M A :=
  fun h =>
    match body h with
    | (Val a, h') => (Val a, h')
    | (Raised e, h') => handler e h'
    end.

Fixpoint update (n : nat) (f : list string -> list string) (h : Store) : Store :=
  match h, n with
  | [], _ => []
  | x :: h', O => f x :: h'
  | x :: h', S n' => x :: update n' f h'
  end.

Definition deref (l : loc) (h : Store) : list string := nth (addr l) h [].

(** [[]]: a fresh list object. *)
Definition new_list (init : list string) : M loc :=
  fun h => (Val (Loc (List.length h)), (h ++ [init])%list).

(** The items of a list object, and [if l:]. *)
Definition items (l : loc) : M (list string) := fun h => (Val (deref l h), h).

Definition nonempty (xs : list string) : bool :=
  match xs with
  | [] => false
  | _ :: _ => true
  end.

(** [l.append(x)] and [l.extend(l2)]. *)
Definition list_append (l : loc) (x : string) : M unit :=
  fun h => (Val tt, update (addr l) (fun xs => (xs ++ [x])%list) h).

Definition list_extend (l l2 : loc) : M unit :=
  fun h => (Val tt, update (addr l) (fun xs => (xs ++ deref l2 h)%list) h).

Definition when (b : bool) (c : M unit) : M unit := if b then c else ret tt.

(** [re.sub(r, repl, s)] where [repl] is a closure that may write to the
    heap: it is called once for each match, in order. *)
Fixpoint sub_pieces (repl : mobj -> M string) (segs : list (string * mobj))
  : M string :=
  match segs with
  | [] => ret ""
  | (g, x) :: segs' =>
    y <- repl x ;;
    out <- sub_pieces repl segs' ;;
    ret (g ++ y ++ out)
  end.

Definition sub_with (r : regex) (repl : mobj -> M string) (s : string) : M string :=
  let '(segs, tail) := Re.scan r s in
  out <- sub_pieces repl segs ;;
  ret (out ++ tail).

(** ** The stages that report warnings *)

Definition named_ref_warning (name : string) : string :=
  "Named group reference '(?P=" ++ name
  ++ ")' is not directly supported in JavaScript. Converted to '\k<" ++ name
  ++ ">', but may not work in all browsers.".

(** [handle_named_group_references] *)
Definition handle_named_group_references (regex : string) : M (string * loc) :=
  warnings <- new_list [] ;;
  let replace_named_ref (mt : mobj) : M string :=
    list_append warnings (named_ref_warning (group_str 1 mt)) ;;
    ret ("\k<" ++ group_str 1 mt ++ ">") in
  regex <- sub_with re_named_ref replace_named_ref regex ;;
  ret (regex, warnings).

Definition atomic_warning : string :=
  "Atomic groups are not supported in JavaScript. Converted to non-capturing groups.".

(** [handle_atomic_groups] *)
Definition handle_atomic_groups (regex : string) : M (string * loc) :=
  warnings <- new_list [] ;;
  regex <- (if PyStr.contains "(?>" regex
            then list_append warnings atomic_warning ;;
                 ret (PyStr.replace "(?>" "(?:" regex)
            else ret regex) ;;
  ret (regex, warnings).

Definition unicode_warning : string :=
  "Unicode property escapes require the 'u' flag in JavaScript.".

(** [handle_unicode_properties] *)
Definition handle_unicode_properties (regex : string) : M (string * loc) :=
  warnings <- new_list [] ;;
  when (PyStr.contains "\p" regex || PyStr.contains "\P" regex)
       (list_append warnings unicode_warning) ;;
  ret (regex, warnings).

Definition conditional_warning : string :=
  "Conditional patterns are not supported in JavaScript. This part of the regex may not work as expected.".

(** [check_unsupported_features] *)
Definition check_unsupported_features (regex : string) : M loc :=
  warnings <- new_list [] ;;
  when (PyStr.contains "(?(1)" regex) (list_append warnings conditional_warning) ;;
  ret warnings.

Definition lookbehind_warning : string :=
  "Lookbehind assertions have limited support in JavaScript.".

Definition any_char_warning : string :=
  "'\N' is converted to '[^\n]', which may not behave identically in all cases.".

(** ** [py_to_js_regex] *)

Definition quote_chars : string := String squote (String dquote EmptyString).

(** The body of the [try] block; [warnings_list] and [steps] are the two
    lists made before it. *)
Definition try_block (warnings_list steps : loc) (original_regex : string)
  (py_flags : Z) (verbose : bool) : M (option string * loc * loc) :=
  let py_regex := PyStr.strip quote_chars (PyStr.lstrip "r" original_regex) in
  when (verbose && negb (String.eqb py_regex original_regex))
       (list_append steps ("Stripped 'r' prefix and quotes: " ++ py_regex)) ;;
  '(py_regex, py_flags) <-
     (if truthy (Z.land py_flags VERBOSE)
      then
        let py_regex := handle_verbose_mode py_regex in
        let py_flags := Z.land py_flags (Z.lnot VERBOSE) in
        when verbose (list_append steps ("Handled verbose mode: " ++ py_regex)) ;;
        ret (py_regex, py_flags)
      else ret (py_regex, py_flags)) ;;
  let js_regex := conservative_conversion py_regex in
  when (verbose && negb (String.eqb js_regex py_regex))
       (list_append steps ("Converted Python-specific syntax: " ++ js_regex)) ;;
  '(js_regex, ref_warnings) <- handle_named_group_references js_regex ;;
  list_extend warnings_list ref_warnings ;;
  ref_items <- items ref_warnings ;;
  when (verbose && nonempty ref_items)
       (list_append steps ("Handled named group references: " ++ js_regex)) ;;
  (* template "(?:" *)
  let js_regex := Re.sub re_noncapturing (fun _ => "(?:") js_regex in
  when verbose (list_append steps ("Handled non-capturing groups: " ++ js_regex)) ;;
  let js_regex := preserve_complex_pattern js_regex in
  when verbose (list_append steps ("Preserved complex patterns: " ++ js_regex)) ;;
  '(js_regex, atomic_warnings) <- handle_atomic_groups js_regex ;;
  list_extend warnings_list atomic_warnings ;;
  atomic_items <- items atomic_warnings ;;
  when (verbose && nonempty atomic_items)
       (list_append steps ("Handled atomic groups: " ++ js_regex)) ;;
  '(js_regex, unicode_warnings) <- handle_unicode_properties js_regex ;;
  list_extend warnings_list unicode_warnings ;;
  unicode_items <- items unicode_warnings ;;
  when (verbose && nonempty unicode_items)
       (list_append steps ("Handled Unicode property escapes: " ++ js_regex)) ;;
  when (PyStr.contains "(?<=" js_regex || PyStr.contains "(?<!" js_regex)
       (list_append warnings_list lookbehind_warning ;;
        when verbose (list_append steps "Warned about lookbehind assertions")) ;;
  let js_regex := PyStr.replace "\a" "\x07" js_regex in
  js_regex <-
     (if PyStr.contains "\N" js_regex
      then
        let js_regex := PyStr.replace "\N" "[^\n]" js_regex in
        list_append warnings_list any_char_warning ;;
        when verbose (list_append steps "Converted additional escape sequences") ;;
        ret js_regex
      else ret js_regex) ;;
  (* template "\\n": a backslash and the letter n *)
  let js_regex := Re.sub re_newline (fun _ => "\n") js_regex in
  when verbose (list_append steps ("Ensured pattern preservation: " ++ js_regex)) ;;
  unsupported_warnings <- check_unsupported_features js_regex ;;
  list_extend warnings_list unsupported_warnings ;;
  unsupported_items <- items unsupported_warnings ;;
  when (verbose && nonempty unsupported_items)
       (list_append steps "Checked for unsupported features") ;;
  let js_regex := balance_parentheses js_regex in
  when verbose (list_append steps ("Ensured balanced parentheses: " ++ js_regex)) ;;
  let js_flags := handle_flags py_flags in
  when verbose (list_append steps ("Handled flags: " ++ js_flags)) ;;
  let js_regex := "/" ++ js_regex ++ "/" ++ js_flags in
  when verbose (list_append steps ("Final JavaScript regex: " ++ js_regex)) ;;
  ret (Some js_regex, warnings_list, steps).

Definition py_to_js_regex (py_regex : string) (py_flags : Z) (verbose : bool)
  : M (option string * loc * loc) :=
  warnings_list <- new_list [] ;;
  steps <- new_list [] ;;
  let original_regex := py_regex in
  when verbose (list_append steps ("Original Python regex: " ++ original_regex)) ;;
  try_except
    (try_block warnings_list steps original_regex py_flags verbose)
    (fun e =>
       let 'RegexConversionError msg := e in
       failure <- new_list [msg] ;;
       ret (None, failure, steps)).

(** What a caller sees of a returned triple: the literal and the items of the
    two lists. *)
Definition outcome : Type := option string * list string * list string.

Definition observe (r : res (option string * loc * loc) * Store) : option outcome :=
  match r with
  | (Val (js, w, s), h) => Some (js, deref w h, deref s h)
  | (Raised _, _) => None
  end.

(** A call on a heap that holds nothing yet. *)
Definition convert_fresh (py_regex : string) (py_flags : Z) (verbose : bool)
  : option outcome :=
  observe (py_to_js_regex py_regex py_flags verbose []).

(** ** Vocabulary of the statements below *)

(** [a] is [b] with some characters deleted. *)
Inductive Subseq : string -> string -> Prop :=
| Subseq_nil : Subseq EmptyString EmptyString
| Subseq_keep c a b : Subseq a b -> Subseq (String c a) (String c b)
| Subseq_skip c a b : Subseq a b -> Subseq a (String c b).

(** The characters of [s] that satisfy [f], in order. *)
Fixpoint filter_chars (f : ascii -> bool) (s : string) : string :=
  match s with
  | EmptyString => EmptyString
  | String c t => if f c then String c (filter_chars f t) else filter_chars f t
  end.

(** [n] copies of a character. *)
Fixpoint rep (n : nat) (c : ascii) : string :=
  match n with
  | O => EmptyString
  | S n' => String c (rep n' c)
  end.

(** The table of the flag codec: the letters [handle_flags] can emit. *)
Definition flag_table : string := "imsu".

(** What the scan keeps true of the text emitted so far and the stack. *)
Definition balanced_upto (result : string) (stack : list nat) : Prop :=
  dangling_escape result = false
  /\ count_unescaped "(" result = count_unescaped ")" result + List.length stack.


(** The character before the position reached after reading [s] from a
    position whose previous character was [p]. *)
Fixpoint last_or (p : option ascii) (s : string) : option ascii :=
  match s with
  | EmptyString => p
  | String c t => last_or (Some c) t
  end.

(** [x] is a match of [r] somewhere in [s]: [s] splits into the text before
    the match, the match and the text after it, and [r] takes the matcher
    across the match, leaving the groups of [x]. *)
Definition found_in (r : regex) (s : string) (x : mobj) : Prop :=
  exists pre post st',
    s = pre ++ whole x ++ post
    /\ matches r {| prev := last_or None pre; rest := whole x ++ post; caps := [] |} st'
    /\ rest st' = post
    /\ caps st' = groups x.

(** *** Dense patterns

    A pattern is dense when its white space is all inside character
    classes, it has no comment introducer (a [#] not directly behind a
    backslash) and no inline verbose-mode marker: it has no layout, no
    comment and no marker for a normalizer to take away. *)

(** White space occurs only inside character classes.  A class runs from
    an opening bracket to the next closing bracket; a backslash escapes the
    character behind it, so that an escaped bracket neither opens nor
    closes a class.  [in_class] tells whether [s] starts inside a class,
    [escaped] whether it starts directly behind an escaping backslash. *)
Fixpoint layout_free (in_class escaped : bool) (s : string) : bool :=
  match s with
  | EmptyString => true
  | String c t =>
    if PyStr.isspace c then in_class && layout_free in_class false t
    else if escaped then layout_free in_class false t
    else if Ascii.eqb c backslash then layout_free in_class true t
    else if Ascii.eqb c "[" then layout_free true false t
    else if Ascii.eqb c "]" then layout_free false false t
    else layout_free in_class false t
  end.

(** The text goes on to the closing bracket of a character class, with no
    other bracket and no backslash on the way. *)
Fixpoint closes_class (s : string) : bool :=
  match s with
  | EmptyString => false
  | String c t =>
    if Ascii.eqb c "]" then true
    else if Ascii.eqb c "[" || Ascii.eqb c backslash then false
    else closes_class t
  end.

(** A narrower condition than [layout_free]: every white-space character
    is inside a character class and, moreover, the text after it goes on to
    the closing bracket with no opening bracket and no backslash on the way
    ([closes_class]).  A class that holds an opening bracket or an escape
    after a blank does not qualify. *)
Fixpoint blanks_enclosed (in_class escaped : bool) (s : string) : bool :=
  match s with
  | EmptyString => true
  | String c t =>
    if PyStr.isspace c
    then in_class && closes_class t && blanks_enclosed in_class false t
    else if escaped then blanks_enclosed in_class false t
    else if Ascii.eqb c backslash then blanks_enclosed in_class true t
    else if Ascii.eqb c "[" then blanks_enclosed true false t
    else if Ascii.eqb c "]" then blanks_enclosed false false t
    else blanks_enclosed in_class false t
  end.

(** [p] is the character before [s]. *)
Fixpoint has_comment (p : option ascii) (s : string) : bool :=
  match s with
  | EmptyString => false
  | String c t =>
    (Ascii.eqb c "#"
     && match p with
        | Some b => negb (Ascii.eqb b backslash)
        | None => true
        end)
    || has_comment (Some c) t
  end.

Definition dense (s : string) : bool :=
  layout_free false false s && negb (has_comment None s)
  && negb (PyStr.contains "(?x)" s).

(** Dense, with the narrower condition [blanks_enclosed] on the white
    space inside classes. *)
Definition plainly_dense (s : string) : bool :=
  blanks_enclosed false false s && negb (has_comment None s)
  && negb (PyStr.contains "(?x)" s).

(** The first line of [conservative_conversion]: both anchors replaced. *)
Definition anchors_done (s : string) : string :=
  PyStr.replace "\Z" "$" (PyStr.replace "\A" "^" s).

(** *** Calls on a heap that is already populated

    A value that holds addresses is moved along when the heap it points into
    is placed behind [n] older objects. *)
Class Reloc (A : Type) : Type := reloc : nat -> A -> A.

#[global] Instance Reloc_string : Reloc string := fun _ s => s.
#[global] Instance Reloc_unit : Reloc unit := fun _ u => u.
#[global] Instance Reloc_Z : Reloc Z := fun _ z => z.
#[global] Instance Reloc_items : Reloc (list string) := fun _ l => l.
#[global] Instance Reloc_loc : Reloc loc := fun n l => Loc (n + addr l).
#[global] Instance Reloc_prod {A B} `{Reloc A} `{Reloc B} : Reloc (A * B) :=
  fun n p => (reloc n (fst p), reloc n (snd p)).
#[global] Instance Reloc_option {A} `{Reloc A} : Reloc (option A) :=
  fun n o => option_map (reloc n) o.

Definition reloc_res {A} `{Reloc A} (n : nat) (r : res A) : res A :=
  match r with
  | Val a => Val (reloc n a)
  | Raised e => Raised e
  end.

(** [c'] does behind [n] older objects what [c] does without them: the
    older objects are left as they are, and the result is the same up to
    the shift of addresses. *)
Definition frames {A} `{Reloc A} (n : nat) (c c' : M A) : Prop :=
  forall base h,
    List.length base = n ->
    c' (base ++ h)%list
    = (reloc_res n (fst (c h)), (base ++ snd (c h))%list).

(** [c] returns normally, with a value that satisfies [Q], and removes no
    object from the heap. *)
Definition returns {A} (c : M A) (Q : A -> Prop) : Prop :=
  forall h,
    exists a h', c h = (Val a, h') /\ Q a /\ List.length h <= List.length h'.

(** A postcondition that asks nothing. *)
Definition anything {A} (_ : A) : Prop := True.

(** How many times a message occurs in a list of diagnostics. *)
Fixpoint count_msg (msg : string) (l : list string) : nat :=
  match l with
  | [] => 0
  | x :: l' => (if String.eqb x msg then 1 else 0) + count_msg msg l'
  end.

(** The diagnostics of an outcome. *)
Definition warnings_of (o : outcome) : list string := snd (fst o).

(** *** The literal and the diagnostics as functions of the arguments

    The pattern as it stands after each step of the [try] block, and the
    diagnostics the steps contribute.  The driver is shown below to compute
    exactly these. *)

(** After the marker and the quotes are stripped, and after the normalizer
    when the verbose bit is set. *)
Definition stage_stripped (py_regex : string) : string :=
  PyStr.strip quote_chars (PyStr.lstrip "r" py_regex).

Definition stage_normalized (py_regex : string) (py_flags : Z) : string :=
  if truthy (Z.land py_flags VERBOSE)
  then handle_verbose_mode (stage_stripped py_regex)
  else stage_stripped py_regex.

(** What [handle_named_group_references] receives and returns. *)
Definition stage_converted (py_regex : string) (py_flags : Z) : string :=
  conservative_conversion (stage_normalized py_regex py_flags).

Definition stage_references (py_regex : string) (py_flags : Z) : string :=
  Re.sub re_named_ref (fun mt => "\k<" ++ group_str 1 mt ++ ">")
         (stage_converted py_regex py_flags).

(** What [handle_atomic_groups] receives and returns. *)
Definition stage_preserved (py_regex : string) (py_flags : Z) : string :=
  preserve_complex_pattern
    (Re.sub re_noncapturing (fun _ => "(?:") (stage_references py_regex py_flags)).

Definition stage_atomic (py_regex : string) (py_flags : Z) : string :=
  PyStr.replace "(?>" "(?:" (stage_preserved py_regex py_flags).

(** After the bell and any-character escapes, and after the newlines. *)
Definition stage_bell (py_regex : string) (py_flags : Z) : string :=
  PyStr.replace "\a" "\x07" (stage_atomic py_regex py_flags).

Definition stage_escapes (py_regex : string) (py_flags : Z) : string :=
  if PyStr.contains "\N" (stage_bell py_regex py_flags)
  then PyStr.replace "\N" "[^\n]" (stage_bell py_regex py_flags)
  else stage_bell py_regex py_flags.

Definition stage_newlines (py_regex : string) (py_flags : Z) : string :=
  Re.sub re_newline (fun _ => "\n") (stage_escapes py_regex py_flags).

Definition literal_text (py_regex : string) (py_flags : Z) : string :=
  "/" ++ balance_parentheses (stage_newlines py_regex py_flags) ++ "/"
  ++ handle_flags py_flags.

(** The matches of the named back-reference pattern, where the stage looks
    for them. *)
Definition named_refs_found (py_regex : string) (py_flags : Z) : list mobj :=
  map snd (fst (Re.scan re_named_ref (stage_converted py_regex py_flags))).

Definition diagnostics (py_regex : string) (py_flags : Z) : list string :=
  (map (fun mt => named_ref_warning (group_str 1 mt))
       (named_refs_found py_regex py_flags)
   ++ (if PyStr.contains "(?>" (stage_preserved py_regex py_flags)
       then [atomic_warning] else [])
   ++ (if PyStr.contains "\p" (stage_atomic py_regex py_flags)
          || PyStr.contains "\P" (stage_atomic py_regex py_flags)
       then [unicode_warning] else [])
   ++ (if PyStr.contains "(?<=" (stage_atomic py_regex py_flags)
          || PyStr.contains "(?<!" (stage_atomic py_regex py_flags)
       then [lookbehind_warning] else [])
   ++ (if PyStr.contains "\N" (stage_bell py_regex py_flags)
       then [any_char_warning] else [])
   ++ (if PyStr.contains "(?(1)" (stage_newlines py_regex py_flags)
       then [conditional_warning] else []))%list.

(** How many diagnostics of a list are named back-reference warnings. *)
Fixpoint count_named_ref_warnings (l : list string) : nat :=
  match l with
  | [] => 0
  | x :: l' =>
    (if prefix "Named group reference" x then 1 else 0)
    + count_named_ref_warnings l'
  end.

(** *** Named back-references, read off the text

    The longest run of word characters at the start of [s], and what
    follows it. *)
Fixpoint word_run (s : string) : string * string :=
  match s with
  | EmptyString => (EmptyString, EmptyString)
  | String c t =>
    if isword c
    then let '(w, r) := word_run t in (String c w, r)
    else (EmptyString, s)
  end.

(** A named back-reference written at the very start of [s]: its name and
    the text after its closing parenthesis. *)
Definition named_ref_at (s : string) : option (string * string) :=
  if prefix "(?P=" s
  then
    match word_run (PyStr.drop 4 s) with
    | (String c w, String d t) =>
      if Ascii.eqb d ")" then Some (String c w, t) else None
    | _ => None
    end
  else None.

(** The names of the named back-references written in [s], in order. *)
Fixpoint named_refs_in (s : string) : list string :=
  match s with
  | EmptyString => []
  | String _ t =>
    match named_ref_at s with
    | Some (w, _) => w :: named_refs_in t
    | None => named_refs_in t
    end
  end.

(** Where the matcher stands after a run of word characters. *)
Definition after_words (st : mstate) : mstate :=
  {| prev := last_or (prev st) (fst (word_run (rest st)));
     rest := snd (word_run (rest st));
     caps := caps st |}.

(** What is left to do for the substitution loop: twice the characters
    left, and one more while an empty match is still allowed here. *)
Definition rounds_left (must_advance : bool) (s : string) : nat :=
  2 * length s + (if must_advance then 0 else 1).

(** The literal and the diagnostics of a conversion of [pattern] under the
    flag letters [letters], as the self-test of the source obtains them. *)
Definition self_test (pattern letters : string) : option (string * list string) :=
  match convert_fresh pattern (parse_flags letters) false with
  | Some (Some js, warnings, _) => Some (js, warnings)
  | _ => None
  end.

(** ** The helpers of the source outside the pipeline *)

(** "\s" *)
Definition re_space : regex := Char (Is CSpace).

(** [pattern_preserved]: both texts with the white space taken out, and
    [in] either way round. *)
Definition pattern_preserved (original converted : string) : bool :=
  let original_core := Re.sub re_space (fun _ => "") original in
  let converted_core := Re.sub re_space (fun _ => "") converted in
  PyStr.contains original_core converted_core
  || PyStr.contains converted_core original_core.

(** [escape_special_chars].  The table is a raw string in the source and
    ends with two backslashes. *)
Definition special_chars : string := "[](){}^$.*+?|\\".

Definition escape_special_chars (regex : string) : string :=
  Re.join
    (map (fun char =>
            if PyStr.mem char special_chars && negb (PyStr.mem char "[]^-")
            then String backslash (String char EmptyString)
            else String char EmptyString)
         (list_ascii_of_string regex)).

(** ** More vocabulary *)

(** The bits that [handle_flags] looks at. *)
Definition js_flag_bits : Z :=
  Z.lor IGNORECASE (Z.lor MULTILINE (Z.lor DOTALL UNICODE)).

(** The balancer's reading of a text, as a check: every closer met outside
    an escape pair finds a group open, and no group is left open at the end.
    [depth] is the number of groups open at the start. *)
Fixpoint well_nested (depth : nat) (s : string) : bool :=
  match s with
  | EmptyString => depth =? 0
  | String c t =>
    if Ascii.eqb c backslash then
      match t with
      | EmptyString => depth =? 0
      | String _ t' => well_nested depth t'
      end
    else if Ascii.eqb c "("%char then well_nested (S depth) t
    else if Ascii.eqb c ")"%char then
      match depth with
      | O => false
      | S depth' => well_nested depth' t
      end
    else well_nested depth t
  end.

(** The characters that [escape_special_chars] puts a backslash before. *)
Definition escaped_chars : string := "(){}$.*+?|\".

(** Each character of a class replaced by [new]. *)
Fixpoint replace_chars (cs : cset) (new : string) (s : string) : string :=
  match s with
  | EmptyString => EmptyString
  | String c t =>
    (if cset_mem cs c then new else String c EmptyString)
    ++ replace_chars cs new t
  end.

(** A text with its white space taken out. *)
Definition without_space (s : string) : string :=
  filter_chars (fun c => negb (PyStr.isspace c)) s.

(** *** The trace of a conversion

    The entries that a call with [verbose] set appends to [steps], in order,
    as functions of the arguments. *)
Definition trace (py_regex : string) (py_flags : Z) : list string :=
  let stripped := stage_stripped py_regex in
  let normalized := stage_normalized py_regex py_flags in
  let converted := stage_converted py_regex py_flags in
  let references := stage_references py_regex py_flags in
  let preserved := stage_preserved py_regex py_flags in
  let atomic := stage_atomic py_regex py_flags in
  let newlines := stage_newlines py_regex py_flags in
  ([("Original Python regex: " ++ py_regex)%string]
  ++ (if negb (String.eqb stripped py_regex)
      then [("Stripped 'r' prefix and quotes: " ++ stripped)%string] else [])
  ++ (if truthy (Z.land py_flags VERBOSE)
      then [("Handled verbose mode: " ++ normalized)%string] else [])
  ++ (if negb (String.eqb converted normalized)
      then [("Converted Python-specific syntax: " ++ converted)%string] else [])
  ++ (if nonempty (map (fun mt => named_ref_warning (group_str 1 mt))
                        (named_refs_found py_regex py_flags))
      then [("Handled named group references: " ++ references)%string] else [])
  ++ [("Handled non-capturing groups: "
       ++ Re.sub re_noncapturing (fun _ => "(?:") references)%string]
  ++ [("Preserved complex patterns: " ++ preserved)%string]
  ++ (if PyStr.contains "(?>" preserved
      then [("Handled atomic groups: " ++ atomic)%string] else [])
  ++ (if PyStr.contains "\p" atomic || PyStr.contains "\P" atomic
      then [("Handled Unicode property escapes: " ++ atomic)%string] else [])
  ++ (if PyStr.contains "(?<=" atomic || PyStr.contains "(?<!" atomic
      then ["Warned about lookbehind assertions"] else [])
  ++ (if PyStr.contains "\N" (stage_bell py_regex py_flags)
      then ["Converted additional escape sequences"] else [])
  ++ [("Ensured pattern preservation: " ++ newlines)%string]
  ++ (if PyStr.contains "(?(1)" newlines
      then ["Checked for unsupported features"] else [])
  ++ [("Ensured balanced parentheses: " ++ balance_parentheses newlines)%string]
  ++ [("Handled flags: " ++ handle_flags py_flags)%string]
  ++ [("Final JavaScript regex: " ++ literal_text py_regex py_flags)%string])%list.

(** *** Patterns with nothing to convert

    A pattern is inert when it holds none of the constructs that a stage
    rewrites or warns about (the two anchors, any group opener that starts
    with a question mark, the bell, any-character and property escapes, the
    newline character) and its parentheses are well nested. *)
Definition inert (s : string) : bool :=
  negb (PyStr.contains "\A" s) && negb (PyStr.contains "\Z" s)
  && negb (PyStr.contains "(?" s)
  && negb (PyStr.contains "\a" s) && negb (PyStr.contains "\N" s)
  && negb (PyStr.contains "\p" s) && negb (PyStr.contains "\P" s)
  && negb (PyStr.mem newline s)
  && well_nested 0 s.

(** Every character of [s] is one of [chars]. *)
Fixpoint only_chars (chars s : string) : bool :=
  match s with
  | EmptyString => true
  | String c t => PyStr.mem c chars && only_chars chars t
  end.

(** Neither the first nor the last character of [s] is one of [chars]. *)
Definition bare (chars s : string) : bool :=
  match s with
  | EmptyString => true
  | String c _ => negb (PyStr.mem c chars)
  end
  && match last_or None s with
     | Some c => negb (PyStr.mem c chars)
     | None => true
     end.

(** *** Runs of characters of a class

    The longest run of characters of [cs] at the start of [s], and what
    follows it; and where the matcher stands after reading the run. *)
Fixpoint char_run (cs : cset) (s : string) : string * string :=
  match s with
  | EmptyString => (EmptyString, EmptyString)
  | String c t =>
    if cset_mem cs c
    then let '(w, r) := char_run cs t in (String c w, r)
    else (EmptyString, s)
  end.

Definition after_run (cs : cset) (st : mstate) : mstate :=
  {| prev := last_or (prev st) (fst (char_run cs (rest st)));
     rest := snd (char_run cs (rest st));
     caps := caps st |}.

(** *** Comments, read off the text

    What the comment rule of [handle_verbose_mode] takes away: on each
    line, everything from the first [#] that is not directly behind a
    backslash up to the end of the line; the newline stays.  [in_comment]
    tells whether the position is inside a comment, [p] is the character
    before the position. *)
Definition starts_comment (p : option ascii) (c : ascii) : bool :=
  Ascii.eqb c "#"
  && match p with
     | Some b => negb (Ascii.eqb b backslash)
     | None => true
     end.

Fixpoint strip_comments (in_comment : bool) (p : option ascii) (s : string)
  : string :=
  match s with
  | EmptyString => EmptyString
  | String c t =>
    if in_comment then
      if Ascii.eqb c newline
      then String c (strip_comments false (Some c) t)
      else strip_comments true (Some c) t
    else if starts_comment p c
      then strip_comments true (Some c) t
      else String c (strip_comments false (Some c) t)
  end.

(** A pattern without a square bracket: it has no character class. *)
Definition bracket_free (s : string) : bool :=
  negb (PyStr.mem "["%char s) && negb (PyStr.mem "]"%char s).

(** *** Named groups, read off the text

    A named group opener is written at the very start of [s]: the four
    characters of the Python opener, a name of one or more word characters,
    and the closing angle bracket. *)
Definition named_group_at (s : string) : bool :=
  prefix "(?P<" s
  && match char_run (Is CWord) (PyStr.drop 4 s) with
     | (String _ _, String d _) => Ascii.eqb d ">"
     | _ => false
     end.

(** The letter P of every named group opener taken out. *)
Fixpoint rename_groups (s : string) : string :=
  match s with
  | EmptyString => EmptyString
  | String c t =>
    if named_group_at s
    then
      match t with
      | String q (String _ t2) => String c (String q (rename_groups t2))
      | _ => String c (rename_groups t)
      end
    else String c (rename_groups t)
  end.

(** ** [run_tests]

    The table of the self-test: pattern, flag letters, expected literal and
    expected warnings (none where the source gives a triple). *)
Definition test_cases : list (string * string * string * list string) :=
  [ ("hello", "", "/hello/", []);
    ("hello world", "", "/hello world/", []);
    ("[a-z]", "", "/[a-z]/", []);
    ("[^a-z]", "", "/[^a-z]/", []);
    ("[a-zA-Z0-9_]", "", "/[a-zA-Z0-9_]/", []);
    ("a*", "", "/a*/", []);
    ("a+", "", "/a+/", []);
    ("a?", "", "/a?/", []);
    ("a{3}", "", "/a{3}/", []);
    ("a{3,}", "", "/a{3,}/", []);
    ("a{3,5}", "", "/a{3,5}/", []);
    ("^start", "", "/^start/", []);
    ("end$", "", "/end$/", []);
    ("\bword\b", "", "/\bword\b/", []);
    ("\Astart", "", "/^start/", []);
    ("end\Z", "", "/end$/", []);
    ("(group)", "", "/(group)/", []);
    ("(?:group)", "", "/(?:group)/", []);
    ("(group)\1", "", "/(group)\1/", []);
    ("(?P<name>group)", "", "/(?<name>group)/", []);
    ("(?P=name)", "", "/\k<name>/",
     ["Named group reference '(?P=name)' is not directly supported in JavaScript. Converted to '\k<name>', but may not work in all browsers."]);
    ("(?=positive)", "", "/(?=positive)/", []);
    ("(?!negative)", "", "/(?!negative)/", []);
    ("(?<=positive)", "", "/(?<=positive)/",
     ["Lookbehind assertions have limited support in JavaScript."]);
    ("(?<!negative)", "", "/(?<!negative)/",
     ["Lookbehind assertions have limited support in JavaScript."]);
    ("\d\D\w\W\s\S", "", "/\d\D\w\W\s\S/", []);
    ("case", "i", "/case/i", []);
    ("^multi$", "m", "/^multi$/m", []);
    (".", "s", "/./s", []);
    ("(?x)" ++ String newline "        \d+  # Match one or more digits"
     ++ String newline "        \s*  # Optional whitespace"
     ++ String newline "        \w+  # Match one or more word characters"
     ++ String newline "        ",
     "x", "/\d+\s*\w+/", []);
    ("\p{Greek}", "u", "/\p{Greek}/u",
     ["Unicode property escapes require the 'u' flag in JavaScript."]);
    ("\P{ASCII}", "u", "/\P{ASCII}/u",
     ["Unicode property escapes require the 'u' flag in JavaScript."]);
    ("^(?:(?P<word>\w+)\s*:\s*(?P<number>\d+)\s*(?:#.*" ++ ")?\n?)+$", "mx",
     "/^(?:(?<word>\w+)\s*:\s*(?<number>\d+)\s*(?:#.*" ++ ")?\n?)+$/m", []);
    ("(?>atomic)", "", "/(?:atomic)/",
     ["Atomic groups are not supported in JavaScript. Converted to non-capturing groups."]);
    ("(?(1)then|else)", "", "/(?(1)then|else)/",
     ["Conditional patterns are not supported in JavaScript. This part of the regex may not work as expected."]);
    ("", "", "//", []);
    ("[]]", "", "/[]]/", []);
    ("[^]]", "", "/[^]]/", []);
    ("[\]]", "", "/[\]]/", []);
    ("\a\N", "", "/\x07[^\n]/",
     ["'\N' is converted to '[^\n]', which may not behave identically in all cases."]) ].

(** [set(a) == set(b)] for two lists of strings. *)
Definition same_set (a b : list string) : bool :=
  forallb (fun x => existsb (String.eqb x) b) a
  && forallb (fun x => existsb (String.eqb x) a) b.

(** The condition of the loop: the literal is the expected one and the
    warnings are the expected ones as sets. *)
Definition as_expected (js_regex : option string) (warnings : list string)
  (expected_js_regex : string) (expected_warnings : list string) : bool :=
  match js_regex with
  | Some js => String.eqb js expected_js_regex
  | None => false
  end
  && same_set warnings expected_warnings.

(** The loop over the table, with the case numbers from [i] on.  Of what
    the loop prints only the verdicts are kept: the result is the list of
    the numbers of the cases reported as failed. *)
Fixpoint run_cases (i : nat) (cases : list (string * string * string * list string))
  : M (list nat) :=
  match cases with
  | [] => ret []
  | (py_regex, flags, expected_js_regex, expected_warnings) :: cases' =>
    let py_flags := parse_flags flags in
    '(js_regex, warnings, _) <- py_to_js_regex py_regex py_flags false ;;
    warnings <- items warnings ;;
    failed <- run_cases (S i) cases' ;;
    ret (if as_expected js_regex warnings expected_js_regex expected_warnings
         then failed else i :: failed)
  end.

Definition run_tests : M (list nat) := run_cases 1 test_cases.

(** The same verdicts, each case converted on a heap of its own. *)
Fixpoint failures (i : nat) (cases : list (string * string * string * list string))
  : list nat :=
  match cases with
  | [] => []
  | (py_regex, flags, expected_js_regex, expected_warnings) :: cases' =>
    match convert_fresh py_regex (parse_flags flags) false with
    | Some (js_regex, warnings, _) =>
      if as_expected js_regex warnings expected_js_regex expected_warnings
      then failures (S i) cases' else i :: failures (S i) cases'
    | None => i :: failures (S i) cases'
    end
  end.

(** *** Named back-references rewritten, read off the text

    Each named back-reference (see [named_ref_at]) written as a backslash,
    the letter k and the name in angle brackets.  [skip] counts the
    characters of the reference just rewritten that are still to be passed
    over. *)
Fixpoint rewrite_refs (skip : nat) (s : string) : string :=
  match s with
  | EmptyString => EmptyString
  | String c t =>
    match skip with
    | S k => rewrite_refs k t
    | O =>
      match named_ref_at s with
      | Some (w, _) => "\k<" ++ w ++ ">" ++ rewrite_refs (length w + 4) t
      | None => String c (rewrite_refs 0 t)
      end
    end
  end.
(** * Properties *)

(** ** Strings *)

Lemma append_nil_r (s : string) : s ++ "" = s.
Proof. induction s as [|c s IH]; simpl; [reflexivity | now rewrite IH]. Qed.

Lemma append_assoc (a b c : string) : (a ++ b) ++ c = a ++ (b ++ c).
Proof. induction a as [|x a IH]; simpl; [reflexivity | now rewrite IH]. Qed.

Lemma append_length (a b : string) : length (a ++ b) = length a + length b.
Proof. induction a as [|x a IH]; simpl; [reflexivity | now rewrite IH]. Qed.

Lemma string_len_ind (P : string -> Prop) :
  (forall s, (forall t, length t < length s -> P t) -> P s) -> forall s, P s.
Proof.
  intros step s.
  assert (H : forall n t, length t < n -> P t).
  { induction n as [|n IH]; intros t Ht; [lia|].
    apply step. intros u Hu. apply IH. lia. }
  apply (H (S (length s))). lia.
Qed.

Lemma contains_char (c : ascii) (s : string) :
  PyStr.contains (String c "") s = PyStr.mem c s.
Proof.
  induction s as [|d t IH]; simpl; [reflexivity|].
  rewrite IH. destruct (ascii_dec c d) as [->|ne].
  - rewrite Ascii.eqb_refl. now destruct t.
  - apply Ascii.eqb_neq in ne. now rewrite ne.
Qed.

(** ** The flag codec *)

Lemma flag_codec_cases (i m' s x u : bool) :
  handle_flags
    (let flags := 0%Z in
     let flags := if i then Z.lor flags IGNORECASE else flags in
     let flags := if m' then Z.lor flags MULTILINE else flags in
     let flags := if s then Z.lor flags DOTALL else flags in
     let flags := if x then Z.lor flags VERBOSE else flags in
     let flags := if u then Z.lor flags UNICODE else flags in
     flags)
  = ((if i then "i" else "") ++ (if m' then "m" else "")
     ++ (if s then "s" else "") ++ (if u then "u" else "")).
Proof. destruct i, m', s, x, u; reflexivity. Qed.

(** C2.  Decoding a flag-letter string and encoding the result gives the
    letters of the table i, m, s, u that occur in the string, in table
    order; every other letter of the string is dropped, and the verbose
    letter x is never emitted. *)
Theorem handle_flags_parse_flags (s : string) :
  handle_flags (parse_flags s)
  = filter_chars (fun c => PyStr.mem c s) flag_table
  /\ PyStr.mem "x"%char (handle_flags (parse_flags s)) = false
  /\ forall c, PyStr.mem c (handle_flags (parse_flags s))
               = PyStr.mem c flag_table && PyStr.mem c s.
Proof.
  unfold parse_flags. rewrite flag_codec_cases.
  rewrite !contains_char. unfold flag_table. simpl filter_chars.
  destruct (PyStr.mem "i" s) eqn:Hi, (PyStr.mem "m" s) eqn:Hm,
           (PyStr.mem "s" s) eqn:Hs, (PyStr.mem "u" s) eqn:Hu;
    (split; [reflexivity | split; [reflexivity|]]);
    intro c; simpl;
    repeat match goal with
           | |- context [Ascii.eqb ?a ?k] =>
             is_var a; destruct (Ascii.eqb_spec a k) as [->|]
           end;
    simpl; rewrite ?Hi, ?Hm, ?Hs, ?Hu; reflexivity.
Qed.

(** ** The delimiter balancer *)

Lemma count_unescaped_app (p : ascii) (a b : string) :
  dangling_escape a = false ->
  count_unescaped p (a ++ b) = count_unescaped p a + count_unescaped p b.
Proof.
  induction a as [a IH] using string_len_ind. intro Ha.
  destruct a as [|c [|d t]]; simpl in *.
  - reflexivity.
  - destruct (Ascii.eqb c backslash); [discriminate|].
    destruct b; simpl; lia.
  - destruct (Ascii.eqb c backslash).
    + apply IH; [simpl; lia | assumption].
    + rewrite <- Nat.add_assoc. f_equal.
      apply (IH (String d t)); [simpl; lia | assumption].
Qed.

Lemma dangling_escape_app (a b : string) :
  dangling_escape a = false -> dangling_escape (a ++ b) = dangling_escape b.
Proof.
  induction a as [a IH] using string_len_ind. intro Ha.
  destruct a as [|c [|d t]]; simpl in *.
  - reflexivity.
  - destruct (Ascii.eqb c backslash); [discriminate | reflexivity].
  - destruct (Ascii.eqb c backslash).
    + apply IH; [simpl; lia | assumption].
    + apply (IH (String d t)); [simpl; lia | assumption].
Qed.

Lemma balanced_upto_step (result : string) (stack stack' : list nat) (piece : string) :
  balanced_upto result stack ->
  dangling_escape piece = false ->
  count_unescaped "(" piece + List.length stack
  = count_unescaped ")" piece + List.length stack' ->
  balanced_upto (result ++ piece) stack'.
Proof.
  intros [Hd Hc] Hp Hn. split.
  - now rewrite dangling_escape_app.
  - rewrite !count_unescaped_app by assumption. lia.
Qed.

Lemma balance_scan_balanced (s : string) :
  forall i stack result,
    balanced_upto result stack ->
    dangling_escape s = false ->
    balanced_upto (fst (balance_scan s i stack result))
                  (snd (balance_scan s i stack result)).
Proof.
  induction s as [s IH] using string_len_ind. intros i stack result Hinv Hs.
  destruct s as [|c t]; [exact Hinv|].
  simpl in Hs |- *.
  destruct (Ascii.eqb c backslash) eqn:Eb.
  - destruct t as [|d t']; [discriminate|].
    apply IH; [simpl; lia | | assumption].
    apply balanced_upto_step with (stack := stack); [assumption | | ].
    + simpl. now rewrite Eb.
    + simpl. now rewrite Eb.
  - destruct (Ascii.eqb c "(") eqn:Eo.
    + apply IH; [simpl; lia | | assumption].
      apply balanced_upto_step with (stack := stack); [assumption | | ]; simpl; rewrite Eb.
      * reflexivity.
      * rewrite Eo. apply Ascii.eqb_eq in Eo. subst c. simpl. lia.
    + destruct (Ascii.eqb c ")") eqn:Ec.
      * destruct stack as [|top stack'].
        -- apply IH; [simpl; lia | | assumption].
           apply balanced_upto_step with (stack := []); [assumption | | ]; reflexivity.
        -- apply IH; [simpl; lia | | assumption].
           apply balanced_upto_step with (stack := top :: stack'); [assumption | | ];
             simpl; rewrite Eb; [reflexivity|].
           rewrite Eo, Ec. simpl. lia.
      * apply IH; [simpl; lia | | assumption].
        apply balanced_upto_step with (stack := stack); [assumption | | ];
          simpl; rewrite Eb; [reflexivity|].
        now rewrite Eo, Ec.
Qed.

Lemma balance_close_balanced (stack : list nat) :
  forall result,
    balanced_upto result stack ->
    count_unescaped "(" (balance_close stack result)
    = count_unescaped ")" (balance_close stack result).
Proof.
  induction stack as [|top stack IH]; intros result Hinv; simpl.
  - destruct Hinv as [_ Hc]. simpl in Hc. lia.
  - apply IH. apply balanced_upto_step with (stack := top :: stack);
      [assumption | reflexivity | simpl; lia].
Qed.

(** The balancer's guarantee: when the scan does not end on a backslash
    with nothing after it, the output has as many non-escaped openers as
    non-escaped closers. *)
Theorem balance_parentheses_balanced (regex : string) :
  dangling_escape regex = false ->
  count_unescaped "(" (balance_parentheses regex)
  = count_unescaped ")" (balance_parentheses regex).
Proof.
  intro Hd. unfold balance_parentheses.
  pose proof (balance_scan_balanced regex 0 [] "" (conj eq_refl eq_refl) Hd) as H.
  destruct (balance_scan regex 0 [] "") as [result stack].
  now apply balance_close_balanced.
Qed.

Lemma Subseq_refl (s : string) : Subseq s s.
Proof. induction s; constructor; assumption. Qed.

Lemma Subseq_nil_l (s : string) : Subseq "" s.
Proof. induction s; constructor; assumption. Qed.

Lemma Subseq_app (a b c d : string) :
  Subseq a b -> Subseq c d -> Subseq (a ++ c) (b ++ d).
Proof. intros Hab Hcd. induction Hab; simpl; [assumption | constructor; auto ..]. Qed.

Lemma Subseq_app_r (a b d : string) : Subseq a b -> Subseq a (b ++ d).
Proof.
  intro H. rewrite <- (append_nil_r a).
  apply Subseq_app; [assumption | apply Subseq_nil_l].
Qed.

Lemma balance_scan_keeps (s : string) :
  forall i stack result pre,
    Subseq pre result ->
    Subseq (pre ++ s) (fst (balance_scan s i stack result)).
Proof.
  induction s as [s IH] using string_len_ind. intros i stack result pre Hpre.
  destruct s as [|c t]; simpl.
  - now rewrite append_nil_r.
  - assert (Hone : forall piece rest', String c t = piece ++ rest' ->
                   forall out, Subseq piece out ->
                   Subseq (pre ++ piece) (result ++ out))
      by (intros; now apply Subseq_app).
    destruct (Ascii.eqb c backslash).
    + destruct t as [|d t']; simpl.
      * apply Subseq_app; [assumption | apply Subseq_refl].
      * change (pre ++ String c (String d t'))
          with (pre ++ (String c (String d "") ++ t')).
        rewrite <- append_assoc.
        apply IH; [simpl; lia|].
        apply Subseq_app; [assumption | apply Subseq_refl].
    + change (pre ++ String c t) with (pre ++ (String c "" ++ t)).
      rewrite <- append_assoc.
      destruct (Ascii.eqb c "(");
        [| destruct (Ascii.eqb c ")"); [destruct stack|] ];
        (apply IH; [simpl; lia|]);
        (apply Subseq_app; [assumption|]);
        repeat constructor.
Qed.

Lemma balance_close_keeps (stack : list nat) :
  forall result a, Subseq a result -> Subseq a (balance_close stack result).
Proof.
  induction stack as [|top stack IH]; intros result a H; simpl; [assumption|].
  apply IH. now apply Subseq_app_r.
Qed.

(** No character of the input is dropped: the input can be read off the
    output in order. *)
Theorem balance_parentheses_keeps_input (regex : string) :
  Subseq regex (balance_parentheses regex).
Proof.
  unfold balance_parentheses.
  pose proof (balance_scan_keeps regex 0 [] "" "" Subseq_nil) as H.
  destruct (balance_scan regex 0 [] "") as [result stack].
  now apply balance_close_keeps.
Qed.

(** One closer is appended for each opener still open. *)
Lemma balance_close_appends (stack : list nat) :
  forall result,
    balance_close stack result = result ++ rep (List.length stack) ")".
Proof.
  induction stack as [|top stack IH]; intro result; simpl.
  - now rewrite append_nil_r.
  - rewrite IH, append_assoc. reflexivity.
Qed.


(** ** Stripping the raw-string marker and the quotes *)

Lemma lstrip_rep (c : ascii) (n : nat) (t : string) :
  PyStr.lstrip (String c "") (rep n c ++ t) = PyStr.lstrip (String c "") t.
Proof.
  induction n as [|n IH]; [reflexivity|].
  cbn [rep append PyStr.lstrip PyStr.mem]. now rewrite Ascii.eqb_refl.
Qed.

Lemma lstrip_no_marker (c : ascii) (t : string) :
  prefix (String c "") t = false -> PyStr.lstrip (String c "") t = t.
Proof.
  destruct t as [|d t]; [reflexivity|]. cbn [prefix PyStr.lstrip PyStr.mem].
  destruct (ascii_dec c d) as [->|ne].
  - now destruct t.
  - intros _. apply not_eq_sym in ne. apply Ascii.eqb_neq in ne. now rewrite ne.
Qed.

(** ** [str.replace] *)

Lemma prefix_cons (a c : ascii) (u t : string) :
  prefix (String a u) (String c t) = Ascii.eqb a c && prefix u t.
Proof.
  simpl. destruct (ascii_dec a c) as [->|ne].
  - now rewrite Ascii.eqb_refl.
  - apply Ascii.eqb_neq in ne. now rewrite ne.
Qed.

Lemma prefix_nil (s : string) : prefix "" s = true.
Proof. now destruct s. Qed.

Lemma replace_scan_skip (old new : string) (s : string) :
  forall k, PyStr.replace_scan old new k s
            = PyStr.replace_scan old new 0 (PyStr.drop k s).
Proof.
  induction s as [|c t IH]; intros [|k]; try reflexivity.
  cbn [PyStr.replace_scan PyStr.drop]. apply IH.
Qed.

(** The two equations of a replacement with a non-empty [old]. *)
Lemma replace_cons (a : ascii) (u new : string) (c : ascii) (t : string) :
  PyStr.replace (String a u) new (String c t)
  = if prefix (String a u) (String c t)
    then new ++ PyStr.replace (String a u) new (PyStr.drop (length u) t)
    else String c (PyStr.replace (String a u) new t).
Proof.
  unfold PyStr.replace. cbn [PyStr.replace_scan].
  replace (length (String a u) - 1) with (length u) by (simpl; lia).
  now rewrite replace_scan_skip.
Qed.


(** Where [old] does not occur, nothing is replaced. *)
Lemma replace_absent (a : ascii) (u new s : string) :
  PyStr.contains (String a u) s = false -> PyStr.replace (String a u) new s = s.
Proof.
  induction s as [|c t IH]; [reflexivity|].
  intro H. cbn [PyStr.contains] in H. apply orb_false_elim in H. destruct H as [H1 H2].
  rewrite replace_cons, H1, IH; [reflexivity | assumption].
Qed.

Lemma count_char_app (p : ascii) (a b : string) :
  PyStr.count_char p (a ++ b) = PyStr.count_char p a + PyStr.count_char p b.
Proof. induction a as [|c a IH]; simpl; [reflexivity | rewrite IH; lia]. Qed.

(** *** Two-character patterns that start with a backslash *)

Section Anchor.

Variables (letter caret : ascii).
Hypothesis letter_not_backslash : letter <> backslash.
Hypothesis caret_not_backslash : caret <> backslash.
Hypothesis caret_not_letter : caret <> letter.

Local Abbreviation old := (String backslash (String letter "")).
Local Abbreviation new := (String caret "").
Local Abbreviation R := (PyStr.replace old new).








End Anchor.

Lemma prefix_inv (a s : string) :
  prefix a s = true -> s = a ++ PyStr.drop (length a) s.
Proof.
  revert s. induction a as [|x a IH]; intros [|c t] H; try reflexivity; try discriminate.
  rewrite prefix_cons in H. apply andb_prop in H. destruct H as [Hx Ha].
  apply Ascii.eqb_eq in Hx. subst c. simpl. f_equal. now apply IH.
Qed.


(** *** The anchors of [conservative_conversion] *)



(** *** The atomic-group opener *)

Lemma atomic_hit (t : string) :
  PyStr.replace "(?>" "(?:" (String "(" (String "?" (String ">" t)))
  = String "(" (String "?" (String ":" (PyStr.replace "(?>" "(?:" t))).
Proof. rewrite replace_cons, !prefix_cons, prefix_nil. reflexivity. Qed.

(** A pattern occurrence, spelled out. *)
Lemma atomic_prefix_inv (c : ascii) (t : string) :
  prefix "(?>" (String c t) = true ->
  exists u, c = "("%char /\ t = String "?" (String ">" u).
Proof.
  intro E. apply prefix_inv in E. cbn in E. injection E as -> E. eauto.
Qed.

Lemma atomic_head (d : ascii) (s : string) :
  prefix (String d "") (PyStr.replace "(?>" "(?:" s) = prefix (String d "") s.
Proof.
  destruct s as [|c t]; [reflexivity|].
  destruct (prefix "(?>" (String c t)) eqn:E.
  - apply atomic_prefix_inv in E. destruct E as (u & -> & ->).
    rewrite (atomic_hit u). now rewrite !prefix_cons, !prefix_nil.
  - rewrite replace_cons, E. now rewrite !prefix_cons, !prefix_nil.
Qed.

Lemma atomic_head2 (d e : ascii) (s : string) :
  prefix (String d (String e "")) (PyStr.replace "(?>" "(?:" s)
  = prefix (String d (String e "")) s.
Proof.
  destruct s as [|c t]; [reflexivity|].
  destruct (prefix "(?>" (String c t)) eqn:E.
  - apply atomic_prefix_inv in E. destruct E as (u & -> & ->).
    rewrite (atomic_hit u). now rewrite !prefix_cons, !prefix_nil.
  - rewrite replace_cons, E. rewrite !(prefix_cons d). f_equal. apply atomic_head.
Qed.

Lemma atomic_gone (s : string) :
  PyStr.contains "(?>" (PyStr.replace "(?>" "(?:" s) = false.
Proof.
  induction s as [s IH] using string_len_ind.
  destruct s as [|c t]; [reflexivity|].
  destruct (prefix "(?>" (String c t)) eqn:E.
  - apply atomic_prefix_inv in E. destruct E as (u & -> & ->).
    rewrite (atomic_hit u). cbn [PyStr.contains].
    rewrite IH by (simpl; lia). now rewrite !prefix_cons.
  - rewrite replace_cons, E. cbn [PyStr.contains].
    rewrite IH by (simpl; lia). rewrite orb_false_r.
    rewrite prefix_cons in E. rewrite prefix_cons.
    destruct (Ascii.eqb "(" c); [|reflexivity]. cbn [andb] in *.
    now rewrite atomic_head2.
Qed.

Lemma atomic_counted (s : string) :
  PyStr.occurrences "(?:" (PyStr.replace "(?>" "(?:" s)
  = PyStr.occurrences "(?:" s + PyStr.occurrences "(?>" s.
Proof.
  induction s as [s IH] using string_len_ind.
  destruct s as [|c t]; [reflexivity|].
  destruct (prefix "(?>" (String c t)) eqn:E.
  - apply atomic_prefix_inv in E. destruct E as (u & -> & ->).
    rewrite (atomic_hit u). cbn [PyStr.occurrences].
    rewrite IH by (simpl; lia). rewrite !prefix_cons, !prefix_nil. cbn. lia.
  - rewrite replace_cons, E. cbn [PyStr.occurrences]. rewrite E, IH by (simpl; lia).
    rewrite !(prefix_cons "(").
    destruct (Ascii.eqb "(" c); cbn [andb]; [|lia].
    rewrite atomic_head2. lia.
Qed.

(** ** The matcher *)

Lemma take_app_length (w t : string) :
  PyStr.take (length (w ++ t) - length t) (w ++ t) = w.
Proof.
  rewrite append_length. replace (length w + length t - length t) with (length w) by lia.
  induction w as [|c w IH]; simpl; [now destruct t | now rewrite IH].
Qed.

Lemma last_or_app (p : option ascii) (a b : string) :
  last_or p (a ++ b) = last_or (last_or p a) b.
Proof. revert p. induction a as [|c a IH]; intro p; simpl; [reflexivity | apply IH]. Qed.

(** The matcher only ever succeeds along a declared match. *)
Lemma star_loop_sound (g : greed) (r : regex) :
  (forall k st res, m r k st = Some res ->
                    exists st', matches r st st' /\ k st' = Some res) ->
  forall fuel k st res,
    star_loop g (m r) k fuel st = Some res ->
    exists st', matches (Star g r) st st' /\ k st' = Some res.
Proof.
  intros IHr. induction fuel as [|fuel IH]; intros k st res H; simpl in H.
  - exists st. split; [constructor | assumption].
  - assert (Hagain :
      m r (fun st' => if length (rest st') <? length (rest st)
                      then star_loop g (m r) k fuel st' else None) st = Some res ->
      exists st', matches (Star g r) st st' /\ k st' = Some res).
    { intro Hm. apply IHr in Hm. destruct Hm as (st1 & Hm1 & Hk).
      destruct (length (rest st1) <? length (rest st)); [|discriminate].
      apply IH in Hk. destruct Hk as (st2 & Hm2 & Hk2).
      exists st2. split; [econstructor 7; eassumption | assumption]. }
    assert (Hstop : k st = Some res ->
                    exists st', matches (Star g r) st st' /\ k st' = Some res)
      by (intro Hk; exists st; split; [constructor | assumption]).
    destruct g.
    + destruct (m r _ st) eqn:E; [inversion H; subst; auto | auto].
    + destruct (k st) eqn:E; [inversion H; subst; auto | auto].
Qed.

Theorem m_sound (r : regex) :
  forall k st res,
    m r k st = Some res -> exists st', matches r st st' /\ k st' = Some res.
Proof.
  induction r as [ | cs | r1 IH1 r2 IH2 | r1 IH1 r2 IH2 | g r1 IH1 | n r1 IH1
                 | r1 IH1 | cs | ml ]; intros k st res H; simpl in H.
  - exists st. split; [constructor | assumption].
  - destruct (rest st) as [|c t] eqn:E; [discriminate|].
    destruct (cset_mem cs c) eqn:Ec; [|discriminate].
    exists (advance c t st). split; [now constructor | assumption].
  - apply IH1 in H. destruct H as (st1 & H1 & H).
    apply IH2 in H. destruct H as (st2 & H2 & H).
    exists st2. split; [econstructor; eassumption | assumption].
  - destruct (m r1 k st) eqn:E.
    + inversion H; subst. apply IH1 in E. destruct E as (st' & ? & ?).
      exists st'. split; [now apply M_AltL | assumption].
    + apply IH2 in H. destruct H as (st' & ? & ?).
      exists st'. split; [now apply M_AltR | assumption].
  - eapply star_loop_sound; eassumption.
  - apply IH1 in H. destruct H as (st' & ? & ?).
    exists (set_cap n (consumed st st') st'). split; [now constructor | assumption].
  - destruct (m r1 Some st) as [st1|] eqn:E; [|discriminate].
    apply IH1 in E. destruct E as (st' & ? & E). inversion E; subst.
    exists (with_caps st st1). split; [now constructor | assumption].
  - exists st. split; [|destruct (prev st) as [c|]; [destruct (cset_mem cs c)|]; congruence].
    constructor. intros c Hc. rewrite Hc in H. now destruct (cset_mem cs c).
  - destruct (at_eol ml (rest st)) eqn:E; [|discriminate].
    exists st. split; [now constructor | assumption].
Qed.

(** A match reads a prefix of what is left, and the previous character
    follows. *)
Lemma matches_reads (r : regex) (st st' : mstate) :
  matches r st st' ->
  exists w, rest st = w ++ rest st' /\ prev st' = last_or (prev st) w.
Proof.
  induction 1 as [ st | cs c t st E Hc | r1 r2 st st1 st2 _ IH1 _ IH2
                 | r1 r2 st st' _ IH | r1 r2 st st' _ IH | g r st
                 | g r st st1 st2 _ IH1 _ IH2 | n r st st' _ IH
                 | r st st' _ IH | cs st Hp | ml st He ];
    try (exists ""; split; reflexivity).
  - exists (String c ""). simpl. split; [assumption | reflexivity].
  - destruct IH1 as (w1 & E1 & P1), IH2 as (w2 & E2 & P2).
    exists (w1 ++ w2). rewrite append_assoc, <- E2, <- E1, last_or_app, <- P1.
    split; [reflexivity | assumption].
  - assumption.
  - assumption.
  - destruct IH1 as (w1 & E1 & P1), IH2 as (w2 & E2 & P2).
    exists (w1 ++ w2). rewrite append_assoc, <- E2, <- E1, last_or_app, <- P1.
    split; [reflexivity | assumption].
  - assumption.
Qed.


Lemma consumed_reads (st st' : mstate) (w : string) :
  rest st = w ++ rest st' -> consumed st st' = w.
Proof. intro E. unfold consumed. rewrite E. apply take_app_length. Qed.

(** A literal reads exactly its own text and leaves the groups alone. *)
Lemma matches_Lit (s : string) (st st' : mstate) :
  matches (Lit s) st st' ->
  rest st = s ++ rest st' /\ caps st' = caps st /\ prev st' = last_or (prev st) s.
Proof.
  revert st. induction s as [|c s IH]; intros st H; simpl in H.
  - inversion H; subst. repeat split.
  - inversion H as [ | | r1 r2 s0 st1 s2 H1 H2 | | | | | | | | ]; subst.
    inversion H1 as [ | cs c' t s0 E Hc | | | | | | | | | ]; subst.
    apply IH in H2. destruct H2 as (E2 & C2 & P2). simpl in *.
    apply Ascii.eqb_eq in Hc. subst c'.
    rewrite E, E2. repeat split; assumption.
Qed.

(** Inversion, one constructor at a time. *)
Lemma matches_Seq_inv (r1 r2 : regex) (st st' : mstate) :
  matches (Seq r1 r2) st st' ->
  exists st1, matches r1 st st1 /\ matches r2 st1 st'.
Proof. inversion 1; subst; eauto. Qed.

Lemma matches_Group_inv (n : nat) (r : regex) (st st' : mstate) :
  matches (Group n r) st st' ->
  exists st1, matches r st st1 /\ st' = set_cap n (consumed st st1) st1.
Proof. inversion 1; subst; eauto. Qed.

Lemma matches_Char_inv (cs : cset) (st st' : mstate) :
  matches (Char cs) st st' ->
  exists c t, rest st = String c t /\ cset_mem cs c = true /\ st' = advance c t st.
Proof. inversion 1; subst; eauto. Qed.

Lemma matches_NotBehind_inv (cs : cset) (st st' : mstate) :
  matches (NotBehind cs) st st' ->
  st' = st /\ forall c, prev st = Some c -> cset_mem cs c = false.
Proof. inversion 1; subst; eauto. Qed.

Lemma matches_Star_inv (g : greed) (r : regex) (st st' : mstate) :
  matches (Star g r) st st' ->
  st' = st \/ exists st1, matches r st st1 /\ matches (Star g r) st1 st'.
Proof. inversion 1; subst; eauto. Qed.

Lemma matches_Ahead_inv (r : regex) (st st' : mstate) :
  matches (Ahead r) st st' -> exists st1, matches r st st1.
Proof. inversion 1; subst; eauto. Qed.

Lemma matches_Eol_inv (multiline : bool) (st st' : mstate) :
  matches (Eol multiline) st st' ->
  st' = st /\ at_eol multiline (rest st) = true.
Proof. inversion 1; subst; eauto. Qed.

(** ** Searching and substituting *)

Lemma append_same_length (a b c d : string) :
  length a = length b -> a ++ c = b ++ d -> a = b /\ c = d.
Proof.
  revert b. induction a as [|x a IH]; intros [|y b] Hl H; simpl in *; try discriminate.
  - now split.
  - inversion H; subst. destruct (IH b) as [-> ->]; [lia | assumption | now split].
Qed.

Lemma append_inv_tail (a b c : string) : a ++ c = b ++ c -> a = b.
Proof.
  intro H. apply (append_same_length a b c c); [|assumption].
  apply (f_equal length) in H. rewrite !append_length in H. lia.
Qed.

(** What one attempt at a position returns. *)
Lemma match_here_sound (r : regex) (must_advance : bool) (p : option ascii)
  (s : string) (st' : mstate) :
  match_here r must_advance p s = Some st' ->
  exists w,
    s = w ++ rest st'
    /\ matches r {| prev := p; rest := w ++ rest st'; caps := [] |} st'
    /\ prev st' = last_or p w
    /\ PyStr.take (length s - length (rest st')) s = w
    /\ (must_advance = true -> w <> "").
Proof.
  unfold match_here. intro E. apply m_sound in E. destruct E as (st1 & Hm & Hk).
  destruct (must_advance && (length (rest st1) =? length s))%bool eqn:Eg;
    [discriminate|].
  inversion Hk; subst st1; clear Hk.
  pose proof (matches_reads _ _ _ Hm) as (w & Ew & Pw). cbn [rest prev] in Ew, Pw.
  exists w. subst s. rewrite take_app_length. repeat split; try assumption.
  intros -> ->. simpl in Eg. rewrite Nat.eqb_refl in Eg. discriminate.
Qed.

(** What a successful search returns. *)
Lemma search_sound (r : regex) (s : string) :
  forall must_advance p f,
    search r must_advance p s = Some f ->
    exists st',
      s = gap f ++ whole (mo f) ++ after f
      /\ matches r {| prev := last_or p (gap f);
                      rest := whole (mo f) ++ after f; caps := [] |} st'
      /\ rest st' = after f
      /\ caps st' = groups (mo f)
      /\ after_prev f = last_or (last_or p (gap f)) (whole (mo f))
      /\ (must_advance = true -> gap f = "" -> whole (mo f) <> "").
Proof.
  assert (Hhere : forall ma p s st',
    match_here r ma p s = Some st' ->
    let f := {| gap := "";
                mo := {| whole := PyStr.take (length s - length (rest st')) s;
                         groups := caps st' |};
                after_prev := prev st'; after := rest st' |} in
    exists st'0,
      s = gap f ++ whole (mo f) ++ after f
      /\ matches r {| prev := last_or p (gap f);
                      rest := whole (mo f) ++ after f; caps := [] |} st'0
      /\ rest st'0 = after f
      /\ caps st'0 = groups (mo f)
      /\ after_prev f = last_or (last_or p (gap f)) (whole (mo f))
      /\ (ma = true -> gap f = "" -> whole (mo f) <> "")).
  { intros ma p s0 st' E. apply match_here_sound in E.
    destruct E as (w & Es & Hm & Hp & Ht & Hadv). cbn. rewrite Ht.
    exists st'. repeat split; try assumption. intros Hma _. now apply Hadv. }
  induction s as [|c t IH]; intros ma p f H; cbn [search] in H.
  - destruct (match_here r ma p "") as [st'|] eqn:E; [|discriminate].
    inversion H; subst; clear H. exact (Hhere ma p "" st' E).
  - destruct (match_here r ma p (String c t)) as [st'|] eqn:E.
    + inversion H; subst; clear H. exact (Hhere ma p (String c t) st' E).
    + destruct (search r false (Some c) t) as [f0|] eqn:Es; [|discriminate].
      inversion H; subst; clear H. cbn [gap mo whole groups after after_prev].
      apply IH in Es. destruct Es as (st' & Es & Hm & Hr & Hc & Hp & _).
      exists st'. simpl. rewrite <- Es. repeat split; try assumption.
      intros _ Hg. discriminate.
Qed.

(** Every segment of a scan is a match in the subject, and the segments
    with the tail make up the subject. *)
Lemma scan_loop_sound (r : regex) :
  forall fuel must_advance p s pre segs tail,
    p = last_or None pre ->
    scan_loop fuel r must_advance p s = (segs, tail) ->
    s = join (map (fun '(g, x) => g ++ whole x) segs) ++ tail
    /\ Forall (fun seg => found_in r (pre ++ s) (snd seg)) segs.
Proof.
  induction fuel as [|fuel IH]; intros ma p s pre segs tail Hp H; simpl in H.
  - inversion H; subst. split; [reflexivity | constructor].
  - destruct (search r ma p s) as [f|] eqn:Es.
    + destruct (scan_loop fuel r _ (after_prev f) (after f)) as [segs' tail'] eqn:El.
      inversion H; subst segs tail; clear H.
      apply search_sound in Es.
      destruct Es as (st' & Es & Hm & Hr & Hc & Hap & _).
      apply (IH _ _ _ (pre ++ gap f ++ whole (mo f))) in El.
      * destruct El as [Et Hall]. split.
        -- simpl. rewrite !append_assoc, <- Et. exact Es.
        -- constructor.
           ++ exists (pre ++ gap f), (after f), st'. simpl.
              rewrite last_or_app, <- Hp, append_assoc, <- Es.
              repeat split; assumption.
           ++ replace (pre ++ s) with ((pre ++ gap f ++ whole (mo f)) ++ after f);
                [assumption|].
              rewrite Es. now rewrite !append_assoc.
      * rewrite !last_or_app, <- Hp. assumption.
    + inversion H; subst. split; [reflexivity | constructor].
Qed.

Lemma scan_sound (r : regex) (s : string) (segs : list (string * mobj)) (tail : string) :
  Re.scan r s = (segs, tail) ->
  s = join (map (fun '(g, x) => g ++ whole x) segs) ++ tail
  /\ Forall (fun seg => found_in r s (snd seg)) segs.
Proof. intro H. now apply (scan_loop_sound r _ _ _ _ "" _ _ eq_refl) in H. Qed.

(** Putting back what was matched changes nothing. *)
Theorem sub_identity (r : regex) (repl : mobj -> string) (s : string) :
  (forall x, found_in r s x -> repl x = whole x) -> Re.sub r repl s = s.
Proof.
  intro Hrepl. unfold Re.sub.
  destruct (Re.scan r s) as [segs tail] eqn:E.
  apply scan_sound in E. destruct E as [Es Hall].
  rewrite Es at 1. f_equal.
  clear Es. induction Hall as [|[g x] segs Hx _ IH]; [reflexivity|].
  simpl. now rewrite IH, (Hrepl x Hx).
Qed.

(** Where the pattern matches nowhere, the substitution changes nothing. *)
Corollary sub_no_match (r : regex) (repl : mobj -> string) (s : string) :
  (forall x, ~ found_in r s x) -> Re.sub r repl s = s.
Proof. intro H. apply sub_identity. intros x Hx. now apply H in Hx. Qed.

(** A match of an opener, group 1 and a closer is made of these three. *)
Lemma group1_shape (a b : string) (body : regex) (s : string) (x : mobj) :
  found_in (Seq (Lit a) (Seq (Group 1 body) (Lit b))) s x ->
  exists w, group 1 x = Some w /\ whole x = a ++ w ++ b.
Proof.
  intros (pre & post & st' & _ & Hm & Hr & Hc).
  apply matches_Seq_inv in Hm. destruct Hm as (st1 & H1 & Hm).
  apply matches_Seq_inv in Hm. destruct Hm as (st2 & H2 & H3).
  apply matches_Group_inv in H2. destruct H2 as (st2' & Hbody & ->).
  apply matches_Lit in H1. destruct H1 as (E1 & _ & _).
  apply matches_Lit in H3. destruct H3 as (E3 & C3 & _).
  apply matches_reads in Hbody. destruct Hbody as (w & Ew & _).
  cbn [rest caps set_cap] in *.
  exists w. split.
  - unfold group. rewrite <- Hc, C3. cbn [lookup Nat.eqb].
    now rewrite (consumed_reads _ _ w Ew).
  - apply append_inv_tail with (c := post).
    rewrite E1, Ew, E3, Hr, !append_assoc. reflexivity.
Qed.

(** ** The bounds on repetition and on the substitution loop are never hit *)

(** A continuation is only ever called where no more is left to read than
    at the start. *)
Lemma star_loop_ext (g : greed) (r : regex) :
  (forall k1 k2 st,
     (forall st', length (rest st') <= length (rest st) -> k1 st' = k2 st') ->
     m r k1 st = m r k2 st) ->
  forall fuel k1 k2 st,
    (forall st', length (rest st') <= length (rest st) -> k1 st' = k2 st') ->
    star_loop g (m r) k1 fuel st = star_loop g (m r) k2 fuel st.
Proof.
  intro IHr. induction fuel as [|fuel IH]; intros k1 k2 st Hk; cbn [star_loop].
  - apply Hk. lia.
  - rewrite (Hk st) by lia.
    rewrite (IHr _ (fun st' => if length (rest st') <? length (rest st)
                               then star_loop g (m r) k2 fuel st' else None) st).
    + reflexivity.
    + intros st' Hl. destruct (length (rest st') <? length (rest st)); [|reflexivity].
      apply IH. intros st'' Hl'. apply Hk. lia.
Qed.

Lemma m_ext (r : regex) :
  forall k1 k2 st,
    (forall st', length (rest st') <= length (rest st) -> k1 st' = k2 st') ->
    m r k1 st = m r k2 st.
Proof.
  induction r as [ | cs | r1 IH1 r2 IH2 | r1 IH1 r2 IH2 | g r1 IH1 | n r1 IH1
                 | r1 IH1 | cs | ml ]; intros k1 k2 st Hk; cbn [m].
  - apply Hk. lia.
  - destruct (rest st) as [|c t] eqn:E; [reflexivity|].
    destruct (cset_mem cs c); [|reflexivity].
    apply Hk. cbn [advance rest]. simpl. lia.
  - apply IH1. intros st' Hl. apply IH2. intros st'' Hl'. apply Hk. lia.
  - rewrite (IH1 k1 k2 st Hk), (IH2 k1 k2 st Hk). reflexivity.
  - apply star_loop_ext; assumption.
  - apply IH1. intros st' Hl. apply Hk. cbn [set_cap rest]. assumption.
  - destruct (m r1 Some st); [|reflexivity]. apply Hk. cbn [with_caps rest]. lia.
  - destruct (prev st) as [c|]; [destruct (cset_mem cs c)|];
      try reflexivity; apply Hk; lia.
  - destruct (at_eol ml (rest st)); [|reflexivity]. apply Hk. lia.
Qed.

(** With nothing to go on to, nothing matches. *)
Lemma m_none (r : regex) : forall st, m r (fun _ => None) st = None.
Proof.
  induction r as [ | cs | r1 IH1 r2 IH2 | r1 IH1 r2 IH2 | g r1 IH1 | n r1 IH1
                 | r1 IH1 | cs | ml ]; intro st; cbn [m].
  - reflexivity.
  - destruct (rest st); [reflexivity|]. now destruct (cset_mem cs a).
  - rewrite (m_ext r1 _ (fun _ => None)); [apply IH1|]. intros st' _. apply IH2.
  - now rewrite IH1, IH2.
  - generalize (length (rest st)) as fuel. intro fuel. revert st.
    induction fuel as [|fuel IH]; intro st; cbn [star_loop]; [reflexivity|].
    rewrite (m_ext r1 _ (fun _ => None)).
    + rewrite IH1. now destruct g.
    + intros st' _. destruct (length (rest st') <? length (rest st)); [apply IH | reflexivity].
  - apply IH1.
  - now destruct (m r1 Some st).
  - destruct (prev st) as [c|]; [now destruct (cset_mem cs c) | reflexivity].
  - now destruct (at_eol ml (rest st)).
Qed.

(** More rounds than there are characters left change nothing. *)
Lemma star_loop_fuel (g : greed) (r : regex) (k : kont) :
  forall f1 f2 st,
    length (rest st) <= f1 -> length (rest st) <= f2 ->
    star_loop g (m r) k f1 st = star_loop g (m r) k f2 st.
Proof.
  assert (Hzero : forall f st, length (rest st) = 0 ->
                               star_loop g (m r) k f st = k st).
  { intros [|f] st Hl; cbn [star_loop]; [reflexivity|].
    rewrite (m_ext r _ (fun _ => None)).
    - rewrite m_none. destruct g; [reflexivity | now destruct (k st)].
    - intros st' _. rewrite Hl. reflexivity. }
  induction f1 as [|f1 IH]; intros f2 st H1 H2.
  - rewrite (Hzero 0), (Hzero f2) by lia. reflexivity.
  - destruct f2 as [|f2]; [rewrite (Hzero 0), (Hzero (S f1)) by lia; reflexivity|].
    cbn [star_loop].
    rewrite (m_ext r _ (fun st' => if length (rest st') <? length (rest st)
                                   then star_loop g (m r) k f2 st' else None) st).
    + reflexivity.
    + intros st' Hl. destruct (length (rest st') <? length (rest st)) eqn:E;
        [|reflexivity].
      apply Nat.ltb_lt in E. apply IH; lia.
Qed.


Lemma search_progress (r : regex) (must_advance : bool) (p : option ascii)
  (s : string) (f : found) :
  search r must_advance p s = Some f ->
  rounds_left (is_empty (whole (mo f))) (after f) < rounds_left must_advance s.
Proof.
  intro H. apply search_sound in H.
  destruct H as (st' & Es & _ & _ & _ & _ & Hadv).
  apply (f_equal length) in Es. rewrite !append_length in Es.
  unfold rounds_left.
  destruct (whole (mo f)) as [|c w] eqn:Ew; cbn [is_empty].
  - destruct must_advance; [|simpl in Es; lia].
    destruct (gap f) as [|d g] eqn:Eg; [now specialize (Hadv eq_refl eq_refl)|].
    simpl in Es. lia.
  - simpl in Es. destruct must_advance; lia.
Qed.

Lemma scan_loop_fuel (r : regex) :
  forall f1 f2 must_advance p s,
    rounds_left must_advance s <= f1 ->
    rounds_left must_advance s <= f2 ->
    scan_loop f1 r must_advance p s = scan_loop f2 r must_advance p s.
Proof.
  assert (Hzero : forall f ma p s, rounds_left ma s = 0 ->
                                   scan_loop f r ma p s = ([], s)).
  { intros [|f] ma p s Hz; cbn [scan_loop]; [reflexivity|].
    destruct (search r ma p s) as [x|] eqn:E; [|reflexivity].
    apply search_progress in E. lia. }
  induction f1 as [|f1 IH]; intros f2 ma p s H1 H2.
  - rewrite (Hzero 0), (Hzero f2) by lia. reflexivity.
  - destruct f2 as [|f2]; [rewrite (Hzero 0), (Hzero (S f1)) by lia; reflexivity|].
    cbn [scan_loop]. destruct (search r ma p s) as [x|] eqn:E; [|reflexivity].
    apply search_progress in E. now rewrite (IH f2) by lia.
Qed.

(** The matcher and the substitution loop do not depend on their bounds,
    once these are what the definitions give them. *)
Theorem bounds_suffice (g : greed) (r : regex) (k : kont) (st : mstate)
  (s : string) (fuel : nat) :
  (length (rest st) <= fuel ->
   star_loop g (m r) k fuel st = m (Star g r) k st)
  /\ (2 * length s + 1 <= fuel ->
      scan_loop fuel r false None s = Re.scan r s).
Proof.
  split; intro H.
  - cbn [m]. apply star_loop_fuel; lia.
  - unfold Re.scan. apply scan_loop_fuel; unfold rounds_left; lia.
Qed.

(** ** The pass that preserves complex patterns *)

(** A match of "\(\?:([^)]*?)\)\?" is the opener, group 1 and the closer with
    its question mark. *)
Lemma preserve_optional_shape (s : string) (x : mobj) :
  found_in re_preserve_optional s x ->
  "(?:" ++ group_str 1 x ++ ")?" = whole x.
Proof.
  intro H. apply group1_shape in H. destruct H as (w & Hg & ->).
  unfold group_str. now rewrite Hg.
Qed.

(** The three substitutions of the pass, one by one. *)
Lemma preserve_complex_pattern_unchanged (regex : string) :
  preserve_complex_pattern regex = regex
  /\ Re.sub re_preserve_optional
       (fun mt => "(?:" ++ group_str 1 mt ++ ")?") regex = regex
  /\ Re.sub re_preserve_tail (fun mt => whole mt) regex = regex
  /\ Re.sub re_preserve_repeated (fun mt => whole mt) regex = regex.
Proof.
  assert (H1 : Re.sub re_preserve_optional
                 (fun mt => "(?:" ++ group_str 1 mt ++ ")?") regex = regex)
    by (apply sub_identity; apply preserve_optional_shape).
  assert (H2 : Re.sub re_preserve_tail (fun mt => whole mt) regex = regex)
    by (now apply sub_identity).
  assert (H3 : Re.sub re_preserve_repeated (fun mt => whole mt) regex = regex)
    by (now apply sub_identity).
  repeat split; try assumption.
  unfold preserve_complex_pattern. now rewrite H1, H2, H3.
Qed.

(** C3.  The pass that preserves complex patterns returns its input
    unchanged, whatever the input: each of its three substitutions puts back
    exactly the span it matched.  In particular every optional
    non-capturing group of the input is byte for byte the same in the
    output. *)
Theorem preserve_complex_pattern_identity (regex : string) :
  preserve_complex_pattern regex = regex
  /\ (forall x, found_in re_preserve_optional regex x ->
                "(?:" ++ group_str 1 x ++ ")?" = whole x)
  /\ Re.sub re_preserve_optional
       (fun mt => "(?:" ++ group_str 1 mt ++ ")?") regex = regex
  /\ Re.sub re_preserve_tail (fun mt => whole mt) regex = regex
  /\ Re.sub re_preserve_repeated (fun mt => whole mt) regex = regex.
Proof.
  destruct (preserve_complex_pattern_unchanged regex) as (H0 & H1 & H2 & H3).
  repeat split; try assumption. apply preserve_optional_shape.
Qed.


(** The substitution of the non-capturing opener by itself changes nothing
    either, so that the pattern reaches [handle_atomic_groups] as
    [handle_named_group_references] left it. *)
Lemma noncapturing_identity (regex : string) :
  Re.sub re_noncapturing (fun _ => "(?:") regex = regex.
Proof.
  apply sub_identity. intros x (pre & post & st' & _ & Hm & Hr & _).
  apply matches_Lit in Hm. destruct Hm as (E & _). cbn [rest] in E.
  apply append_inv_tail with (c := post). now rewrite E, Hr.
Qed.

Lemma stage_preserved_references (py_regex : string) (py_flags : Z) :
  stage_preserved py_regex py_flags = stage_references py_regex py_flags.
Proof.
  unfold stage_preserved.
  destruct (preserve_complex_pattern_unchanged
              (Re.sub re_noncapturing (fun _ => "(?:")
                      (stage_references py_regex py_flags))) as [-> _].
  apply noncapturing_identity.
Qed.

(** ** The comment and white-space normalizer *)

Lemma has_comment_at (pre t : string) (p : option ascii) :
  has_comment p (pre ++ String "#" t) = false ->
  last_or p pre = Some backslash.
Proof.
  revert p. induction pre as [|c pre IH]; intros p H; simpl in H.
  - apply orb_false_elim in H. destruct H as [H _].
    destruct p as [b|]; [|discriminate]. simpl in *.
    apply negb_false_iff, Ascii.eqb_eq in H. now subst b.
  - apply orb_false_elim in H. destruct H as [_ H]. now apply IH in H.
Qed.

Lemma contains_at (sub pre t : string) :
  prefix sub t = true -> PyStr.contains sub (pre ++ t) = true.
Proof.
  intro H. induction pre as [|c pre IH]; cbn [append PyStr.contains].
  - destruct t; cbn [PyStr.contains]; [assumption | now rewrite H].
  - rewrite IH. apply orb_true_r.
Qed.

Lemma prefix_app (a b : string) : prefix a (a ++ b) = true.
Proof.
  induction a as [|c a IH]; simpl; [now destruct b|].
  destruct (ascii_dec c c); [assumption | congruence].
Qed.

(** *** White space enclosed in plain classes *)

(** After an enclosed white-space character the text goes on to the end
    of a character class. *)
Lemma blanks_enclosed_space (b e : bool) (c : ascii) (t : string) :
  blanks_enclosed b e (String c t) = true -> PyStr.isspace c = true ->
  closes_class t = true /\ blanks_enclosed b false t = true.
Proof.
  cbn [blanks_enclosed]. intros H Hc. rewrite Hc in H.
  apply andb_prop in H. destruct H as [H H2].
  apply andb_prop in H. destruct H as [_ H1]. now split.
Qed.

Lemma blanks_enclosed_tail (b e : bool) (c : ascii) (t : string) :
  blanks_enclosed b e (String c t) = true ->
  exists b' e', blanks_enclosed b' e' t = true.
Proof.
  cbn [blanks_enclosed]. intro H.
  destruct (PyStr.isspace c).
  - apply andb_prop in H. destruct H as [_ H]. eauto.
  - destruct e; [eauto|].
    destruct (Ascii.eqb c backslash); [eauto|].
    destruct (Ascii.eqb c "["); [eauto|]. destruct (Ascii.eqb c "]"); eauto.
Qed.

Lemma blanks_enclosed_suffix (pre u : string) :
  forall b e, blanks_enclosed b e (pre ++ u) = true ->
              exists b' e', blanks_enclosed b' e' u = true.
Proof.
  induction pre as [|c pre IH]; intros b e H; [eauto|].
  cbn [append] in H. apply blanks_enclosed_tail in H.
  destruct H as (b' & e' & H). eauto.
Qed.

Lemma lstrip_space_enclosed (s : string) (e : bool) :
  blanks_enclosed false e s = true -> PyStr.lstrip_space s = s.
Proof.
  destruct s as [|c t]; [reflexivity|]. cbn [blanks_enclosed PyStr.lstrip_space].
  destruct (PyStr.isspace c); [discriminate | reflexivity].
Qed.

Lemma rstrip_space_enclosed (s : string) :
  forall b e, blanks_enclosed b e s = true -> PyStr.rstrip_space s = s.
Proof.
  induction s as [|c t IH]; intros b e H; [reflexivity|].
  cbn [PyStr.rstrip_space].
  destruct (blanks_enclosed_tail b e c t H) as (b' & e' & Ht).
  rewrite (IH b' e' Ht).
  destruct t as [|d t]; [|reflexivity].
  destruct (PyStr.isspace c) eqn:Ec; [|reflexivity].
  apply blanks_enclosed_space in H; [|assumption]. destruct H as [H _]. discriminate.
Qed.

(** Reading a character other than a closing bracket stays before the
    closing bracket. *)
Lemma closes_class_step (c : ascii) (t : string) :
  closes_class (String c t) = true -> c <> "]"%char ->
  closes_class t = true /\ c <> "["%char /\ c <> backslash.
Proof.
  cbn [closes_class]. intros H Hc.
  destruct (Ascii.eqb_spec c "]"); [congruence|].
  destruct (Ascii.eqb_spec c "["); [discriminate|].
  destruct (Ascii.eqb_spec c backslash); [discriminate|]. auto.
Qed.

Lemma star_chars_closes_class (g : greed) (cs : cset) (st st' : mstate) :
  matches (Star g (Char cs)) st st' ->
  cset_mem cs "]" = false ->
  closes_class (rest st) = true -> closes_class (rest st') = true.
Proof.
  intros H Hcs. remember (Star g (Char cs)) as r eqn:Er.
  induction H as [ | | | | | g0 r0 st | g0 r0 st st1 st2 H1 _ H2 IH2 | | | | ];
    try discriminate; inversion Er; subst; [auto|].
  intro Hc. apply IH2; [reflexivity|].
  apply matches_Char_inv in H1. destruct H1 as (c & t & E & Hm & ->).
  cbn [advance rest]. rewrite E in Hc.
  apply closes_class_step in Hc; [tauto|].
  intros ->. congruence.
Qed.

(** Escaped pairs start with a backslash. *)
Lemma star_escapes_none (g : greed) (r : regex) (st st' : mstate) :
  matches (Star g (Seq (Lit "\") r)) st st' ->
  prefix "\" (rest st) = false -> st' = st.
Proof.
  intros H Hp. apply matches_Star_inv in H.
  destruct H as [H | (st1 & H1 & _)]; [assumption|].
  apply matches_Seq_inv in H1. destruct H1 as (st2 & H1 & _).
  apply (matches_Lit "\") in H1. destruct H1 as (E & _).
  rewrite E, prefix_app in Hp. discriminate.
Qed.

Lemma closes_class_head (u : string) :
  closes_class u = true -> prefix "\" u = false /\ prefix "[" u = false.
Proof.
  destruct u as [|c t]; [discriminate|]. cbn [closes_class]. unfold backslash.
  rewrite !prefix_cons, !prefix_nil, !andb_true_r. intro H.
  destruct (Ascii.eqb_spec c "]") as [->|]; [now split|].
  destruct (Ascii.eqb_spec c "["); [discriminate|].
  destruct (Ascii.eqb_spec c "\"); [discriminate|].
  split; apply Ascii.eqb_neq; congruence.
Qed.

(** Before the closing bracket of a class, the look-ahead of the layout
    pattern fails: white space inside a class is kept. *)
Lemma no_outside_class (st st' : mstate) :
  closes_class (rest st) = true -> ~ matches re_outside_class st st'.
Proof.
  intros Hc H. unfold re_outside_class, plain_char, no_bracket in H.
  apply matches_Seq_inv in H. destruct H as (st1 & Hgroups & H).
  assert (E1 : st1 = st).
  { apply matches_Star_inv in Hgroups.
    destruct Hgroups as [Hgroups | (sta & Ha & _)]; [assumption|]. exfalso.
    apply matches_Seq_inv in Ha. destruct Ha as (stb & Hplain & Ha).
    pose proof (star_chars_closes_class _ _ _ _ Hplain eq_refl Hc) as Hcb.
    apply matches_Seq_inv in Ha. destruct Ha as (stc & Hesc & Ha).
    apply closes_class_head in Hcb. destruct Hcb as [Hb Ho].
    apply star_escapes_none in Hesc; [|assumption]. subst stc.
    apply matches_Seq_inv in Ha. destruct Ha as (std & Ha & _).
    apply (matches_Lit "[") in Ha. destruct Ha as (E & _).
    rewrite E, prefix_app in Ho. discriminate. }
  subst st1.
  apply matches_Seq_inv in H. destruct H as (st2 & Hrest & Hend).
  pose proof (star_chars_closes_class _ _ _ _ Hrest eq_refl Hc) as Hcr.
  apply matches_Eol_inv in Hend. destruct Hend as [-> He].
  destruct (rest st2) as [|c t]; [discriminate|].
  cbn [at_eol] in He. apply andb_prop in He. destruct He as [He1 He2].
  apply Ascii.eqb_eq in He1. subst c.
  destruct t; [discriminate Hcr | discriminate He2].
Qed.

(** A run of enclosed white space ends inside a class. *)
Lemma star_space_closes_class (g : greed) (st st' : mstate) :
  matches (Star g (Char (Is CSpace))) st st' ->
  closes_class (rest st) = true
  /\ (exists b e, blanks_enclosed b e (rest st) = true) ->
  closes_class (rest st') = true.
Proof.
  intro H. remember (Star g (Char (Is CSpace))) as r eqn:Er.
  induction H as [ | | | | | g0 r0 st | g0 r0 st st1 st2 H1 _ H2 IH2 | | | | ];
    try discriminate; inversion Er; subst; [tauto|].
  intros [_ (b & e & Hl)]. apply IH2; [reflexivity|].
  apply matches_Char_inv in H1. destruct H1 as (c & t & E & Hm & ->).
  cbn [advance rest cset_mem cclass_mem] in *. rewrite E in Hl.
  apply blanks_enclosed_space in Hl; [|assumption]. destruct Hl as [Hc Hl]. eauto.
Qed.

(** No comment starts in a pattern without a comment introducer. *)
Lemma no_comment_match (s : string) (x : mobj) :
  has_comment None s = false -> ~ found_in re_comment s x.
Proof.
  intros Hs (pre & post & st' & Es & Hm & _).
  unfold re_comment in Hm.
  apply matches_Seq_inv in Hm. destruct Hm as (st1 & H1 & Hm).
  apply matches_Seq_inv in Hm. destruct Hm as (st2 & H2 & _).
  apply matches_NotBehind_inv in H1. destruct H1 as [-> Hp].
  apply (matches_Lit "#") in H2. destruct H2 as (E2 & _). cbn [rest prev] in *.
  rewrite E2 in Es. subst s. apply has_comment_at in Hs.
  specialize (Hp _ Hs). simpl in Hp. discriminate.
Qed.

(** No enclosed white space is taken for layout. *)
Lemma no_layout_match (s : string) (x : mobj) :
  blanks_enclosed false false s = true -> ~ found_in re_layout s x.
Proof.
  intros Hs (pre & post & st' & Es & Hm & _).
  unfold re_layout, Plus in Hm.
  apply matches_Seq_inv in Hm. destruct Hm as (st2 & Hm & Hahead).
  apply matches_Seq_inv in Hm. destruct Hm as (st1 & Hfirst & Hmore).
  apply matches_Char_inv in Hfirst. destruct Hfirst as (c & t & E & Hc & ->).
  cbn [rest cset_mem cclass_mem] in *.
  rewrite E in Es. subst s.
  apply blanks_enclosed_suffix in Hs. destruct Hs as (b & e & Hs).
  apply blanks_enclosed_space in Hs; [|assumption]. destruct Hs as [Hcl Hl].
  assert (Hc2 : closes_class (rest st2) = true)
    by (apply (star_space_closes_class _ _ _ Hmore); cbn [advance rest]; eauto).
  apply matches_Ahead_inv in Hahead. destruct Hahead as [st3 Hla].
  now apply no_outside_class in Hla.
Qed.

(** The inline marker is found only where it is written. *)
Lemma no_inline_verbose_match (s : string) (x : mobj) :
  PyStr.contains "(?x)" s = false -> ~ found_in re_inline_verbose s x.
Proof.
  intros Hs (pre & post & st' & Es & Hm & _).
  apply matches_Lit in Hm. destruct Hm as (E & _). cbn [rest] in E.
  rewrite E in Es. subst s. rewrite contains_at in Hs; [discriminate|].
  apply prefix_app.
Qed.

(** The narrower condition implies the wider one. *)
Lemma blanks_enclosed_layout_free (s : string) :
  forall b e, blanks_enclosed b e s = true -> layout_free b e s = true.
Proof.
  induction s as [|c t IH]; intros b e H; [reflexivity|].
  cbn [blanks_enclosed layout_free] in *.
  destruct (PyStr.isspace c).
  - apply andb_prop in H. destruct H as [H H2].
    apply andb_prop in H. destruct H as [H1 _].
    subst b. now rewrite (IH _ _ H2).
  - destruct e; [now apply IH|].
    destruct (Ascii.eqb c backslash); [now apply IH|].
    destruct (Ascii.eqb c "["); [now apply IH|].
    destruct (Ascii.eqb c "]"); now apply IH.
Qed.

Lemma plainly_dense_dense (regex : string) :
  plainly_dense regex = true -> dense regex = true.
Proof.
  unfold plainly_dense, dense. intro H.
  apply andb_prop in H. destruct H as [H Hx].
  apply andb_prop in H. destruct H as [Hs Hc].
  now rewrite (blanks_enclosed_layout_free _ _ _ Hs), Hc, Hx.
Qed.

(** A plainly dense pattern comes back unchanged: none of the three
    patterns of the normalizer matches in it and [strip] removes nothing. *)
Lemma handle_verbose_mode_plainly_dense (regex : string) :
  plainly_dense regex = true -> handle_verbose_mode regex = regex.
Proof.
  unfold plainly_dense. intro H.
  apply andb_prop in H. destruct H as [H Hx].
  apply andb_prop in H. destruct H as [Hs Hc].
  apply negb_true_iff in Hc, Hx.
  unfold handle_verbose_mode.
  rewrite (sub_no_match re_comment) by (intro x; now apply no_comment_match).
  rewrite (sub_no_match re_layout) by (intro x; now apply no_layout_match).
  rewrite (sub_no_match re_inline_verbose)
    by (intro x; now apply no_inline_verbose_match).
  unfold PyStr.strip_space.
  now rewrite (lstrip_space_enclosed _ _ Hs), (rstrip_space_enclosed _ _ _ Hs).
Qed.

(** C8.  A dense pattern is not always returned unchanged.  The pattern
    [[ []] is dense: its only white-space character stands inside a
    character class (the class of a blank and an opening bracket), and it
    has no comment and no inline marker.  Yet the normalizer deletes that
    blank and returns [[[]], a class that no longer matches a blank; through
    [py_to_js_regex] with the VERBOSE flag the literal is [/[[]/].  The same
    happens inside a longer pattern, [a[ [b]c].  The look-ahead of the
    white-space rule skips whole classes written without a bracket inside,
    so the bracket after the blank is taken for the start of a class and
    the blank for layout.  What does hold: every plainly dense pattern,
    where each white-space character is inside a class and followed up to
    the closing bracket by neither a bracket nor a backslash, is dense and
    is returned unchanged, for instance [\d+\s*\#(?:a|b)[x y]]. *)
Theorem handle_verbose_mode_class_blank :
  dense "[ []" = true
  /\ handle_verbose_mode "[ []" = "[[]"
  /\ handle_verbose_mode "[ []" <> "[ []"
  /\ convert_fresh "[ []" VERBOSE false = Some (Some "/[[]/", [], [])
  /\ dense "a[ [b]c" = true
  /\ handle_verbose_mode "a[ [b]c" = "a[[b]c"
  /\ (forall regex,
        plainly_dense regex = true ->
        dense regex = true /\ handle_verbose_mode regex = regex)
  /\ plainly_dense "\d+\s*\#(?:a|b)[x y]" = true.
Proof.
  split; [reflexivity|].
  split; [vm_compute; reflexivity|].
  split; [vm_compute; discriminate|].
  split; [vm_compute; reflexivity|].
  split; [reflexivity|].
  split; [vm_compute; reflexivity|].
  split; [|reflexivity].
  intros regex H. split.
  - now apply plainly_dense_dense.
  - now apply handle_verbose_mode_plainly_dense.
Qed.

(** ** The heap *)

Lemma update_app_l (base h : Store) (n : nat) (f : list string -> list string) :
  update (List.length base + n) f (base ++ h)%list = (base ++ update n f h)%list.
Proof. induction base as [|x base IH]; simpl; [reflexivity | now rewrite IH]. Qed.

Lemma deref_app_l (base h : Store) (l : loc) :
  deref (Loc (List.length base + addr l)) (base ++ h)%list = deref l h.
Proof.
  unfold deref. cbn [addr].
  induction base as [|x base IH]; simpl; [reflexivity | assumption].
Qed.

Lemma update_new (h : Store) (init : list string) (f : list string -> list string) :
  update (List.length h) f (h ++ [init])%list = (h ++ [f init])%list.
Proof. induction h as [|x h IH]; simpl; [reflexivity | now rewrite IH]. Qed.

Lemma deref_new (h : Store) (v : list string) :
  deref (Loc (List.length h)) (h ++ [v])%list = v.
Proof. unfold deref. cbn [addr]. induction h as [|x h IH]; simpl; auto. Qed.

(** *** Framing *)

Section Framing.

Context {A B : Type} `{Reloc A} `{Reloc B}.
Variable n : nat.

Lemma frames_ret (a : A) : frames n (ret a) (ret (reloc n a)).
Proof. intros base h Hn. reflexivity. Qed.

Lemma frames_bind (c c' : M A) (f f' : A -> M B) :
  frames n c c' ->
  (forall a, frames n (f a) (f' (reloc n a))) ->
  frames n (bind c f) (bind c' f').
Proof.
  intros Hc Hf base h Hn. unfold bind.
  rewrite (Hc base h Hn). destruct (c h) as [[a|e] h1]; simpl.
  - apply Hf, Hn.
  - reflexivity.
Qed.

Lemma frames_try (c c' : M A) (k k' : exn -> M A) :
  frames n c c' ->
  (forall e, frames n (k e) (k' e)) ->
  frames n (try_except c k) (try_except c' k').
Proof.
  intros Hc Hk base h Hn. unfold try_except.
  rewrite (Hc base h Hn). destruct (c h) as [[a|e] h1]; simpl.
  - reflexivity.
  - apply Hk, Hn.
Qed.

Lemma frames_if (b : bool) (c1 c1' c2 c2' : M A) :
  frames n c1 c1' -> frames n c2 c2' ->
  frames n (if b then c1 else c2) (if b then c1' else c2').
Proof. now destruct b. Qed.

End Framing.

Lemma frames_new_list (n : nat) (init : list string) :
  frames n (new_list init) (new_list init).
Proof.
  intros base h Hn. unfold new_list. simpl.
  rewrite length_app, Hn, <- app_assoc. reflexivity.
Qed.

Lemma frames_items (n : nat) (l : loc) :
  frames n (items l) (items (reloc n l)).
Proof.
  intros base h Hn. unfold items, reloc, Reloc_loc. simpl.
  subst n. now rewrite deref_app_l.
Qed.

Lemma frames_append (n : nat) (l : loc) (x : string) :
  frames n (list_append l x) (list_append (reloc n l) x).
Proof.
  intros base h Hn. unfold list_append, reloc, Reloc_loc. simpl.
  subst n. now rewrite update_app_l.
Qed.

Lemma frames_extend (n : nat) (l l2 : loc) :
  frames n (list_extend l l2) (list_extend (reloc n l) (reloc n l2)).
Proof.
  intros base h Hn. unfold list_extend, reloc, Reloc_loc. simpl.
  subst n. now rewrite update_app_l, deref_app_l.
Qed.

Lemma frames_when (n : nat) (b : bool) (c c' : M unit) :
  frames n c c' -> frames n (when b c) (when b c').
Proof. intro Hc. destruct b; cbn [when]; [assumption | exact (frames_ret n tt)]. Qed.

Lemma frames_sub_pieces (n : nat) (repl repl' : mobj -> M string)
  (segs : list (string * mobj)) :
  (forall x, frames n (repl x) (repl' x)) ->
  frames n (sub_pieces repl segs) (sub_pieces repl' segs).
Proof.
  intro Hr. induction segs as [|[g x] segs IH]; cbn [sub_pieces].
  - exact (frames_ret n "").
  - apply frames_bind; [apply Hr|]. intro y.
    apply frames_bind; [apply IH|]. intro out.
    exact (frames_ret n (g ++ y ++ out)).
Qed.

Lemma frames_sub_with (n : nat) (r : regex) (repl repl' : mobj -> M string)
  (s : string) :
  (forall x, frames n (repl x) (repl' x)) ->
  frames n (sub_with r repl s) (sub_with r repl' s).
Proof.
  intro Hr. unfold sub_with. destruct (Re.scan r s) as [segs tail].
  apply frames_bind; [now apply frames_sub_pieces|]. intro out.
  exact (frames_ret n (out ++ tail)).
Qed.

(** Stepping through a straight-line computation. *)
Ltac frame_step :=
  lazymatch goal with
  | |- frames _ (bind _ _) (bind _ _) =>
    apply frames_bind; [| intros ?; cbv beta]
  | |- frames ?n (ret ?a) (ret _) => exact (frames_ret n a)
  | |- frames _ (new_list _) _ => apply frames_new_list
  | |- frames _ (items _) _ => apply frames_items
  | |- frames _ (list_append _ _) _ => apply frames_append
  | |- frames _ (list_extend _ _) _ => apply frames_extend
  | |- frames _ (when _ _) _ => apply frames_when
  | |- frames _ (sub_with _ _ _) _ => apply frames_sub_with; intros ?
  | |- frames _ (try_except _ _) _ => apply frames_try; [| intros ?]
  | |- frames _ (if ?b then _ else _) _ => apply frames_if
  | |- frames _ (match ?a with (_, _) => _ end) _ => destruct a; cbn [reloc Reloc_prod fst snd]
  | |- frames _ (match ?e with RegexConversionError _ => _ end) _ => destruct e
  end.

Ltac frame := repeat frame_step.

Lemma frames_handle_named_group_references (n : nat) (regex : string) :
  frames n (handle_named_group_references regex)
           (handle_named_group_references regex).
Proof. unfold handle_named_group_references. frame. Qed.

Lemma frames_handle_atomic_groups (n : nat) (regex : string) :
  frames n (handle_atomic_groups regex) (handle_atomic_groups regex).
Proof. unfold handle_atomic_groups. frame. Qed.

Lemma frames_handle_unicode_properties (n : nat) (regex : string) :
  frames n (handle_unicode_properties regex) (handle_unicode_properties regex).
Proof. unfold handle_unicode_properties. frame. Qed.

Lemma frames_check_unsupported_features (n : nat) (regex : string) :
  frames n (check_unsupported_features regex) (check_unsupported_features regex).
Proof. unfold check_unsupported_features. frame. Qed.

Ltac frame_stage :=
  lazymatch goal with
  | |- frames _ (handle_named_group_references _) _ =>
    apply frames_handle_named_group_references
  | |- frames _ (handle_atomic_groups _) _ => apply frames_handle_atomic_groups
  | |- frames _ (handle_unicode_properties _) _ =>
    apply frames_handle_unicode_properties
  | |- frames _ (check_unsupported_features _) _ =>
    apply frames_check_unsupported_features
  | _ => frame_step
  end.

Lemma frames_try_block (n : nat) (warnings_list steps : loc)
  (original_regex : string) (py_flags : Z) (verbose : bool) :
  frames n (try_block warnings_list steps original_regex py_flags verbose)
           (try_block (reloc n warnings_list) (reloc n steps) original_regex
                    py_flags verbose).
Proof. unfold try_block. cbv zeta. repeat frame_stage. Qed.

(** A call made behind any number of older objects does what the same call
    does on an empty heap, and leaves the older objects alone. *)
Theorem frames_py_to_js_regex (n : nat) (py_regex : string) (py_flags : Z)
  (verbose : bool) :
  frames n (py_to_js_regex py_regex py_flags verbose)
           (py_to_js_regex py_regex py_flags verbose).
Proof.
  unfold py_to_js_regex. cbv zeta.
  repeat first [apply frames_try_block | frame_stage].
Qed.

(** *** Normal return *)

Lemma update_length (n : nat) (f : list string -> list string) (h : Store) :
  List.length (update n f h) = List.length h.
Proof.
  revert n. induction h as [|x h IH]; intros [|n]; simpl; auto.
Qed.

Section Returning.

Context {A B : Type}.

Lemma returns_ret (a : A) (Q : A -> Prop) : Q a -> returns (ret a) Q.
Proof. intros Ha h. exists a, h. auto. Qed.

Lemma returns_bind (c : M A) (f : A -> M B) (P : A -> Prop) (Q : B -> Prop) :
  returns c P -> (forall a, P a -> returns (f a) Q) -> returns (bind c f) Q.
Proof.
  intros Hc Hf h. destruct (Hc h) as (a & h1 & E1 & Pa & L1).
  destruct (Hf a Pa h1) as (b & h2 & E2 & Qb & L2).
  exists b, h2. unfold bind. rewrite E1, E2. repeat split; [assumption | lia].
Qed.


Lemma returns_if (b : bool) (c1 c2 : M A) (Q : A -> Prop) :
  returns c1 Q -> returns c2 Q -> returns (if b then c1 else c2) Q.
Proof. now destruct b. Qed.

End Returning.

Lemma returns_new_list (init : list string) : returns (new_list init) anything.
Proof.
  intro h. eexists _, _. split; [reflexivity|]. split; [exact I|].
  rewrite length_app. lia.
Qed.

Lemma returns_items (l : loc) : returns (items l) anything.
Proof. intro h. eexists _, _. split; [reflexivity|]. split; [exact I | lia]. Qed.

Lemma returns_append (l : loc) (x : string) : returns (list_append l x) anything.
Proof.
  intro h. eexists _, _. split; [reflexivity|]. split; [exact I|].
  rewrite update_length. lia.
Qed.

Lemma returns_extend (l l2 : loc) : returns (list_extend l l2) anything.
Proof.
  intro h. eexists _, _. split; [reflexivity|]. split; [exact I|].
  rewrite update_length. lia.
Qed.

Lemma returns_when (b : bool) (c : M unit) :
  returns c anything -> returns (when b c) anything.
Proof. intro Hc. destruct b; cbn [when]; [assumption | now apply returns_ret]. Qed.

Lemma returns_sub_pieces (repl : mobj -> M string) (segs : list (string * mobj)) :
  (forall x, returns (repl x) anything) ->
  returns (sub_pieces repl segs) anything.
Proof.
  intro Hr. induction segs as [|[g x] segs IH]; cbn [sub_pieces].
  - now apply returns_ret.
  - eapply returns_bind; [apply Hr|]. intros y _.
    eapply returns_bind; [apply IH|]. intros out _. now apply returns_ret.
Qed.

Lemma returns_sub_with (r : regex) (repl : mobj -> M string) (s : string) :
  (forall x, returns (repl x) anything) ->
  returns (sub_with r repl s) anything.
Proof.
  intro Hr. unfold sub_with. destruct (Re.scan r s) as [segs tail].
  eapply returns_bind; [now apply returns_sub_pieces|].
  intros out _. now apply returns_ret.
Qed.

Ltac returns_step :=
  lazymatch goal with
  | |- returns (bind _ _) _ =>
    eapply returns_bind with (P := anything); [| intros ? _; cbv beta]
  | |- returns (ret _) anything => apply returns_ret; exact I
  | |- returns (new_list _) _ => apply returns_new_list
  | |- returns (items _) _ => apply returns_items
  | |- returns (list_append _ _) _ => apply returns_append
  | |- returns (list_extend _ _) _ => apply returns_extend
  | |- returns (when _ _) _ => apply returns_when
  | |- returns (sub_with _ _ _) _ => apply returns_sub_with; intros ?
  | |- returns (if ?b then _ else _) _ => apply returns_if
  | |- returns (match ?a with (_, _) => _ end) _ => destruct a
  end.

Lemma returns_handle_named_group_references (regex : string) :
  returns (handle_named_group_references regex) anything.
Proof. unfold handle_named_group_references. repeat returns_step. Qed.

Lemma returns_handle_atomic_groups (regex : string) :
  returns (handle_atomic_groups regex) anything.
Proof. unfold handle_atomic_groups. repeat returns_step. Qed.

Lemma returns_handle_unicode_properties (regex : string) :
  returns (handle_unicode_properties regex) anything.
Proof. unfold handle_unicode_properties. repeat returns_step. Qed.

Lemma returns_check_unsupported_features (regex : string) :
  returns (check_unsupported_features regex) anything.
Proof. unfold check_unsupported_features. repeat returns_step. Qed.

Ltac returns_stage :=
  lazymatch goal with
  | |- returns (handle_named_group_references _) _ =>
    apply returns_handle_named_group_references
  | |- returns (handle_atomic_groups _) _ => apply returns_handle_atomic_groups
  | |- returns (handle_unicode_properties _) _ =>
    apply returns_handle_unicode_properties
  | |- returns (check_unsupported_features _) _ =>
    apply returns_check_unsupported_features
  | _ => returns_step
  end.

Lemma land_clear_verbose (z k : Z) :
  Z.land (Z.lnot VERBOSE) k = k ->
  Z.land (Z.land z (Z.lnot VERBOSE)) k = Z.land z k.
Proof. intro H. now rewrite <- Z.land_assoc, H. Qed.

(** Clearing the verbose bit does not change the letters. *)
Lemma handle_flags_clear_verbose (z : Z) :
  handle_flags (Z.land z (Z.lnot VERBOSE)) = handle_flags z.
Proof.
  unfold handle_flags.
  now rewrite !land_clear_verbose by reflexivity.
Qed.

(** The [try] block always runs to its [return]: it hands back a literal
    between slashes, followed by the letters of [handle_flags], and the two
    lists it was given. *)
Lemma returns_try_block (warnings_list steps : loc) (original_regex : string)
  (py_flags : Z) (verbose : bool) :
  returns (try_block warnings_list steps original_regex py_flags verbose)
    (fun r => exists body,
       r = (Some ("/" ++ body ++ "/" ++ handle_flags py_flags), warnings_list, steps)).
Proof.
  unfold try_block. cbv zeta.
  returns_step; [repeat returns_stage|].
  eapply returns_bind with (P := fun a => handle_flags (snd a) = handle_flags py_flags).
  { apply returns_if.
    - returns_step; [repeat returns_stage|].
      apply returns_ret. apply handle_flags_clear_verbose.
    - now apply returns_ret. }
  intros [py_regex flags] Hf. cbn [snd] in Hf.
  repeat returns_stage.
  apply returns_ret. rewrite Hf. eauto.
Qed.

(** The whole call returns its triple: the literal, and the two lists it
    made first. *)
Lemma py_to_js_regex_returns (py_regex : string) (py_flags : Z) (verbose : bool)
  (h : Store) :
  exists body h',
    py_to_js_regex py_regex py_flags verbose h
    = (Val (Some ("/" ++ body ++ "/" ++ handle_flags py_flags),
            Loc (List.length h), Loc (S (List.length h))), h')
    /\ List.length h + 2 <= List.length h'.
Proof.
  unfold py_to_js_regex, bind at 1 2 3. cbn [new_list].
  set (h2 := ((h ++ [[]]) ++ [[]])%list).
  assert (L2 : List.length h2 = List.length h + 2)
    by (unfold h2; rewrite !length_app; simpl; lia).
  replace (List.length (h ++ [[]])%list) with (S (List.length h))
    by (rewrite length_app; simpl; lia).
  destruct (returns_when verbose
              (list_append (Loc (S (List.length h)))
                           ("Original Python regex: " ++ py_regex))
              (returns_append _ _) h2) as (u & h3 & E3 & _ & L3).
  rewrite E3.
  destruct (returns_try_block (Loc (List.length h)) (Loc (S (List.length h)))
              py_regex py_flags verbose h3) as (r & h4 & E4 & (body & ->) & L4).
  unfold try_except. rewrite E4.
  exists body, h4. split; [reflexivity | lia].
Qed.

(** ** The whole conversion *)

Lemma reloc_literal (n : nat) (js : option string) : reloc n js = js.
Proof. now destruct js. Qed.

(** What a caller sees of a call does not depend on the heap the call
    starts from. *)
Lemma observe_any_heap (py_regex : string) (py_flags : Z) (verbose : bool)
  (h : Store) :
  observe (py_to_js_regex py_regex py_flags verbose h)
  = convert_fresh py_regex py_flags verbose
  /\ snd (py_to_js_regex py_regex py_flags verbose h)
     = (h ++ snd (py_to_js_regex py_regex py_flags verbose []))%list.
Proof.
  pose proof (frames_py_to_js_regex (List.length h) py_regex py_flags verbose
                h [] eq_refl) as F.
  rewrite app_nil_r in F. rewrite F. unfold convert_fresh.
  destruct (py_to_js_regex py_regex py_flags verbose []) as [[[[js w] s]|e] h'];
    cbn [fst snd reloc_res observe]; [|now split].
  split; [|reflexivity].
  change (reloc (List.length h) (js, w, s))
    with (reloc (List.length h) js, Loc (List.length h + addr w),
          Loc (List.length h + addr s)).
  now rewrite reloc_literal, !deref_app_l.
Qed.

Lemma deref_app_old (h extra : Store) (l : loc) :
  addr l < List.length h -> deref l (h ++ extra)%list = deref l h.
Proof. intro H. unfold deref. now apply app_nth1. Qed.

(** C7.  A call is a function of its arguments alone.  Whatever the heap
    holds when the call starts, the caller sees the triple of a call on an
    empty heap; the call leaves every older object as it was; and of two
    calls in a row with the same arguments the second returns the triple of
    the first, which the second call has not touched. *)
Theorem py_to_js_regex_stateless (py_regex : string) (py_flags : Z)
  (verbose : bool) (h : Store) :
  let first := py_to_js_regex py_regex py_flags verbose h in
  let second := py_to_js_regex py_regex py_flags verbose (snd first) in
  observe first = convert_fresh py_regex py_flags verbose
  /\ (exists fresh, snd first = (h ++ fresh)%list)
  /\ observe second = observe first
  /\ observe (fst first, snd second) = observe first.
Proof.
  intros first second.
  destruct (observe_any_heap py_regex py_flags verbose h) as [O1 S1].
  destruct (observe_any_heap py_regex py_flags verbose (snd first)) as [O2 S2].
  fold first in O1, S1. fold second in O2, S2.
  repeat split.
  - exact O1.
  - eexists. exact S1.
  - now rewrite O1, O2.
  - destruct (py_to_js_regex_returns py_regex py_flags verbose h)
      as (body & h1 & E1 & L1).
    fold first in E1. rewrite S2. rewrite E1. cbn [fst snd observe].
    rewrite !deref_app_old by (cbn [addr]; lia). reflexivity.
Qed.


(** ** Anchors, atomic groups and the diagnostics of the stages *)




(** What [handle_atomic_groups] does, step by step. *)
Lemma handle_atomic_groups_run (regex : string) (h : Store) :
  handle_atomic_groups regex h
  = (Val (PyStr.replace "(?>" "(?:" regex, Loc (List.length h)),
     (h ++ [if PyStr.contains "(?>" regex then [atomic_warning] else []])%list).
Proof.
  unfold handle_atomic_groups, bind, new_list.
  destruct (PyStr.contains "(?>" regex) eqn:E.
  - unfold list_append, ret. cbn [addr]. now rewrite update_new.
  - unfold ret. now rewrite replace_absent.
Qed.

(** C6.  The pattern with one atomic group converts to the literal with a
    non-capturing group, with exactly one diagnostic, which says so.  In
    every pattern [handle_atomic_groups] replaces each atomic opener by the
    non-capturing opener: none is left, and there is one more
    non-capturing opener for each. *)
Theorem atomic_groups_downgraded :
  convert_fresh "(?>atomic)" 0 false
  = Some (Some "/(?:atomic)/", [atomic_warning], [])
  /\ forall regex h,
       fst (handle_atomic_groups regex h)
       = Val (PyStr.replace "(?>" "(?:" regex, Loc (List.length h))
       /\ PyStr.contains "(?>" (PyStr.replace "(?>" "(?:" regex) = false
       /\ PyStr.occurrences "(?:" (PyStr.replace "(?>" "(?:" regex)
          = PyStr.occurrences "(?:" regex + PyStr.occurrences "(?>" regex.
Proof.
  split; [reflexivity|]. intros regex h. repeat split.
  - now rewrite handle_atomic_groups_run.
  - apply atomic_gone.
  - apply atomic_counted.
Qed.

Lemma update_update (n : nat) (f g : list string -> list string) (h : Store) :
  update n f (update n g h) = update n (fun xs => f (g xs)) h.
Proof.
  revert n. induction h as [|x h IH]; intros [|n]; simpl; try reflexivity.
  now rewrite IH.
Qed.

Lemma update_ext (n : nat) (f g : list string -> list string) (h : Store) :
  (forall xs, f xs = g xs) -> update n f h = update n g h.
Proof.
  intro E. revert n. induction h as [|x h IH]; intros [|n]; simpl; try reflexivity.
  - now rewrite E.
  - now rewrite IH.
Qed.

Lemma update_id (n : nat) (h : Store) : update n (fun xs => xs) h = h.
Proof.
  revert n. induction h as [|x h IH]; intros [|n]; simpl; try reflexivity.
  now rewrite IH.
Qed.

(** The closure of [handle_named_group_references], called on each match in
    turn, appends one warning for each. *)
Lemma sub_pieces_named_ref (l : loc) (segs : list (string * mobj)) :
  forall h,
    sub_pieces (fun mt =>
                  list_append l (named_ref_warning (group_str 1 mt)) ;;
                  ret ("\k<" ++ group_str 1 mt ++ ">")) segs h
    = (Val (join (map (fun '(g, x) => g ++ "\k<" ++ group_str 1 x ++ ">") segs)),
       update (addr l)
         (fun xs => (xs ++ map (fun seg => named_ref_warning (group_str 1 (snd seg)))
                               segs)%list) h).
Proof.
  induction segs as [|[g x] segs IH]; intro h; cbn [sub_pieces map join].
  - unfold ret. f_equal. symmetry.
    rewrite (update_ext _ _ (fun xs => xs)); [apply update_id|].
    intro xs. apply app_nil_r.
  - unfold bind at 1 2. unfold list_append at 1. unfold ret at 1.
    unfold bind at 1. rewrite IH. unfold ret. f_equal.
    + now rewrite !append_assoc.
    + rewrite update_update. apply update_ext. intro xs. cbn [snd].
      now rewrite <- app_assoc.
Qed.

Lemma handle_named_group_references_run (regex : string) (h : Store) :
  handle_named_group_references regex h
  = (Val (Re.sub re_named_ref (fun mt => "\k<" ++ group_str 1 mt ++ ">") regex,
          Loc (List.length h)),
     (h ++ [map (fun seg => named_ref_warning (group_str 1 (snd seg)))
                (fst (Re.scan re_named_ref regex))])%list).
Proof.
  unfold handle_named_group_references, bind at 1, new_list.
  unfold bind at 1, sub_with, Re.sub.
  destruct (Re.scan re_named_ref regex) as [segs tail]. cbn [fst].
  unfold bind at 1. rewrite sub_pieces_named_ref. unfold ret. cbn [addr].
  now rewrite update_new.
Qed.

(** [handle_atomic_groups] reports once when the pattern has an atomic
    opener, however many it has, and not at all otherwise;
    [handle_named_group_references] reports once for each named
    back-reference that its substitution finds, in the order of the
    matches. *)
Lemma diagnostics_of_the_stages (regex : string) (h : Store) :
  (let '(r, h') := handle_atomic_groups regex h in
   exists out l,
     r = Val (out, l)
     /\ deref l h' = (if PyStr.contains "(?>" regex then [atomic_warning] else [])
     /\ List.length (deref l h') <= 1)
  /\ (let '(r, h') := handle_named_group_references regex h in
      exists out l,
        r = Val (out, l)
        /\ deref l h'
           = map (fun seg => named_ref_warning (group_str 1 (snd seg)))
                 (fst (Re.scan re_named_ref regex))
        /\ List.length (deref l h')
           = List.length (fst (Re.scan re_named_ref regex))).
Proof.
  split.
  - rewrite handle_atomic_groups_run. eexists _, _. split; [reflexivity|].
    rewrite deref_new. split; [reflexivity|].
    destruct (PyStr.contains "(?>" regex); simpl; lia.
  - rewrite handle_named_group_references_run. eexists _, _.
    split; [reflexivity|]. rewrite deref_new. split; [reflexivity|].
    apply length_map.
Qed.


(** ** The driver in closed form *)

Lemma when_append_run (b : bool) (l : loc) (x : string) (h : Store) :
  when b (list_append l x) h
  = (Val tt, update (addr l) (fun xs => (xs ++ if b then [x] else [])%list) h).
Proof.
  destruct b; cbn [when]; [reflexivity|].
  unfold ret. f_equal. symmetry.
  rewrite (update_ext _ _ (fun xs => xs)); [apply update_id|].
  intro xs. apply app_nil_r.
Qed.

Lemma handle_unicode_properties_run (regex : string) (h : Store) :
  handle_unicode_properties regex h
  = (Val (regex, Loc (List.length h)),
     (h ++ [if PyStr.contains "\p" regex || PyStr.contains "\P" regex
            then [unicode_warning] else []])%list).
Proof.
  unfold handle_unicode_properties, bind at 1, new_list.
  unfold bind at 1. rewrite when_append_run. unfold ret. cbn [addr].
  rewrite update_new. now destruct (_ || _).
Qed.

Lemma check_unsupported_features_run (regex : string) (h : Store) :
  check_unsupported_features regex h
  = (Val (Loc (List.length h)),
     (h ++ [if PyStr.contains "(?(1)" regex then [conditional_warning] else []])%list).
Proof.
  unfold check_unsupported_features, bind at 1, new_list.
  unfold bind at 1. rewrite when_append_run. unfold ret. cbn [addr].
  rewrite update_new. now destruct (PyStr.contains _ _).
Qed.

Ltac run_step :=
  first
    [ rewrite when_append_run
    | rewrite handle_named_group_references_run
    | rewrite handle_atomic_groups_run
    | rewrite handle_unicode_properties_run
    | rewrite check_unsupported_features_run
    | progress cbn [List.length app list_extend list_append items ret deref
                    update addr nth new_list fst snd when]
    | progress unfold bind at 1 ].

Ltac run_branch :=
  match goal with
  | |- context [when ?b (fun h => _)] => destruct b eqn:?; unfold when at 1
  | |- context [(if ?b then (fun h : Store => _) else _) _] => destruct b eqn:?
  end.

(** Giving a name to each intermediate pattern keeps the terms small. *)
Ltac name_stage t := let x := fresh "s" in remember t as x.

Ltac abbrev :=
  match goal with
  | |- context [stage_stripped ?a] => name_stage (stage_stripped a)
  | |- context [handle_verbose_mode ?a] => is_var a; name_stage (handle_verbose_mode a)
  | |- context [conservative_conversion ?a] =>
    is_var a; name_stage (conservative_conversion a)
  | |- context [Re.sub ?r ?f ?a] => is_var a; name_stage (Re.sub r f a)
  | |- context [Re.scan ?r ?a] => is_var a; name_stage (Re.scan r a)
  | |- context [preserve_complex_pattern ?a] =>
    is_var a; name_stage (preserve_complex_pattern a)
  | |- context [PyStr.replace ?o ?n ?a] => is_var a; name_stage (PyStr.replace o n a)
  | |- context [balance_parentheses ?a] => is_var a; name_stage (balance_parentheses a)
  end.

Ltac run := repeat first [abbrev | run_step | run_branch].

(** On an empty heap the call returns [literal_text] and [diagnostics], and
    no trace unless one is asked for. *)
Lemma convert_fresh_closed_form (py_regex : string) (py_flags : Z) (verbose : bool) :
  exists steps,
    convert_fresh py_regex py_flags verbose
    = Some (Some (literal_text py_regex py_flags),
            diagnostics py_regex py_flags, steps)
    /\ (verbose = false -> steps = []).
Proof.
  unfold convert_fresh, py_to_js_regex, try_block. cbv zeta.
  fold (stage_stripped py_regex).
  unfold try_except.
  destruct (truthy (Z.land py_flags VERBOSE)) eqn:Ev; run;
    cbn [observe deref addr nth]; eexists; subst;
    unfold literal_text, diagnostics, named_refs_found, stage_newlines,
      stage_escapes, stage_bell, stage_atomic, stage_preserved,
      stage_references, stage_converted, stage_normalized;
    repeat match goal with
           | H : _ = true |- _ => rewrite H; clear H
           | H : _ = false |- _ => rewrite H; clear H
           end;
    rewrite ?handle_flags_clear_verbose, map_map, <- ?app_assoc;
    cbn [app]; (split; [reflexivity | intros ->; reflexivity]).
Qed.

(** The same on any heap. *)
Theorem py_to_js_regex_closed_form (py_regex : string) (py_flags : Z)
  (verbose : bool) (h : Store) :
  exists steps,
    observe (py_to_js_regex py_regex py_flags verbose h)
    = Some (Some (literal_text py_regex py_flags),
            diagnostics py_regex py_flags, steps)
    /\ (verbose = false -> steps = []).
Proof.
  destruct (observe_any_heap py_regex py_flags verbose h) as [-> _].
  apply convert_fresh_closed_form.
Qed.

Lemma count_msg_app (msg : string) (a b : list string) :
  count_msg msg (a ++ b) = count_msg msg a + count_msg msg b.
Proof. induction a as [|x a IH]; simpl; [reflexivity | rewrite IH; lia]. Qed.

Lemma count_named_ref_warnings_app (a b : list string) :
  count_named_ref_warnings (a ++ b)
  = count_named_ref_warnings a + count_named_ref_warnings b.
Proof. induction a as [|x a IH]; simpl; [reflexivity | rewrite IH; lia]. Qed.

(** The diagnostics of a conversion hold the atomic-group wording at most
    once, and a named back-reference wording for each match of its rule. *)
Lemma diagnostics_counted (py_regex : string) (py_flags : Z) :
  count_msg atomic_warning (diagnostics py_regex py_flags)
  = (if PyStr.contains "(?>" (stage_preserved py_regex py_flags) then 1 else 0)
  /\ count_named_ref_warnings (diagnostics py_regex py_flags)
     = List.length (named_refs_found py_regex py_flags).
Proof.
  unfold diagnostics.
  generalize (named_refs_found py_regex py_flags) as found.
  generalize (PyStr.contains "(?>" (stage_preserved py_regex py_flags)) as b1.
  generalize (PyStr.contains "\p" (stage_atomic py_regex py_flags)
              || PyStr.contains "\P" (stage_atomic py_regex py_flags)) as b2.
  generalize (PyStr.contains "(?<=" (stage_atomic py_regex py_flags)
              || PyStr.contains "(?<!" (stage_atomic py_regex py_flags)) as b3.
  generalize (PyStr.contains "\N" (stage_bell py_regex py_flags)) as b4.
  generalize (PyStr.contains "(?(1)" (stage_newlines py_regex py_flags)) as b5.
  intros b5 b4 b3 b2 b1 found.
  rewrite !count_msg_app, !count_named_ref_warnings_app.
  assert (E1 : count_msg atomic_warning
                 (map (fun mt => named_ref_warning (group_str 1 mt)) found) = 0)
    by (induction found as [|x l IH]; [reflexivity | exact IH]).
  assert (E2 : count_named_ref_warnings
                 (map (fun mt => named_ref_warning (group_str 1 mt)) found)
               = List.length found)
    by (induction found as [|x l IH]; [reflexivity | simpl; now rewrite IH]).
  rewrite E1, E2. destruct b1, b2, b3, b4, b5; split; simpl; lia.
Qed.

(** ** The named back-reference pattern finds what is written *)

Lemma mstate_eta (st : mstate) :
  {| prev := prev st; rest := rest st; caps := caps st |} = st.
Proof. now destruct st. Qed.

(** Matching a literal is a prefix test. *)
Lemma m_Lit (a : string) (k : kont) (st : mstate) :
  m (Lit a) k st
  = if prefix a (rest st)
    then k {| prev := last_or (prev st) a;
              rest := PyStr.drop (length a) (rest st);
              caps := caps st |}
    else None.
Proof.
  revert st. induction a as [|c a IH]; intro st; cbn [Lit m].
  - rewrite prefix_nil. cbn. now rewrite mstate_eta.
  - destruct (rest st) as [|d t] eqn:E; [reflexivity|].
    rewrite prefix_cons. cbn [cset_mem cclass_mem].
    rewrite (Ascii.eqb_sym d c).
    destruct (Ascii.eqb_spec c d) as [->|ne]; [|reflexivity].
    cbn [andb]. rewrite IH. reflexivity.
Qed.

Lemma word_run_app (s : string) : s = fst (word_run s) ++ snd (word_run s).
Proof.
  induction s as [|c t IH]; [reflexivity|]. cbn [word_run].
  destruct (isword c); [|reflexivity].
  destruct (word_run t) as [w r]. cbn [fst snd append] in *. now rewrite <- IH.
Qed.

Lemma word_run_words (s : string) (c : ascii) :
  PyStr.mem c (fst (word_run s)) = true -> isword c = true.
Proof.
  induction s as [|d t IH]; [discriminate|]. cbn [word_run].
  destruct (isword d) eqn:E; [|discriminate].
  destruct (word_run t) as [w r]. cbn [fst PyStr.mem] in *.
  intro H. apply orb_prop in H. destruct H as [H|H]; [|now apply IH].
  apply Ascii.eqb_eq in H. now subst.
Qed.


(** A greedy run of word characters followed by something that cannot
    start with a word character reads the whole run. *)
Lemma star_words (k : kont) :
  (forall st c t, rest st = String c t -> isword c = true -> k st = None) ->
  forall fuel st,
    length (rest st) <= fuel ->
    star_loop Greedy (m (Char (Is CWord))) k fuel st = k (after_words st).
Proof.
  intros Hk. induction fuel as [|fuel IH]; intros st Hf.
  - destruct (rest st) as [|c t] eqn:E; [|simpl in Hf; lia].
    cbn [star_loop]. unfold after_words. rewrite E. cbn. now rewrite <- E, mstate_eta.
  - cbn [star_loop m]. destruct (rest st) as [|c t] eqn:E.
    + unfold after_words. rewrite E. cbn. now rewrite <- E, mstate_eta.
    + cbn [cset_mem cclass_mem]. destruct (isword c) eqn:Ew.
      * cbn [advance rest]. replace (length t <? length (String c t)) with true
          by (symmetry; apply Nat.ltb_lt; simpl; lia).
        rewrite IH by (cbn [advance rest]; simpl in Hf; lia).
        assert (Ea : after_words (advance c t st) = after_words st).
        { unfold after_words. cbn [advance rest prev caps]. rewrite E.
          cbn [word_run]. rewrite Ew. destruct (word_run t) as [w r]. reflexivity. }
        rewrite Ea. rewrite (Hk st c t E Ew). now destruct (k (after_words st)).
      * unfold after_words. rewrite E. cbn [word_run]. rewrite Ew. cbn.
        now rewrite <- E, mstate_eta.
Qed.

(** The equations of the matcher that are used below. *)
Lemma m_Seq (r1 r2 : regex) (k : kont) (st : mstate) :
  m (Seq r1 r2) k st = m r1 (m r2 k) st.
Proof. reflexivity. Qed.

Lemma m_Group (n : nat) (r : regex) (k : kont) (st : mstate) :
  m (Group n r) k st = m r (fun st' => k (set_cap n (consumed st st') st')) st.
Proof. reflexivity. Qed.

Lemma m_Char (cs : cset) (k : kont) (st : mstate) :
  m (Char cs) k st
  = match rest st with
    | EmptyString => None
    | String c t => if cset_mem cs c then k (advance c t st) else None
    end.
Proof. reflexivity. Qed.

Lemma m_Star (g : greed) (r : regex) (k : kont) (st : mstate) :
  m (Star g r) k st = star_loop g (m r) k (length (rest st)) st.
Proof. reflexivity. Qed.

(** One attempt of the named back-reference pattern succeeds exactly where
    a named back-reference is written, and reads exactly it. *)
Lemma match_here_named_ref (must_advance : bool) (p : option ascii) (s : string) :
  match_here re_named_ref must_advance p s
  = match named_ref_at s with
    | Some (w, t) => Some {| prev := Some ")"%char; rest := t; caps := [(1, w)] |}
    | None => None
    end.
Proof.
  unfold match_here, re_named_ref, named_ref_at.
  rewrite m_Seq, m_Lit. cbn [rest prev caps length].
  destruct (prefix "(?P=" s) eqn:Ep; [|reflexivity].
  apply prefix_inv in Ep. cbn [length] in Ep.
  set (u := PyStr.drop 4 s) in *.
  unfold word1, Plus. rewrite m_Seq, m_Group, m_Seq, m_Char. cbn [rest].
  destruct u as [|c t] eqn:Eu; [reflexivity|].
  cbn [cset_mem cclass_mem word_run]. destruct (isword c) eqn:Ew; [|reflexivity].
  rewrite m_Star, star_words.
  - unfold after_words. cbn [advance rest prev caps].
    pose proof (word_run_app t) as Et.
    destruct (word_run t) as [w r]. cbn [fst snd] in *.
    rewrite m_Lit. cbn [set_cap rest prev caps].
    destruct r as [|d t2]; [reflexivity|].
    rewrite prefix_cons, prefix_nil, andb_true_r, (Ascii.eqb_sym ")" d).
    destruct (Ascii.eqb_spec d ")") as [->|ne]; [|reflexivity].
    cbn [length PyStr.drop last_or].
    assert (Hlen : length t2 <> length s).
    { rewrite Ep, Et. cbn [append length]. rewrite append_length. simpl. lia. }
    apply Nat.eqb_neq in Hlen. rewrite Hlen, andb_false_r.
    unfold consumed. cbn [rest]. rewrite Et.
    change (String c (w ++ String ")" t2)) with (String c w ++ String ")" t2).
    now rewrite take_app_length.
  - intros st c' t' E' Ew'. rewrite m_Lit. cbn [set_cap rest]. rewrite E'.
    rewrite prefix_cons.
    destruct (Ascii.eqb_spec ")" c') as [<-|ne]; [discriminate | reflexivity].
  - cbn [advance rest]. lia.
Qed.

Lemma named_ref_at_shape (s w t : string) :
  named_ref_at s = Some (w, t) ->
  s = "(?P=" ++ w ++ ")" ++ t
  /\ (forall c, PyStr.mem c w = true -> isword c = true).
Proof.
  unfold named_ref_at. destruct (prefix "(?P=" s) eqn:Ep; [|discriminate].
  apply prefix_inv in Ep. cbn [length] in Ep.
  pose proof (word_run_app (PyStr.drop 4 s)) as Ea.
  pose proof (word_run_words (PyStr.drop 4 s)) as Hw.
  destruct (word_run (PyStr.drop 4 s)) as [[|c w'] [|d t']]; try discriminate.
  destruct (Ascii.eqb_spec d ")") as [->|]; [|discriminate].
  intro H. inversion H; subst w t. cbn [fst snd] in *. split.
  - rewrite Ep at 1. now rewrite Ea.
  - exact Hw.
Qed.

(** No named back-reference starts at a character other than an opening
    parenthesis. *)
Lemma named_ref_at_opener (c : ascii) (t : string) :
  c <> "("%char -> named_ref_at (String c t) = None.
Proof.
  intro H. unfold named_ref_at. rewrite prefix_cons.
  destruct (Ascii.eqb_spec "(" c); [congruence | reflexivity].
Qed.

Lemma named_refs_in_skip (u t : string) :
  (forall c, PyStr.mem c u = true -> c <> "("%char) ->
  named_refs_in (u ++ t) = named_refs_in t.
Proof.
  induction u as [|c u IH]; intro H; [reflexivity|].
  cbn [append named_refs_in]. rewrite named_ref_at_opener.
  - apply IH. intros d Hd. apply H. cbn [PyStr.mem]. rewrite Hd. apply orb_true_r.
  - apply H. cbn [PyStr.mem]. now rewrite Ascii.eqb_refl.
Qed.

(** The names after the first named back-reference of a text. *)
Lemma named_refs_in_first (s w t : string) :
  named_ref_at s = Some (w, t) -> named_refs_in s = w :: named_refs_in t.
Proof.
  intro H. pose proof (named_ref_at_shape s w t H) as [Es Hw].
  destruct s as [|c s']; [discriminate|].
  cbn [named_refs_in]. rewrite H. f_equal.
  cbn [append] in Es. inversion Es as [[Ec Es']]. clear Es' Es H.
  replace (String "?" (String "P" (String "=" (w ++ String ")" t))))
    with (("?P=" ++ w ++ ")") ++ t) by (cbn [append]; now rewrite append_assoc).
  apply named_refs_in_skip.
  intros d Hd Heq. subst d. cbn [append PyStr.mem] in Hd.
  rewrite !(Ascii.eqb_sym "(") in Hd. cbn [orb] in Hd.
  change (Ascii.eqb "?" "(") with false in Hd.
  change (Ascii.eqb "P" "(") with false in Hd.
  change (Ascii.eqb "=" "(") with false in Hd. cbn [orb] in Hd.
  induction w as [|x w IHw]; [discriminate|].
  cbn [append PyStr.mem] in Hd. apply orb_prop in Hd. destruct Hd as [Hd|Hd].
  - apply Ascii.eqb_eq in Hd. subst x.
    specialize (Hw "("%char). cbn [PyStr.mem] in Hw. rewrite Ascii.eqb_refl in Hw.
    specialize (Hw eq_refl). discriminate.
  - apply IHw; [|assumption].
    intros c0 Hc0. apply Hw. cbn [PyStr.mem]. rewrite Hc0. apply orb_true_r.
Qed.

(** A search stops at the first named back-reference that is written. *)
Lemma search_named_ref (s : string) :
  forall must_advance p,
    match search re_named_ref must_advance p s with
    | None => named_refs_in s = []
    | Some f =>
      named_refs_in s = group_str 1 (mo f) :: named_refs_in (after f)
      /\ length (after f) < length s
    end.
Proof.
  induction s as [|c t IH]; intros ma p; cbn [search];
    rewrite match_here_named_ref.
  - reflexivity.
  - destruct (named_ref_at (String c t)) as [[w u]|] eqn:E.
    + cbn [mo after rest caps]. unfold group_str, group. cbn [groups lookup Nat.eqb].
      split; [now apply named_refs_in_first|].
      apply named_ref_at_shape in E. destruct E as [E _].
      rewrite E, !append_length. simpl. lia.
    + specialize (IH false (Some c)).
      destruct (search re_named_ref false (Some c) t) as [f|].
      * cbn [mo after]. destruct IH as [IH L]. cbn [named_refs_in]. rewrite E.
        split; [assumption | simpl; lia].
      * cbn [named_refs_in]. now rewrite E.
Qed.

Lemma scan_loop_named_ref (fuel : nat) :
  forall must_advance p s,
    length s < fuel ->
    map (fun seg => group_str 1 (snd seg))
        (fst (scan_loop fuel re_named_ref must_advance p s))
    = named_refs_in s.
Proof.
  induction fuel as [|fuel IH]; intros ma p s Hf; [lia|].
  cbn [scan_loop]. pose proof (search_named_ref s ma p) as Hs.
  destruct (search re_named_ref ma p s) as [f|].
  - destruct Hs as [Hs L].
    specialize (IH (is_empty (whole (mo f))) (after_prev f) (after f)).
    destruct (scan_loop fuel re_named_ref _ (after_prev f) (after f)) as [segs tail].
    cbn [fst map snd] in *. rewrite IH by lia. now symmetry.
  - now symmetry.
Qed.

(** The matches that the named back-reference rule finds are the named
    back-references written in the text, one for one and in order. *)
Theorem scan_named_ref (s : string) :
  map (fun seg => group_str 1 (snd seg)) (fst (Re.scan re_named_ref s))
  = named_refs_in s.
Proof. unfold Re.scan. apply scan_loop_named_ref. lia. Qed.

(** ** One diagnostic for each construct, or one for each occurrence

    The diagnostics of a conversion begin with the named back-reference
    warnings, one for each named back-reference written in the pattern as
    it reaches that rule. *)
Lemma diagnostics_named_refs (py_regex : string) (py_flags : Z) :
  exists others,
    diagnostics py_regex py_flags
    = (map named_ref_warning (named_refs_in (stage_converted py_regex py_flags))
       ++ others)%list
    /\ count_named_ref_warnings others = 0.
Proof.
  unfold diagnostics, named_refs_found. eexists. split.
  - rewrite map_map, <- scan_named_ref, map_map. reflexivity.
  - repeat match goal with
           | |- context [if ?b then _ else _] => generalize b; intros []
           end; reflexivity.
Qed.

(** C4, as the code has it.  Whatever the pattern, the flags and the heap,
    the warnings list of a conversion holds the atomic-group diagnostic
    once when the pattern that reaches [handle_atomic_groups] has an atomic
    opener, however many it has, and not at all otherwise; and it holds one
    named back-reference diagnostic for each named back-reference written
    in the pattern that reaches [handle_named_group_references]. *)
Theorem diagnostics_per_construct (py_regex : string) (py_flags : Z)
  (verbose : bool) (h : Store) :
  exists steps,
    observe (py_to_js_regex py_regex py_flags verbose h)
    = Some (Some (literal_text py_regex py_flags),
            diagnostics py_regex py_flags, steps)
    /\ count_msg atomic_warning (diagnostics py_regex py_flags)
       = (if PyStr.contains "(?>" (stage_preserved py_regex py_flags)
          then 1 else 0)
    /\ count_msg atomic_warning (diagnostics py_regex py_flags) <= 1
    /\ count_named_ref_warnings (diagnostics py_regex py_flags)
       = List.length (named_refs_in (stage_converted py_regex py_flags)).
Proof.
  destruct (py_to_js_regex_closed_form py_regex py_flags verbose h)
    as (steps & E & _).
  destruct (diagnostics_counted py_regex py_flags) as [Ca Cn].
  exists steps. repeat split; try assumption.
  - rewrite Ca. destruct (PyStr.contains _ _); lia.
  - rewrite Cn. unfold named_refs_found.
    rewrite <- (scan_named_ref (stage_converted py_regex py_flags)).
    now rewrite !length_map.
Qed.

(** C4, refuted as stated.  The pattern with two atomic groups gets one
    atomic-group diagnostic, not two. *)
Lemma atomic_diagnostic_only_once :
  PyStr.occurrences "(?>" "(?>a)(?>b)" = 2
  /\ option_map (fun o => count_msg atomic_warning (warnings_of o))
                (convert_fresh "(?>a)(?>b)" 0 false) = Some 1.
Proof. split; reflexivity. Qed.

(** C10.  Every call returns through the normal path.  The [try] block
    never raises, so the handler is never entered; the first component of
    the triple is a string, the balanced body between two slashes followed
    by the flag letters, each of them a letter of the table. *)
Theorem py_to_js_regex_succeeds (py_regex : string) (py_flags : Z)
  (verbose : bool) (h : Store) :
  (forall warnings_list steps h0,
     exists r h', try_block warnings_list steps py_regex py_flags verbose h0
                  = (Val r, h'))
  /\ (exists steps,
        observe (py_to_js_regex py_regex py_flags verbose h)
        = Some (Some (literal_text py_regex py_flags),
                diagnostics py_regex py_flags, steps))
  /\ literal_text py_regex py_flags
     = "/" ++ balance_parentheses (stage_newlines py_regex py_flags) ++ "/"
       ++ handle_flags py_flags
  /\ (forall c, PyStr.mem c (handle_flags py_flags) = true ->
                PyStr.mem c flag_table = true).
Proof.
  repeat split.
  - intros w s h0.
    destruct (returns_try_block w s py_regex py_flags verbose h0)
      as (r & h' & E & _ & _).
    eauto.
  - destruct (py_to_js_regex_closed_form py_regex py_flags verbose h)
      as (steps & E & _).
    eauto.
  - unfold handle_flags, flag_table.
    destruct (truthy (Z.land py_flags IGNORECASE)), (truthy (Z.land py_flags MULTILINE)),
             (truthy (Z.land py_flags DOTALL)), (truthy (Z.land py_flags UNICODE));
      intro c; simpl;
      repeat match goal with
             | |- context [Ascii.eqb ?a ?k] =>
               is_var a; destruct (Ascii.eqb_spec a k) as [->|]
             end; simpl; congruence.
Qed.

(** C1.  On the pattern made of an opener and a lone backslash the closer
    that the balancer appends lands behind the backslash: the output has
    one non-escaped opener and no non-escaped closer, and so has the body of
    the literal that the conversion returns for this pattern. *)
Theorem balance_parentheses_trailing_backslash :
  balance_parentheses "(\" = "(\)"
  /\ count_unescaped "(" (balance_parentheses "(\") = 1
  /\ count_unescaped ")" (balance_parentheses "(\") = 0
  /\ convert_fresh "(\" 0 false = Some (Some "/(\)/", [], []).
Proof. repeat split. Qed.

(** ** The model against the text of the source *)

(** Each syntax tree, written back, is the pattern of the source character
    for character. *)
Lemma patterns_as_written :
  show re_named_group = "\(\?P<(\w+)>"
  /\ show re_optional_group = "\(\?:[^)]*?\)\?"
  /\ show re_comment = "(?<!\\)#.*$"
  /\ show re_layout
     = "\s+(?=(?:[^[\]()\\]*(?:\\.[^[\]()\\]*" ++ ")*\[[^[\]]*\]" ++ ")*[^[\]]*$)"
  /\ show re_inline_verbose = "\(\?x\)"
  /\ show re_named_ref = "\(\?P=(\w+)\)"
  /\ show re_noncapturing = "\(\?:"
  /\ show re_preserve_optional = "\(\?:([^)]*?)\)\?"
  /\ show re_preserve_tail = "([\w\s\S]*?)(\\\w|\[.*?\]|\(.*?\))?\??$"
  /\ show re_preserve_repeated = "(\(\?:.*?\)\?\\n\?)\+"
  /\ show re_newline = "\n".
Proof. repeat split. Qed.

(** The cases of the self-test table of the source on which the table and
    the conversion agree: pattern, flag letters, expected literal and
    expected diagnostics. *)
Lemma self_test_cases :
  self_test "hello" "" = Some ("/hello/", [])
  /\ self_test "hello world" "" = Some ("/hello world/", [])
  /\ self_test "[a-z]" "" = Some ("/[a-z]/", [])
  /\ self_test "[^a-z]" "" = Some ("/[^a-z]/", [])
  /\ self_test "[a-zA-Z0-9_]" "" = Some ("/[a-zA-Z0-9_]/", [])
  /\ self_test "a*" "" = Some ("/a*/", [])
  /\ self_test "a+" "" = Some ("/a+/", [])
  /\ self_test "a?" "" = Some ("/a?/", [])
  /\ self_test "a{3}" "" = Some ("/a{3}/", [])
  /\ self_test "a{3,}" "" = Some ("/a{3,}/", [])
  /\ self_test "a{3,5}" "" = Some ("/a{3,5}/", [])
  /\ self_test "^start" "" = Some ("/^start/", [])
  /\ self_test "end$" "" = Some ("/end$/", [])
  /\ self_test "\bword\b" "" = Some ("/\bword\b/", [])
  /\ self_test "\Astart" "" = Some ("/^start/", [])
  /\ self_test "end\Z" "" = Some ("/end$/", [])
  /\ self_test "(group)" "" = Some ("/(group)/", [])
  /\ self_test "(?:group)" "" = Some ("/(?:group)/", [])
  /\ self_test "(group)\1" "" = Some ("/(group)\1/", [])
  /\ self_test "(?P<name>group)" "" = Some ("/(?<name>group)/", [])
  /\ self_test "(?P=name)" "" = Some ("/\k<name>/", [named_ref_warning "name"])
  /\ self_test "(?=positive)" "" = Some ("/(?=positive)/", [])
  /\ self_test "(?!negative)" "" = Some ("/(?!negative)/", [])
  /\ self_test "(?<=positive)" "" = Some ("/(?<=positive)/", [lookbehind_warning])
  /\ self_test "(?<!negative)" "" = Some ("/(?<!negative)/", [lookbehind_warning])
  /\ self_test "\d\D\w\W\s\S" "" = Some ("/\d\D\w\W\s\S/", [])
  /\ self_test "case" "i" = Some ("/case/i", [])
  /\ self_test "^multi$" "m" = Some ("/^multi$/m", [])
  /\ self_test "." "s" = Some ("/./s", [])
  /\ self_test
       ("(?x)" ++ String newline "        \d+  # Match one or more digits"
        ++ String newline "        \s*  # Optional whitespace"
        ++ String newline "        \w+  # Match one or more word characters"
        ++ String newline "        ") "x"
     = Some ("/\d+\s*\w+/", [])
  /\ self_test "\p{Greek}" "u" = Some ("/\p{Greek}/u", [unicode_warning])
  /\ self_test "\P{ASCII}" "u" = Some ("/\P{ASCII}/u", [unicode_warning])
  /\ self_test "(?>atomic)" "" = Some ("/(?:atomic)/", [atomic_warning])
  /\ self_test "(?(1)then|else)" ""
     = Some ("/(?(1)then|else)/", [conditional_warning])
  /\ self_test "" "" = Some ("//", [])
  /\ self_test "[]]" "" = Some ("/[]]/", [])
  /\ self_test "[^]]" "" = Some ("/[^]]/", [])
  /\ self_test "[\]]" "" = Some ("/[\]]/", [])
  /\ self_test "\a\N" "" = Some ("/\x07[^\n]/", [any_char_warning]).
Proof. repeat split; vm_compute; reflexivity. Qed.

(** The wrapping substitution of [conservative_conversion], which is not
    part of the preserving pass, does change an optional non-capturing
    group. *)
Lemma conservative_conversion_wraps :
  conservative_conversion "a(?:b)?c" = "a(?:(?:b)?)?c".
Proof. reflexivity. Qed.

(** * Further properties *)

(** ** The flag codec, the other way round *)

(** A flag bit of [re] is a power of two: masking with it leaves the bit or
    nothing. *)
Lemma land_flag_bit (f : Z) (k : Z) :
  (0 <= k)%Z ->
  Z.land f (2 ^ k) = if truthy (Z.land f (2 ^ k)) then (2 ^ k)%Z else 0%Z.
Proof.
  intro Hk. unfold truthy.
  assert (E : Z.land f (2 ^ k) = if Z.testbit f k then (2 ^ k)%Z else 0%Z).
  { apply Z.bits_inj'. intros n Hn. rewrite Z.land_spec, Z.pow2_bits_eqb by assumption.
    destruct (Z.eqb_spec k n) as [->|ne].
    - rewrite andb_true_r. destruct (Z.testbit f n) eqn:E.
      + now rewrite Z.pow2_bits_true.
      + now rewrite Z.bits_0.
    - rewrite andb_false_r. destruct (Z.testbit f k).
      + rewrite Z.pow2_bits_false; [reflexivity | congruence].
      + now rewrite Z.bits_0. }
  rewrite E. destruct (Z.testbit f k).
  - assert (0 < 2 ^ k)%Z by (apply Z.pow_pos_nonneg; lia).
    destruct (Z.eqb_spec (2 ^ k) 0); [lia | reflexivity].
  - reflexivity.
Qed.

Lemma land_js_flag_bits (f : Z) :
  Z.land f js_flag_bits
  = Z.lor (Z.land f IGNORECASE)
      (Z.lor (Z.land f MULTILINE) (Z.lor (Z.land f DOTALL) (Z.land f UNICODE))).
Proof. unfold js_flag_bits. now rewrite !Z.land_lor_distr_r. Qed.

(** X1.  Encoding a flag set and decoding the letters gives back the flag
    set masked to the four bits that have a letter (IGNORECASE, MULTILINE,
    DOTALL, UNICODE): every other bit of the argument, VERBOSE included, is
    ignored by [handle_flags], for any integer.  Encoding once more gives
    the same letters. *)
Theorem parse_flags_handle_flags (py_flags : Z) :
  parse_flags (handle_flags py_flags) = Z.land py_flags js_flag_bits
  /\ handle_flags (Z.land py_flags js_flag_bits) = handle_flags py_flags
  /\ handle_flags (parse_flags (handle_flags py_flags)) = handle_flags py_flags.
Proof.
  assert (H1 : parse_flags (handle_flags py_flags) = Z.land py_flags js_flag_bits).
  { rewrite land_js_flag_bits.
    pose proof (land_flag_bit py_flags 1 ltac:(lia)) as Hi.
    pose proof (land_flag_bit py_flags 3 ltac:(lia)) as Hm.
    pose proof (land_flag_bit py_flags 4 ltac:(lia)) as Hs.
    pose proof (land_flag_bit py_flags 5 ltac:(lia)) as Hu.
    change (2 ^ 1)%Z with IGNORECASE in Hi. change (2 ^ 3)%Z with MULTILINE in Hm.
    change (2 ^ 4)%Z with DOTALL in Hs. change (2 ^ 5)%Z with UNICODE in Hu.
    unfold handle_flags.
    destruct (truthy (Z.land py_flags IGNORECASE)),
      (truthy (Z.land py_flags MULTILINE)),
      (truthy (Z.land py_flags DOTALL)),
      (truthy (Z.land py_flags UNICODE)); rewrite Hi, Hm, Hs, Hu; reflexivity. }
  assert (H2 : handle_flags (Z.land py_flags js_flag_bits) = handle_flags py_flags).
  { unfold handle_flags. rewrite <- !Z.land_assoc.
    change (Z.land js_flag_bits IGNORECASE) with IGNORECASE.
    change (Z.land js_flag_bits MULTILINE) with MULTILINE.
    change (Z.land js_flag_bits DOTALL) with DOTALL.
    change (Z.land js_flag_bits UNICODE) with UNICODE. reflexivity. }
  repeat split; try assumption. now rewrite H1.
Qed.

Lemma mem_app (c : ascii) (a b : string) :
  PyStr.mem c (a ++ b) = PyStr.mem c a || PyStr.mem c b.
Proof.
  induction a as [|d a IH]; [reflexivity|].
  cbn [append PyStr.mem]. now rewrite IH, orb_assoc.
Qed.

Lemma mem_filter_chars (f : ascii -> bool) (c : ascii) (s : string) :
  PyStr.mem c (filter_chars f s) = f c && PyStr.mem c s.
Proof.
  induction s as [|d s IH]; cbn [filter_chars PyStr.mem].
  - now rewrite andb_false_r.
  - destruct (f d) eqn:Ed; cbn [PyStr.mem]; rewrite IH.
    + destruct (Ascii.eqb_spec c d) as [->|]; [now rewrite Ed | reflexivity].
    + destruct (Ascii.eqb_spec c d) as [->|]; [now rewrite Ed | reflexivity].
Qed.

(** [parse_flags] in terms of which letters occur. *)
Lemma parse_flags_letters (s : string) :
  parse_flags s
  = Z.lor (if PyStr.mem "i" s then IGNORECASE else 0%Z)
      (Z.lor (if PyStr.mem "m" s then MULTILINE else 0%Z)
         (Z.lor (if PyStr.mem "s" s then DOTALL else 0%Z)
            (Z.lor (if PyStr.mem "x" s then VERBOSE else 0%Z)
               (if PyStr.mem "u" s then UNICODE else 0%Z)))).
Proof.
  unfold parse_flags. rewrite !contains_char.
  destruct (PyStr.mem "i" s), (PyStr.mem "m" s), (PyStr.mem "s" s),
    (PyStr.mem "x" s), (PyStr.mem "u" s); reflexivity.
Qed.

(** X2.  [parse_flags] depends only on which of the letters i, m, s, x, u
    occur in its argument: the flags of a concatenation are the union of the
    flags of the parts, so order and repetition of the letters do not
    matter; any other character is ignored without an error; and the result
    has no bit outside the five flag bits. *)
Theorem parse_flags_union (a b : string) :
  parse_flags (a ++ b) = Z.lor (parse_flags a) (parse_flags b)
  /\ parse_flags (b ++ a) = parse_flags (a ++ b)
  /\ parse_flags (a ++ a) = parse_flags a
  /\ parse_flags (filter_chars (fun c => PyStr.mem c "imsxu") a) = parse_flags a
  /\ Z.land (parse_flags a) (Z.lor js_flag_bits VERBOSE) = parse_flags a.
Proof.
  rewrite !parse_flags_letters, !mem_app, !mem_filter_chars.
  cbn [PyStr.mem Ascii.eqb Bool.eqb orb andb].
  destruct (PyStr.mem "i" a), (PyStr.mem "m" a), (PyStr.mem "s" a),
    (PyStr.mem "x" a), (PyStr.mem "u" a);
    destruct (PyStr.mem "i" b), (PyStr.mem "m" b), (PyStr.mem "s" b),
      (PyStr.mem "x" b), (PyStr.mem "u" b);
    repeat split; reflexivity.
Qed.

(** ** Fixed points and bounds of the delimiter balancer *)

Lemma Subseq_length (a b : string) : Subseq a b -> length a <= length b.
Proof. induction 1; simpl; lia. Qed.

(** A text that is well nested from the current depth is copied as it is,
    and nothing is appended to it. *)
Lemma balance_scan_well_nested (s : string) :
  forall i stack result,
    well_nested (List.length stack) s = true ->
    balance_close (snd (balance_scan s i stack result))
                  (fst (balance_scan s i stack result))
    = result ++ s.
Proof.
  induction s as [s IH] using string_len_ind. intros i stack result H.
  destruct s as [|c t]; cbn [balance_scan well_nested] in *.
  - destruct stack; [cbn; now rewrite append_nil_r | discriminate].
  - destruct (Ascii.eqb c backslash).
    + destruct t as [|d t'].
      * destruct stack; [reflexivity | discriminate].
      * rewrite IH by (assumption || simpl; lia). now rewrite append_assoc.
    + destruct (Ascii.eqb c "(").
      * rewrite IH by (assumption || simpl; lia). now rewrite append_assoc.
      * destruct (Ascii.eqb c ")").
        -- destruct stack as [|top stack']; [discriminate|].
           rewrite IH by (assumption || simpl; lia). now rewrite append_assoc.
        -- rewrite IH by (assumption || simpl; lia). now rewrite append_assoc.
Qed.

(** The output is never shorter than what was emitted so far and what is
    still to be read, and at most one character longer for each character
    read and each group open. *)
Lemma balance_scan_length (s : string) :
  forall i stack result,
    let out := balance_close (snd (balance_scan s i stack result))
                             (fst (balance_scan s i stack result)) in
    length result + length s <= length out
    /\ length out <= length result + 2 * length s + List.length stack.
Proof.
  induction s as [s IH] using string_len_ind. intros i stack result out.
  subst out. destruct s as [|c t]; cbn [balance_scan].
  - cbn [fst snd]. rewrite balance_close_appends, append_length.
    assert (E : forall n, length (rep n ")") = n)
      by (induction n; simpl; congruence).
    rewrite E. simpl. lia.
  - assert (Hrest : forall t' stack' piece,
               length t' < length (String c t) ->
               length (result ++ piece) + length t'
               <= length (balance_close
                            (snd (balance_scan t' (i + 1) stack' (result ++ piece)))
                            (fst (balance_scan t' (i + 1) stack' (result ++ piece))))
               /\ length (balance_close
                            (snd (balance_scan t' (i + 1) stack' (result ++ piece)))
                            (fst (balance_scan t' (i + 1) stack' (result ++ piece))))
                  <= length (result ++ piece) + 2 * length t' + List.length stack')
      by (intros; now apply IH).
    destruct (Ascii.eqb c backslash).
    + destruct t as [|d t'].
      * cbn [fst snd]. rewrite balance_close_appends, !append_length.
        assert (E : forall n, length (rep n ")") = n)
          by (induction n; simpl; congruence).
        rewrite E. simpl. lia.
      * specialize (IH t' ltac:(simpl; lia) (i + 2) stack
                       (result ++ String c (String d ""))).
        cbv zeta in IH. rewrite append_length in IH. simpl in *. lia.
    + destruct (Ascii.eqb c "(").
      * specialize (Hrest t (i :: stack) (String c "") ltac:(simpl; lia)).
        rewrite append_length in Hrest. simpl in *. lia.
      * destruct (Ascii.eqb c ")").
        -- destruct stack as [|top stack'].
           ++ specialize (Hrest t [] (String backslash (String c ""))
                                ltac:(simpl; lia)).
              rewrite append_length in Hrest. simpl in *. lia.
           ++ specialize (Hrest t stack' (String c "") ltac:(simpl; lia)).
              rewrite append_length in Hrest. simpl in *. lia.
        -- specialize (Hrest t stack (String c "") ltac:(simpl; lia)).
           rewrite append_length in Hrest. simpl in *. lia.
Qed.

(** A text that is not well nested comes out longer. *)
Lemma balance_scan_repairs (s : string) :
  forall i stack result,
    well_nested (List.length stack) s = false ->
    length result + length s
    < length (balance_close (snd (balance_scan s i stack result))
                            (fst (balance_scan s i stack result))).
Proof.
  induction s as [s IH] using string_len_ind. intros i stack result H.
  assert (E : forall n, length (rep n ")") = n)
    by (induction n; simpl; congruence).
  destruct s as [|c t]; cbn [balance_scan well_nested] in *.
  - cbn [fst snd]. rewrite balance_close_appends, append_length, E.
    destruct stack; [discriminate | simpl; lia].
  - destruct (Ascii.eqb c backslash).
    + destruct t as [|d t'].
      * cbn [fst snd]. rewrite balance_close_appends, !append_length, E.
        destruct stack; [discriminate | simpl; lia].
      * specialize (IH t' ltac:(simpl; lia) (i + 2) stack
                       (result ++ String c (String d "")) H).
        rewrite append_length in IH. simpl in *. lia.
    + destruct (Ascii.eqb c "(").
      * specialize (IH t ltac:(simpl; lia) (i + 1) (i :: stack)
                       (result ++ String c "") H).
        rewrite append_length in IH. simpl in *. lia.
      * destruct (Ascii.eqb c ")").
        -- destruct stack as [|top stack'].
           ++ pose proof (balance_scan_length t (i + 1) []
                            (result ++ String backslash (String c ""))) as L.
              cbv zeta in L. rewrite append_length in L. simpl in *. lia.
           ++ specialize (IH t ltac:(simpl; lia) (i + 1) stack'
                             (result ++ String c "") H).
              rewrite append_length in IH. simpl in *. lia.
        -- specialize (IH t ltac:(simpl; lia) (i + 1) stack
                          (result ++ String c "") H).
           rewrite append_length in IH. simpl in *. lia.
Qed.

Lemma well_nested_unchanged (regex : string) :
  well_nested 0 regex = true -> balance_parentheses regex = regex.
Proof.
  intro W. unfold balance_parentheses.
  pose proof (balance_scan_well_nested regex 0 [] "" W) as H.
  now destruct (balance_scan regex 0 [] "").
Qed.

(** X3.  The fixed points of [balance_parentheses] are exactly the well
    nested texts: a pattern is returned unchanged if and only if, read with
    a backslash escaping the character after it, every closing parenthesis
    finds a group open and no group is left open at the end.  In particular
    a pattern without parentheses is returned unchanged. *)
Theorem balance_parentheses_fixed_points (regex : string) :
  balance_parentheses regex = regex <-> well_nested 0 regex = true.
Proof.
  unfold balance_parentheses.
  destruct (balance_scan regex 0 [] "") as [result stack] eqn:E.
  split.
  - intro H. destruct (well_nested 0 regex) eqn:W; [reflexivity|].
    pose proof (balance_scan_repairs regex 0 [] "" W) as L.
    rewrite E in L. cbn [fst snd] in L. rewrite H in L. simpl in L. lia.
  - intro W. pose proof (balance_scan_well_nested regex 0 [] "" W) as H.
    now rewrite E in H.
Qed.

(** The scan and the closing loop emit no character of their own other
    than the backslash and the closing parenthesis. *)
Lemma balance_scan_count_other (p : ascii) (s : string) :
  p <> backslash -> p <> ")"%char ->
  forall i stack result,
    PyStr.count_char p (fst (balance_scan s i stack result))
    = PyStr.count_char p result + PyStr.count_char p s.
Proof.
  intros Hb Hc. apply Ascii.eqb_neq in Hb, Hc.
  induction s as [s IH] using string_len_ind. intros i stack result.
  destruct s as [|c t]; cbn [balance_scan].
  - cbn [fst PyStr.count_char]. lia.
  - destruct (Ascii.eqb c backslash) eqn:Eb.
    + destruct t as [|d t'].
      * cbn [fst]. now rewrite count_char_app.
      * rewrite IH, count_char_app by (simpl; lia). cbn [PyStr.count_char]. lia.
    + destruct (Ascii.eqb c "(") eqn:Eo.
      * rewrite IH, count_char_app by (simpl; lia). cbn [PyStr.count_char]. lia.
      * destruct (Ascii.eqb c ")") eqn:Ec.
        -- apply Ascii.eqb_eq in Ec. subst c.
           destruct stack as [|top stack'];
             rewrite IH, count_char_app by (simpl; lia);
             cbn [PyStr.count_char]; rewrite ?(Ascii.eqb_sym backslash p), ?Hb;
             lia.
        -- rewrite IH, count_char_app by (simpl; lia). cbn [PyStr.count_char]. lia.
Qed.

Lemma balance_parentheses_count_other (p : ascii) (regex : string) :
  p <> backslash -> p <> ")"%char ->
  PyStr.count_char p (balance_parentheses regex) = PyStr.count_char p regex.
Proof.
  intros Hb Hc. unfold balance_parentheses.
  pose proof (balance_scan_count_other p regex Hb Hc 0 [] "") as H.
  destruct (balance_scan regex 0 [] "") as [result stack]. cbn [fst] in H.
  rewrite balance_close_appends, count_char_app, H.
  apply Ascii.eqb_neq in Hc.
  assert (E : forall n, PyStr.count_char p (rep n ")") = 0).
  { induction n as [|n IHn]; [reflexivity|]. cbn [rep PyStr.count_char].
    now rewrite (Ascii.eqb_sym ")" p), Hc. }
  rewrite E. simpl. lia.
Qed.

(** X4.  [balance_parentheses] only inserts, and only backslashes and
    closing parentheses: the input can be read off the output in order,
    every other character occurs in the output as often as in the input,
    the output is at least as long as the input and at most twice as long,
    and the empty pattern stays empty. *)
Theorem balance_parentheses_only_inserts (regex : string) :
  Subseq regex (balance_parentheses regex)
  /\ (forall c, c <> backslash -> c <> ")"%char ->
                PyStr.count_char c (balance_parentheses regex)
                = PyStr.count_char c regex)
  /\ length regex <= length (balance_parentheses regex)
  /\ length (balance_parentheses regex) <= 2 * length regex
  /\ (regex = "" -> balance_parentheses regex = "").
Proof.
  pose proof (balance_parentheses_keeps_input regex) as K.
  pose proof (balance_scan_length regex 0 [] "") as L. cbv zeta in L.
  split; [assumption|].
  split; [intros c Hb Hc; now apply balance_parentheses_count_other|].
  unfold balance_parentheses in *.
  destruct (balance_scan regex 0 [] "") as [result stack].
  cbn [fst snd] in L. simpl in L.
  repeat split; try lia.
  intros ->. destruct (balance_close stack result); [reflexivity | simpl in L; lia].
Qed.

(** What the scan keeps true of the text emitted so far: it can be
    continued by anything, and the continuation is read at the depth of the
    stack. *)
Lemma well_nested_step (result piece : string) (d d' : nat) :
  dangling_escape result = false ->
  (forall b, well_nested 0 (result ++ b) = well_nested d b) ->
  dangling_escape piece = false ->
  (forall b, well_nested d (piece ++ b) = well_nested d' b) ->
  dangling_escape (result ++ piece) = false
  /\ forall b, well_nested 0 ((result ++ piece) ++ b) = well_nested d' b.
Proof.
  intros Hd Hw Hp Hpw. split.
  - now rewrite dangling_escape_app.
  - intro b. now rewrite append_assoc, Hw, Hpw.
Qed.

Lemma balance_scan_nests (s : string) :
  forall i stack result,
    dangling_escape s = false ->
    dangling_escape result = false ->
    (forall b, well_nested 0 (result ++ b) = well_nested (List.length stack) b) ->
    well_nested 0 (balance_close (snd (balance_scan s i stack result))
                                 (fst (balance_scan s i stack result)))
    = true.
Proof.
  induction s as [s IH] using string_len_ind. intros i stack result Hs Hd Hw.
  destruct s as [|c t]; cbn [balance_scan].
  - cbn [fst snd]. clear IH Hs. revert result Hd Hw.
    induction stack as [|top stack IHs]; intros result Hd Hw; cbn [balance_close].
    + rewrite <- (append_nil_r result). now rewrite Hw.
    + destruct (well_nested_step result ")" _ (List.length stack) Hd Hw eq_refl)
        as [Hd' Hw']; [intro b; reflexivity|].
      now apply IHs.
  - cbn [dangling_escape] in Hs.
    destruct (Ascii.eqb c backslash) eqn:Eb.
    + destruct t as [|d t']; [discriminate|].
      destruct (well_nested_step result (String c (String d "")) _
                  (List.length stack) Hd Hw) as [Hd' Hw'];
        [cbn [dangling_escape]; now rewrite Eb
        | intro b; cbn [append well_nested]; now rewrite Eb |].
      apply IH; [simpl; lia | assumption ..].
    + destruct (Ascii.eqb c "(") eqn:Eo.
      * destruct (well_nested_step result (String c "") _
                    (List.length (i :: stack)) Hd Hw) as [Hd' Hw'];
          [cbn [dangling_escape]; now rewrite Eb
          | intro b; cbn [append well_nested List.length]; now rewrite Eb, Eo |].
        apply IH; [simpl; lia | assumption ..].
      * destruct (Ascii.eqb c ")") eqn:Ec.
        -- destruct stack as [|top stack'].
           ++ destruct (well_nested_step result (String backslash (String c "")) _
                          (List.length (@nil nat)) Hd Hw) as [Hd' Hw'];
                [reflexivity | intro b; reflexivity |].
              apply IH; [simpl; lia | assumption ..].
           ++ destruct (well_nested_step result (String c "") _
                          (List.length stack') Hd Hw) as [Hd' Hw'];
                [cbn [dangling_escape]; now rewrite Eb
                | intro b; cbn [append well_nested List.length];
                  now rewrite Eb, Eo, Ec |].
              apply IH; [simpl; lia | assumption ..].
        -- destruct (well_nested_step result (String c "") _
                       (List.length stack) Hd Hw) as [Hd' Hw'];
             [cbn [dangling_escape]; now rewrite Eb
             | intro b; cbn [append well_nested]; now rewrite Eb, Eo, Ec |].
           apply IH; [simpl; lia | assumption ..].
Qed.

(** X5.  When the pattern does not end on a backslash with nothing after
    it, the output of [balance_parentheses] is well nested, and balancing
    it once more changes nothing. *)
Theorem balance_parentheses_idempotent (regex : string) :
  dangling_escape regex = false ->
  well_nested 0 (balance_parentheses regex) = true
  /\ balance_parentheses (balance_parentheses regex) = balance_parentheses regex.
Proof.
  intro Hd.
  assert (W : well_nested 0 (balance_parentheses regex) = true).
  { unfold balance_parentheses.
    pose proof (balance_scan_nests regex 0 [] "" Hd eq_refl (fun b => eq_refl)) as H.
    now destruct (balance_scan regex 0 [] ""). }
  split; [assumption|]. now apply well_nested_unchanged.
Qed.

Lemma balance_parentheses_idempotent_witness :
  well_nested 0 (balance_parentheses "a)(b\((c") = true
  /\ balance_parentheses (balance_parentheses "a)(b\((c")
     = balance_parentheses "a)(b\((c".
Proof. apply (balance_parentheses_idempotent "a)(b\((c"). reflexivity. Defined.

(** The scan emits the openers it reads and no other. *)
Lemma balance_scan_openers (s : string) :
  forall i stack result,
    dangling_escape s = false ->
    dangling_escape result = false ->
    dangling_escape (fst (balance_scan s i stack result)) = false
    /\ count_unescaped "(" (fst (balance_scan s i stack result))
       = count_unescaped "(" result + count_unescaped "(" s.
Proof.
  induction s as [s IH] using string_len_ind. intros i stack result Hs Hd.
  destruct s as [|c t]; cbn [balance_scan].
  - cbn [fst count_unescaped]. split; [assumption | lia].
  - cbn [dangling_escape count_unescaped] in Hs |- *.
    assert (Hnext : forall i' stack' piece t',
               length t' < length (String c t) ->
               dangling_escape t' = false ->
               dangling_escape piece = false ->
               dangling_escape (fst (balance_scan t' i' stack' (result ++ piece))) = false
               /\ count_unescaped "(" (fst (balance_scan t' i' stack' (result ++ piece)))
                  = count_unescaped "(" result + count_unescaped "(" piece
                    + count_unescaped "(" t').
    { intros i' stack' piece t' L Ht Hp.
      destruct (IH t' L i' stack' (result ++ piece) Ht) as [D C].
      - now rewrite dangling_escape_app.
      - split; [assumption|]. now rewrite C, count_unescaped_app. }
    destruct (Ascii.eqb c backslash) eqn:Eb.
    + destruct t as [|d t']; [discriminate|].
      destruct (Hnext (i + 2) stack (String c (String d "")) t') as [D C];
        [simpl; lia | assumption | cbn; now rewrite Eb |].
      split; [assumption|]. rewrite C. cbn [count_unescaped]. rewrite Eb. lia.
    + destruct (Ascii.eqb c "(") eqn:Eo.
      * destruct (Hnext (i + 1) (i :: stack) (String c "") t) as [D C];
          [simpl; lia | assumption | cbn; now rewrite Eb |].
        split; [assumption|]. rewrite C. cbn [count_unescaped]. rewrite Eb, Eo. lia.
      * destruct (Ascii.eqb c ")") eqn:Ec.
        -- destruct stack as [|top stack'].
           ++ destruct (Hnext (i + 1) [] (String backslash (String c "")) t) as [D C];
                [simpl; lia | assumption | reflexivity |].
              split; [assumption|]. rewrite C. cbn. lia.
           ++ destruct (Hnext (i + 1) stack' (String c "") t) as [D C];
                [simpl; lia | assumption | cbn; now rewrite Eb |].
              split; [assumption|]. rewrite C. cbn [count_unescaped].
              rewrite Eb, Eo. lia.
        -- destruct (Hnext (i + 1) stack (String c "") t) as [D C];
             [simpl; lia | assumption | cbn; now rewrite Eb |].
           split; [assumption|]. rewrite C. cbn [count_unescaped].
           rewrite Eb, Eo. lia.
Qed.

Lemma count_unescaped_rep_closer (n : nat) :
  count_unescaped "(" (rep n ")") = 0 /\ dangling_escape (rep n ")") = false.
Proof. induction n as [|n [IH1 IH2]]; split; try reflexivity; assumption. Qed.

(** X6.  When the pattern does not end on a backslash with nothing after
    it, the output of [balance_parentheses] has as many opening as closing
    parentheses outside escape pairs, and exactly the opening parentheses
    of the input: the balancer repairs by escaping and appending closers,
    never by touching an opener. *)
Theorem balance_parentheses_counts_agree (regex : string) :
  dangling_escape regex = false ->
  count_unescaped "(" (balance_parentheses regex)
  = count_unescaped ")" (balance_parentheses regex)
  /\ count_unescaped "(" (balance_parentheses regex) = count_unescaped "(" regex.
Proof.
  intro Hd. split; [now apply balance_parentheses_balanced|].
  unfold balance_parentheses.
  destruct (balance_scan_openers regex 0 [] "" Hd eq_refl) as [D C].
  destruct (balance_scan regex 0 [] "") as [result stack]. cbn [fst] in *.
  rewrite balance_close_appends, count_unescaped_app by assumption.
  destruct (count_unescaped_rep_closer (List.length stack)) as [-> _].
  rewrite C. simpl. lia.
Qed.

Lemma balance_parentheses_counts_agree_witness :
  count_unescaped "(" (balance_parentheses "a)(b\((c")
  = count_unescaped ")" (balance_parentheses "a)(b\((c")
  /\ count_unescaped "(" (balance_parentheses "a)(b\((c")
     = count_unescaped "(" "a)(b\((c".
Proof. apply (balance_parentheses_counts_agree "a)(b\((c"). reflexivity. Defined.

(** ** [escape_special_chars] *)

Lemma escape_special_chars_cons (c : ascii) (t : string) :
  escape_special_chars (String c t)
  = (if PyStr.mem c escaped_chars
     then String backslash (String c "") else String c "")
    ++ escape_special_chars t.
Proof.
  unfold escape_special_chars. cbn [list_ascii_of_string map join]. f_equal.
  destruct c as [[] [] [] [] [] [] [] []]; reflexivity.
Qed.

(** A character that gets no backslash is no backslash and no
    parenthesis. *)
Lemma not_escaped_plain (c : ascii) :
  PyStr.mem c escaped_chars = false ->
  Ascii.eqb c backslash = false /\ Ascii.eqb c "(" = false
  /\ Ascii.eqb c ")" = false.
Proof. destruct c as [[] [] [] [] [] [] [] []]; cbn; intro H; now try discriminate. Qed.

Lemma escape_special_chars_nested (s : string) :
  forall depth, well_nested depth (escape_special_chars s) = (depth =? 0).
Proof.
  induction s as [|c t IH]; intro depth; [reflexivity|].
  rewrite escape_special_chars_cons.
  destruct (PyStr.mem c escaped_chars) eqn:E.
  - cbn [append well_nested]. rewrite Ascii.eqb_refl. apply IH.
  - destruct (not_escaped_plain c E) as (Eb & Eo & Ec).
    cbn [append well_nested]. rewrite Eb, Eo, Ec. apply IH.
Qed.



(** X8.  An escaped text has no parenthesis left for the balancer:
    [balance_parentheses] returns the output of [escape_special_chars]
    unchanged, whatever the text. *)
Theorem balance_parentheses_after_escape (regex : string) :
  balance_parentheses (escape_special_chars regex) = escape_special_chars regex
  /\ well_nested 0 (escape_special_chars regex) = true.
Proof.
  split; [apply well_nested_unchanged|]; apply escape_special_chars_nested.
Qed.

(** ** Substituting for a single character class *)

Section CharSub.

Variable cs : cset.
Variable new : string.

Lemma match_here_char (must_advance : bool) (p : option ascii) (s : string) :
  match_here (Char cs) must_advance p s
  = match s with
    | EmptyString => None
    | String c t =>
      if cset_mem cs c
      then Some {| prev := Some c; rest := t; caps := [] |}
      else None
    end.
Proof.
  unfold match_here. cbn [m rest]. destruct s as [|c t]; [reflexivity|].
  destruct (cset_mem cs c); [|reflexivity].
  cbn [advance rest caps].
  replace (length t =? length (String c t)) with false
    by (symmetry; apply Nat.eqb_neq; simpl; lia).
  now rewrite andb_false_r.
Qed.

(** A search stops at the first character of the class. *)
Lemma search_char (s : string) :
  forall must_advance p,
    match search (Char cs) must_advance p s with
    | None => replace_chars cs new s = s
    | Some f =>
      replace_chars cs new s = gap f ++ new ++ replace_chars cs new (after f)
      /\ length (after f) < length s
    end.
Proof.
  induction s as [|c t IH]; intros ma p; cbn [search]; rewrite match_here_char.
  - reflexivity.
  - cbn [replace_chars]. destruct (cset_mem cs c).
    + cbn [gap after rest append]. split; [reflexivity | simpl; lia].
    + specialize (IH false (Some c)).
      destruct (search (Char cs) false (Some c) t) as [f|].
      * cbn [gap after append]. destruct IH as [IH L].
        split; [now rewrite IH | simpl; lia].
      * cbn [append]. now rewrite IH.
Qed.

Lemma scan_loop_char (fuel : nat) :
  forall must_advance p s,
    length s < fuel ->
    join (map (fun '(g, _) => g ++ new)
              (fst (scan_loop fuel (Char cs) must_advance p s)))
    ++ snd (scan_loop fuel (Char cs) must_advance p s)
    = replace_chars cs new s.
Proof.
  induction fuel as [|fuel IH]; intros ma p s Hf; [lia|].
  cbn [scan_loop]. pose proof (search_char s ma p) as Hs.
  destruct (search (Char cs) ma p s) as [f|].
  - destruct Hs as [Hs L].
    specialize (IH (is_empty (whole (mo f))) (after_prev f) (after f)).
    destruct (scan_loop fuel (Char cs) _ (after_prev f) (after f)) as [segs tail].
    cbn [fst snd map join] in *. rewrite Hs, <- IH by lia.
    now rewrite !append_assoc.
  - cbn [fst snd map join append]. now symmetry.
Qed.

(** [re.sub] of a one-character pattern with a constant replacement works
    character by character. *)
Lemma sub_char (s : string) :
  Re.sub (Char cs) (fun _ => new) s = replace_chars cs new s.
Proof.
  unfold Re.sub, Re.scan.
  pose proof (scan_loop_char (2 * length s + 1) false None s ltac:(lia)) as H.
  destruct (scan_loop (2 * length s + 1) (Char cs) false None s) as [segs tail].
  cbn [fst snd] in H. now rewrite <- H.
Qed.

End CharSub.

(** ** [pattern_preserved] *)

Lemma sub_space (s : string) :
  Re.sub re_space (fun _ => "") s = without_space s.
Proof.
  unfold re_space. rewrite sub_char. unfold without_space.
  induction s as [|c t IH]; [reflexivity|].
  cbn [replace_chars filter_chars cset_mem cclass_mem].
  destruct (PyStr.isspace c); cbn [negb append]; now rewrite IH.
Qed.

Lemma without_space_app (a b : string) :
  without_space (a ++ b) = without_space a ++ without_space b.
Proof.
  unfold without_space. induction a as [|c a IH]; [reflexivity|].
  cbn [append filter_chars]. destruct (negb (PyStr.isspace c)); cbn [append];
    now rewrite IH.
Qed.

Lemma without_space_twice (s : string) :
  without_space (without_space s) = without_space s.
Proof.
  unfold without_space. induction s as [|c s IH]; [reflexivity|].
  cbn [filter_chars]. destruct (negb (PyStr.isspace c)) eqn:E; [|assumption].
  cbn [filter_chars]. now rewrite E, IH.
Qed.

Lemma contains_found (pre a post : string) :
  PyStr.contains a (pre ++ a ++ post) = true.
Proof. apply contains_at, prefix_app. Qed.

Lemma contains_self (a : string) : PyStr.contains a a = true.
Proof.
  pose proof (contains_found "" a "") as H. cbn [append] in H.
  now rewrite append_nil_r in H.
Qed.

(** X9.  [pattern_preserved] compares the two texts with every white-space
    character taken out, and accepts when either core occurs as a slice of
    the other.  So it is symmetric, it accepts a text against itself and
    against any text that holds it as a slice, white space in either
    argument makes no difference, and a text of white space only (the empty
    text included) is accepted against everything. *)
Theorem pattern_preserved_spec (original converted : string) :
  pattern_preserved original converted
  = (PyStr.contains (without_space original) (without_space converted)
     || PyStr.contains (without_space converted) (without_space original))
  /\ pattern_preserved original converted = pattern_preserved converted original
  /\ pattern_preserved original original = true
  /\ (forall pre post,
        pattern_preserved original (pre ++ original ++ post) = true)
  /\ pattern_preserved (without_space original) converted
     = pattern_preserved original converted
  /\ (without_space original = "" -> pattern_preserved original converted = true).
Proof.
  unfold pattern_preserved. cbv zeta. rewrite !sub_space.
  repeat split.
  - apply orb_comm.
  - now rewrite contains_self.
  - intros pre post. rewrite sub_space, !without_space_app.
    now rewrite contains_found.
  - now rewrite without_space_twice.
  - intros ->. now destruct (without_space converted).
Qed.

(** ** The trace of a conversion *)

Lemma nonempty_cond (b : bool) (x : string) :
  nonempty (if b then [x] else []) = b.
Proof. now destruct b. Qed.

(** With [verbose] set the call on an empty heap returns [trace] as its
    third component. *)
Lemma convert_fresh_trace (py_regex : string) (py_flags : Z) :
  convert_fresh py_regex py_flags true
  = Some (Some (literal_text py_regex py_flags),
          diagnostics py_regex py_flags, trace py_regex py_flags).
Proof.
  unfold convert_fresh, py_to_js_regex, try_block. cbv zeta.
  fold (stage_stripped py_regex).
  unfold try_except. cbn [andb].
  destruct (truthy (Z.land py_flags VERBOSE)) eqn:Ev; run;
    cbn [observe deref addr nth]; subst;
    unfold trace, literal_text, diagnostics, named_refs_found, stage_newlines,
      stage_escapes, stage_bell, stage_atomic, stage_preserved,
      stage_references, stage_converted, stage_normalized; cbv zeta;
    repeat match goal with
           | H : _ = true |- _ => rewrite H; clear H
           | H : _ = false |- _ => rewrite H; clear H
           end;
    rewrite ?handle_flags_clear_verbose, ?nonempty_cond, ?map_map, <- ?app_assoc;
    cbn [app]; reflexivity.
Qed.

Lemma trace_shape (py_regex : string) (py_flags : Z) :
  hd_error (trace py_regex py_flags)
  = Some ("Original Python regex: " ++ py_regex)
  /\ last (trace py_regex py_flags) ""
     = "Final JavaScript regex: " ++ literal_text py_regex py_flags
  /\ 7 <= List.length (trace py_regex py_flags) <= 16.
Proof.
  unfold trace. cbv zeta.
  repeat match goal with
         | |- context [if ?b then _ else _] => generalize b; intros []
         end;
    cbn [app hd_error last List.length]; repeat split; lia.
Qed.

(** What a call returns, on any heap and for either value of [verbose]. *)
Lemma observe_py_to_js_regex (py_regex : string) (py_flags : Z)
  (verbose : bool) (h : Store) :
  observe (py_to_js_regex py_regex py_flags verbose h)
  = Some (Some (literal_text py_regex py_flags),
          diagnostics py_regex py_flags,
          if verbose then trace py_regex py_flags else []).
Proof.
  destruct verbose.
  - destruct (observe_any_heap py_regex py_flags true h) as [-> _].
    apply convert_fresh_trace.
  - destruct (py_to_js_regex_closed_form py_regex py_flags false h)
      as (steps & E & Hs).
    now rewrite E, (Hs eq_refl).
Qed.

(** X10.  The switch [verbose] changes the third component of the result
    and nothing else: with or without it, on any heap, the call returns the
    same literal and the same warnings; without it the list of steps is
    empty; with it the list is [trace], which starts with the pattern as it
    was given, ends with the literal that is returned, and has between
    seven and sixteen entries. *)
Theorem verbose_only_adds_the_trace (py_regex : string) (py_flags : Z)
  (h : Store) :
  observe (py_to_js_regex py_regex py_flags false h)
  = Some (Some (literal_text py_regex py_flags),
          diagnostics py_regex py_flags, [])
  /\ observe (py_to_js_regex py_regex py_flags true h)
     = Some (Some (literal_text py_regex py_flags),
             diagnostics py_regex py_flags, trace py_regex py_flags)
  /\ hd_error (trace py_regex py_flags)
     = Some ("Original Python regex: " ++ py_regex)
  /\ last (trace py_regex py_flags) ""
     = "Final JavaScript regex: " ++ literal_text py_regex py_flags
  /\ 7 <= List.length (trace py_regex py_flags) <= 16.
Proof.
  split; [|split; [|apply trace_shape]].
  - destruct (py_to_js_regex_closed_form py_regex py_flags false h)
      as (steps & E & Hs).
    now rewrite E, (Hs eq_refl).
  - destruct (observe_any_heap py_regex py_flags true h) as [-> _].
    apply convert_fresh_trace.
Qed.

(** ** Patterns with nothing to convert *)

Lemma prefix_weaken (a b s : string) :
  prefix (a ++ b) s = true -> prefix a s = true.
Proof.
  revert s. induction a as [|c a IH]; intros s H; [apply prefix_nil|].
  destruct s as [|d s]; [discriminate|]. cbn [append] in H.
  rewrite prefix_cons in *. apply andb_prop in H. destruct H as [-> H].
  now rewrite (IH _ H).
Qed.

Lemma contains_weaken (a b s : string) :
  PyStr.contains (a ++ b) s = true -> PyStr.contains a s = true.
Proof.
  induction s as [|d s IH]; cbn [PyStr.contains]; intro H.
  - now apply prefix_weaken in H.
  - apply orb_prop in H. destruct H as [H|H].
    + apply prefix_weaken in H. now rewrite H.
    + rewrite (IH H). apply orb_true_r.
Qed.

(** A pattern that begins with a literal is found only where the literal
    is written. *)
Lemma found_in_literal (a : string) (r : regex) (s : string) (x : mobj) :
  found_in (Seq (Lit a) r) s x -> PyStr.contains a s = true.
Proof.
  intros (pre & post & st' & Es & Hm & _).
  apply matches_Seq_inv in Hm. destruct Hm as (st1 & H1 & _).
  apply matches_Lit in H1. destruct H1 as (E & _). cbn [rest] in E.
  rewrite Es, E. apply contains_at, prefix_app.
Qed.

Lemma no_opener_no_match (a b : string) (r : regex) (s : string) (x : mobj) :
  PyStr.contains a s = false -> ~ found_in (Seq (Lit (a ++ b)) r) s x.
Proof.
  intros Hs Hx. apply found_in_literal, contains_weaken in Hx. congruence.
Qed.

Lemma no_opener_absent (a b s : string) :
  PyStr.contains a s = false -> PyStr.contains (a ++ b) s = false.
Proof.
  intro H. destruct (PyStr.contains (a ++ b) s) eqn:E; [|reflexivity].
  apply contains_weaken in E. congruence.
Qed.

Lemma newline_absent (s : string) :
  PyStr.mem newline s = false ->
  replace_chars (Is (CLit newline)) "\n" s = s.
Proof.
  induction s as [|c t IH]; [reflexivity|]. cbn [PyStr.mem].
  intro H. apply orb_false_elim in H. destruct H as [Hc Ht].
  cbn [replace_chars cset_mem cclass_mem].
  rewrite (Ascii.eqb_sym c newline), Hc. cbn [append].
  now rewrite IH.
Qed.

(** The stages applied one after the other to an inert pattern leave it as
    it is and report nothing; the trace names the pattern at each of the
    steps that are always recorded. *)
Lemma inert_stages (py_regex : string) (py_flags : Z) :
  truthy (Z.land py_flags VERBOSE) = false ->
  inert (stage_stripped py_regex) = true ->
  stage_newlines py_regex py_flags = stage_stripped py_regex
  /\ balance_parentheses (stage_stripped py_regex) = stage_stripped py_regex
  /\ diagnostics py_regex py_flags = []
  /\ trace py_regex py_flags
     = (("Original Python regex: " ++ py_regex)%string
        :: (if negb (String.eqb (stage_stripped py_regex) py_regex)
            then [("Stripped 'r' prefix and quotes: "
                   ++ stage_stripped py_regex)%string]
            else [])
        ++ [("Handled non-capturing groups: " ++ stage_stripped py_regex)%string;
            ("Preserved complex patterns: " ++ stage_stripped py_regex)%string;
            ("Ensured pattern preservation: " ++ stage_stripped py_regex)%string;
            ("Ensured balanced parentheses: " ++ stage_stripped py_regex)%string;
            ("Handled flags: " ++ handle_flags py_flags)%string;
            ("Final JavaScript regex: /" ++ stage_stripped py_regex ++ "/"
             ++ handle_flags py_flags)%string])%list.
Proof.
  intros Hv Hi. unfold inert in Hi.
  repeat match type of Hi with
         | _ && _ = true => apply andb_prop in Hi; destruct Hi as [Hi ?]
         end.
  repeat match goal with
         | H : negb _ = true |- _ => apply negb_true_iff in H
         end.
  set (s := stage_stripped py_regex) in *.
  assert (Hq : forall b, PyStr.contains ("(?" ++ b) s = false)
    by (intro b; now apply no_opener_absent).
  assert (E1 : stage_normalized py_regex py_flags = s)
    by (unfold stage_normalized; now rewrite Hv).
  assert (E2 : stage_converted py_regex py_flags = s).
  { unfold stage_converted, conservative_conversion. rewrite E1.
    rewrite (replace_absent _ _ _ s) by assumption.
    rewrite (replace_absent _ _ _ s) by assumption.
    rewrite (sub_no_match re_named_group)
      by (intro x; now apply (no_opener_no_match "(?" "P<")).
    apply sub_no_match. intro x. now apply (no_opener_no_match "(?" ":"). }
  assert (E3 : stage_references py_regex py_flags = s).
  { unfold stage_references. rewrite E2. apply sub_no_match.
    intro x. now apply (no_opener_no_match "(?" "P="). }
  assert (E4 : stage_preserved py_regex py_flags = s)
    by now rewrite stage_preserved_references.
  assert (E5 : stage_atomic py_regex py_flags = s).
  { unfold stage_atomic. rewrite E4. apply replace_absent. apply (Hq ">"). }
  assert (E6 : stage_bell py_regex py_flags = s)
    by (unfold stage_bell; rewrite E5; now apply replace_absent).
  assert (E7 : stage_escapes py_regex py_flags = s).
  { unfold stage_escapes. rewrite E6.
    now replace (PyStr.contains "\N" s) with false. }
  assert (E8 : stage_newlines py_regex py_flags = s).
  { unfold stage_newlines, re_newline. rewrite E7, sub_char.
    now apply newline_absent. }
  assert (E9 : balance_parentheses s = s) by now apply well_nested_unchanged.
  assert (En : named_refs_found py_regex py_flags = []).
  { unfold named_refs_found. rewrite E2.
    destruct (Re.scan re_named_ref s) as [segs tail] eqn:E.
    apply scan_sound in E. destruct E as [_ Hall]. cbn [fst].
    destruct segs as [|seg segs]; [reflexivity|].
    inversion Hall as [|? ? Hx _]. subst.
    now apply (no_opener_no_match "(?" "P=") in Hx. }
  assert (Eg : Re.sub re_noncapturing (fun _ => "(?:") s = s)
    by apply noncapturing_identity.
  assert (Q1 : PyStr.contains "(?>" s = false) by exact (Hq ">").
  assert (Q2 : PyStr.contains "(?<=" s = false) by exact (Hq "<=").
  assert (Q3 : PyStr.contains "(?<!" s = false) by exact (Hq "<!").
  assert (Q4 : PyStr.contains "(?(1)" s = false) by exact (Hq "(1)").
  assert (Q5 : PyStr.contains "\p" s = false) by assumption.
  assert (Q6 : PyStr.contains "\P" s = false) by assumption.
  assert (Q7 : PyStr.contains "\N" s = false) by assumption.
  split; [assumption|]. split; [assumption|]. split.
  - unfold diagnostics. fold (named_refs_found py_regex py_flags).
    rewrite En, E4, E5, E6, E8, Q1, Q2, Q3, Q4, Q5, Q6, Q7. reflexivity.
  - unfold trace, literal_text. cbv zeta. fold s.
    rewrite En, E1, E2, E3, E4, E5, E6, E8, E9, Eg, Hv,
      Q1, Q2, Q3, Q4, Q5, Q6, Q7.
    rewrite String.eqb_refl. reflexivity.
Qed.

(** X11.  A pattern with nothing to convert passes through.  When the
    VERBOSE bit is not set and the pattern, once the raw-string marker and
    the quotes around it are stripped, is inert (no anchor \A or \Z, no
    group opener that starts with a question mark, no escape \a, \N, \p or
    \P, no newline character, parentheses well nested), the call returns,
    on any heap and for either value of [verbose], that pattern between two
    slashes followed by the flag letters, and no warning.  Without
    [verbose] it returns no step.  With [verbose] the steps are the six
    that are always recorded (non-capturing groups, complex patterns,
    pattern preservation, balanced parentheses, flags, final literal), each
    naming the stripped pattern unchanged, behind the entry for the pattern
    as given and, when stripping changed it, the entry for the stripped
    pattern. *)
Theorem inert_pattern_passes_through (py_regex : string) (py_flags : Z)
  (verbose : bool) (h : Store) :
  truthy (Z.land py_flags VERBOSE) = false ->
  inert (stage_stripped py_regex) = true ->
  observe (py_to_js_regex py_regex py_flags verbose h)
  = Some (Some ("/" ++ stage_stripped py_regex ++ "/" ++ handle_flags py_flags),
          [],
          if verbose
          then
            (("Original Python regex: " ++ py_regex)%string
             :: (if negb (String.eqb (stage_stripped py_regex) py_regex)
                 then [("Stripped 'r' prefix and quotes: "
                        ++ stage_stripped py_regex)%string]
                 else [])
             ++ [("Handled non-capturing groups: "
                  ++ stage_stripped py_regex)%string;
                 ("Preserved complex patterns: "
                  ++ stage_stripped py_regex)%string;
                 ("Ensured pattern preservation: "
                  ++ stage_stripped py_regex)%string;
                 ("Ensured balanced parentheses: "
                  ++ stage_stripped py_regex)%string;
                 ("Handled flags: " ++ handle_flags py_flags)%string;
                 ("Final JavaScript regex: /" ++ stage_stripped py_regex
                  ++ "/" ++ handle_flags py_flags)%string])%list
          else []).
Proof.
  intros Hv Hi.
  destruct (inert_stages py_regex py_flags Hv Hi) as (E1 & E2 & E3 & E4).
  rewrite observe_py_to_js_regex, E3, E4. unfold literal_text.
  now rewrite E1, E2.
Qed.

Lemma inert_pattern_passes_through_witness :
  observe (py_to_js_regex "r'^\d+(a|b)[x-z]{2}\.$'" (parse_flags "im") true [])
  = Some (Some "/^\d+(a|b)[x-z]{2}\.$/im", [],
          ["Original Python regex: r'^\d+(a|b)[x-z]{2}\.$'";
           "Stripped 'r' prefix and quotes: ^\d+(a|b)[x-z]{2}\.$";
           "Handled non-capturing groups: ^\d+(a|b)[x-z]{2}\.$";
           "Preserved complex patterns: ^\d+(a|b)[x-z]{2}\.$";
           "Ensured pattern preservation: ^\d+(a|b)[x-z]{2}\.$";
           "Ensured balanced parentheses: ^\d+(a|b)[x-z]{2}\.$";
           "Handled flags: im";
           "Final JavaScript regex: /^\d+(a|b)[x-z]{2}\.$/im"])
  /\ observe (py_to_js_regex "abc" 0 false [])
     = Some (Some "/abc/", [], []).
Proof.
  split.
  - apply (inert_pattern_passes_through
             "r'^\d+(a|b)[x-z]{2}\.$'" (parse_flags "im") true []);
      reflexivity.
  - apply (inert_pattern_passes_through "abc" 0 false []); reflexivity.
Defined.

(** ** The literal holds no newline character *)

Lemma count_char_mem (p : ascii) (s : string) :
  PyStr.count_char p s = 0 -> PyStr.mem p s = false.
Proof.
  induction s as [|c t IH]; [reflexivity|]. cbn [PyStr.count_char PyStr.mem].
  rewrite (Ascii.eqb_sym p c). destruct (Ascii.eqb c p); [discriminate|].
  exact IH.
Qed.

Lemma newlines_replaced (s : string) :
  PyStr.count_char newline (replace_chars (Is (CLit newline)) "\n" s) = 0.
Proof.
  induction s as [|c t IH]; [reflexivity|].
  cbn [replace_chars cset_mem cclass_mem]. rewrite count_char_app, IH.
  destruct (Ascii.eqb c newline) eqn:E; [reflexivity|].
  cbn [PyStr.count_char]. now rewrite E.
Qed.

Lemma literal_text_newlines (py_regex : string) (py_flags : Z) :
  PyStr.count_char newline (literal_text py_regex py_flags) = 0.
Proof.
  unfold literal_text. rewrite !count_char_app.
  rewrite balance_parentheses_count_other by discriminate.
  unfold stage_newlines, re_newline. rewrite sub_char, newlines_replaced.
  unfold handle_flags.
  destruct (truthy (Z.land py_flags IGNORECASE)),
    (truthy (Z.land py_flags MULTILINE)),
    (truthy (Z.land py_flags DOTALL)),
    (truthy (Z.land py_flags UNICODE)); reflexivity.
Qed.

(** X12.  The literal that a call returns never holds a newline character,
    whatever the pattern, the flags and the heap: the newline stage writes
    each one as a backslash and the letter n, and nothing after it adds
    one.  The literal begins with a slash. *)
Theorem literal_has_no_newline (py_regex : string) (py_flags : Z)
  (verbose : bool) (h : Store) :
  exists js warnings steps,
    observe (py_to_js_regex py_regex py_flags verbose h)
    = Some (Some js, warnings, steps)
    /\ PyStr.mem newline js = false
    /\ prefix "/" js = true
    /\ PyStr.mem newline (stage_newlines py_regex py_flags) = false.
Proof.
  destruct (py_to_js_regex_closed_form py_regex py_flags verbose h)
    as (steps & E & _).
  exists (literal_text py_regex py_flags), (diagnostics py_regex py_flags), steps.
  repeat split.
  - exact E.
  - apply count_char_mem, literal_text_newlines.
  - unfold literal_text. apply (prefix_app "/").
  - apply count_char_mem. unfold stage_newlines, re_newline.
    rewrite sub_char. apply newlines_replaced.
Qed.

(** ** Quote characters around the pattern *)

Lemma lstrip_only (chars q u : string) :
  only_chars chars q = true ->
  PyStr.lstrip chars (q ++ u) = PyStr.lstrip chars u.
Proof.
  induction q as [|c q IH]; [reflexivity|]. cbn [only_chars].
  intro H. apply andb_prop in H. destruct H as [Hc Hq].
  cbn [append PyStr.lstrip]. rewrite Hc. now apply IH.
Qed.

Lemma rstrip_all (chars q : string) :
  only_chars chars q = true -> PyStr.rstrip chars q = "".
Proof.
  induction q as [|c q IH]; [reflexivity|]. cbn [only_chars].
  intro H. apply andb_prop in H. destruct H as [Hc Hq].
  cbn [PyStr.rstrip]. now rewrite (IH Hq), Hc.
Qed.

Lemma rstrip_only (chars q u : string) :
  only_chars chars q = true ->
  PyStr.rstrip chars (u ++ q) = PyStr.rstrip chars u.
Proof.
  intro Hq. induction u as [|c u IH].
  - cbn [append]. now apply rstrip_all.
  - cbn [append PyStr.rstrip]. now rewrite IH.
Qed.

Lemma strip_only (chars q q' t : string) :
  only_chars chars q = true -> only_chars chars q' = true ->
  PyStr.strip chars (q ++ t ++ q') = PyStr.strip chars t.
Proof.
  intros Hq Hq'. unfold PyStr.strip. rewrite lstrip_only by assumption.
  induction t as [|c t IH].
  - cbn [append]. rewrite <- (append_nil_r q') at 1.
    rewrite lstrip_only by assumption. reflexivity.
  - cbn [append PyStr.lstrip]. destruct (PyStr.mem c chars); [exact IH|].
    change (String c (t ++ q')) with (String c t ++ q').
    now apply rstrip_only.
Qed.

(** Everything after the stripping step is computed from the stripped
    pattern: two inputs that strip to the same text give the same literal
    and the same warnings, and their traces agree behind the entries that
    name the input and the stripped pattern. *)
Lemma stripped_determines (p p' : string) (py_flags : Z) :
  stage_stripped p = stage_stripped p' ->
  literal_text p py_flags = literal_text p' py_flags
  /\ diagnostics p py_flags = diagnostics p' py_flags
  /\ skipn (if String.eqb (stage_stripped p) p then 1 else 2) (trace p py_flags)
     = skipn (if String.eqb (stage_stripped p') p' then 1 else 2)
             (trace p' py_flags).
Proof.
  intro E.
  assert (E1 : stage_normalized p py_flags = stage_normalized p' py_flags)
    by (unfold stage_normalized; now rewrite E).
  assert (E2 : stage_converted p py_flags = stage_converted p' py_flags)
    by (unfold stage_converted; now rewrite E1).
  assert (E3 : stage_references p py_flags = stage_references p' py_flags)
    by (unfold stage_references; now rewrite E2).
  assert (E4 : stage_preserved p py_flags = stage_preserved p' py_flags)
    by (unfold stage_preserved; now rewrite E3).
  assert (E5 : stage_atomic p py_flags = stage_atomic p' py_flags)
    by (unfold stage_atomic; now rewrite E4).
  assert (E6 : stage_bell p py_flags = stage_bell p' py_flags)
    by (unfold stage_bell; now rewrite E5).
  assert (E7 : stage_escapes p py_flags = stage_escapes p' py_flags)
    by (unfold stage_escapes; now rewrite E6).
  assert (E8 : stage_newlines p py_flags = stage_newlines p' py_flags)
    by (unfold stage_newlines; now rewrite E7).
  assert (E9 : named_refs_found p py_flags = named_refs_found p' py_flags)
    by (unfold named_refs_found; now rewrite E2).
  assert (EL : literal_text p py_flags = literal_text p' py_flags)
    by (unfold literal_text; now rewrite E8).
  split; [assumption|]. split.
  - unfold diagnostics. now rewrite E4, E5, E6, E8, E9.
  - unfold trace. cbv zeta. rewrite EL, E1, E2, E3, E4, E5, E6, E8, E9.
    destruct (String.eqb (stage_stripped p) p),
      (String.eqb (stage_stripped p') p'); cbn [negb app skipn];
      reflexivity.
Qed.

(** X13.  Quote characters at either end of the pattern are not part of
    what is converted: any run of single and double quotes in front of the
    pattern body and any run behind it, paired or not, are stripped.  So,
    for either value of [verbose] and on any heap, the call returns the
    literal and the warnings of the body alone.  Without [verbose] the two
    calls are equal altogether, heap included.  With [verbose] each call
    returns the trace of its own input: the two traces agree behind their
    entries for the pattern as given and for the stripped pattern, which
    name the input and so may differ.  (The body is taken not to begin with
    the letter r, which the step before would strip.) *)
Theorem surrounding_quotes_dropped (q q' t : string) :
  only_chars quote_chars q = true ->
  only_chars quote_chars q' = true ->
  prefix "r" t = false ->
  stage_stripped (q ++ t ++ q') = stage_stripped t
  /\ (forall py_flags h,
        py_to_js_regex (q ++ t ++ q') py_flags false h
        = py_to_js_regex t py_flags false h)
  /\ forall py_flags verbose h,
       observe (py_to_js_regex (q ++ t ++ q') py_flags verbose h)
       = Some (Some (literal_text t py_flags), diagnostics t py_flags,
               if verbose then trace (q ++ t ++ q') py_flags else [])
       /\ observe (py_to_js_regex t py_flags verbose h)
          = Some (Some (literal_text t py_flags), diagnostics t py_flags,
                  if verbose then trace t py_flags else [])
       /\ skipn (if String.eqb (stage_stripped t) (q ++ t ++ q') then 1 else 2)
                (trace (q ++ t ++ q') py_flags)
          = skipn (if String.eqb (stage_stripped t) t then 1 else 2)
                  (trace t py_flags).
Proof.
  intros Hq Hq' Ht.
  assert (Hl : PyStr.lstrip "r" (q ++ t ++ q') = q ++ t ++ q').
  { apply lstrip_no_marker.
    destruct q as [|c q].
    - destruct t as [|d t].
      + destruct q' as [|e q']; [reflexivity|]. cbn [append only_chars] in *.
        apply andb_prop in Hq'. destruct Hq' as [He _].
        rewrite prefix_cons, prefix_nil, andb_true_r.
        destruct (Ascii.eqb_spec "r" e) as [<-|]; [discriminate | reflexivity].
      + cbn [append] in *. rewrite prefix_cons, prefix_nil, andb_true_r in *.
        assumption.
    - cbn [append only_chars] in *.
      apply andb_prop in Hq. destruct Hq as [Hc _].
      rewrite prefix_cons, prefix_nil, andb_true_r.
      destruct (Ascii.eqb_spec "r" c) as [<-|]; [discriminate | reflexivity]. }
  assert (E : stage_stripped (q ++ t ++ q') = stage_stripped t).
  { unfold stage_stripped. rewrite Hl, (lstrip_no_marker "r" t Ht).
    now apply strip_only. }
  split; [assumption|]. split.
  - intros py_flags h.
    unfold py_to_js_regex, try_block. cbn [andb when].
    fold (stage_stripped (q ++ t ++ q')). fold (stage_stripped t).
    now rewrite E.
  - intros py_flags verbose h.
    destruct (stripped_determines _ _ py_flags E) as (EL & ED & ET).
    rewrite !observe_py_to_js_regex, EL, ED.
    split; [reflexivity|]. split; [reflexivity|].
    rewrite E in ET. exact ET.
Qed.

Lemma surrounding_quotes_dropped_witness :
  stage_stripped (String dquote "'" ++ "a+b" ++ "'") = "a+b"
  /\ observe (py_to_js_regex (String dquote "'" ++ "a+b" ++ "'") 0 true [])
     = Some (Some "/a+b/", [],
             trace (String dquote "'" ++ "a+b" ++ "'") 0)
  /\ observe (py_to_js_regex "a+b" 0 true [])
     = Some (Some "/a+b/", [], trace "a+b" 0).
Proof.
  destruct (surrounding_quotes_dropped (String dquote "'") "'" "a+b"
              eq_refl eq_refl eq_refl) as (E & _ & H).
  destruct (H 0%Z true []) as (H1 & H2 & _).
  split; [exact E|]. split; [exact H1 | exact H2].
Defined.

(** ** Repetition of a single character class *)

Lemma char_run_app (cs : cset) (s : string) :
  s = fst (char_run cs s) ++ snd (char_run cs s).
Proof.
  induction s as [|c t IH]; [reflexivity|]. cbn [char_run].
  destruct (cset_mem cs c); [|reflexivity].
  destruct (char_run cs t) as [w r]. cbn [fst snd append] in *. now rewrite <- IH.
Qed.

(** The run stops at the end of the text or before a character that is not
    of the class. *)
Lemma char_run_stops (cs : cset) (s : string) :
  match snd (char_run cs s) with
  | EmptyString => True
  | String c _ => cset_mem cs c = false
  end.
Proof.
  induction s as [|c t IH]; [exact I|]. cbn [char_run].
  destruct (cset_mem cs c) eqn:E; [|exact E].
  now destruct (char_run cs t) as [w r].
Qed.

Lemma char_run_members (cs : cset) (s : string) (c : ascii) :
  PyStr.mem c (fst (char_run cs s)) = true -> cset_mem cs c = true.
Proof.
  induction s as [|d t IH]; [discriminate|]. cbn [char_run].
  destruct (cset_mem cs d) eqn:E; [|discriminate].
  destruct (char_run cs t) as [w r]. cbn [fst PyStr.mem] in *.
  intro H. apply orb_prop in H. destruct H as [H|H]; [|now apply IH].
  apply Ascii.eqb_eq in H. now subst.
Qed.

Lemma after_run_advance (cs : cset) (c : ascii) (t : string) (st : mstate) :
  rest st = String c t -> cset_mem cs c = true ->
  after_run cs (advance c t st) = after_run cs st.
Proof.
  intros E Hc. unfold after_run. cbn [advance rest prev caps]. rewrite E.
  cbn [char_run]. rewrite Hc. now destruct (char_run cs t) as [w r].
Qed.

Lemma after_run_stop (cs : cset) (st : mstate) :
  match rest st with
  | EmptyString => True
  | String c _ => cset_mem cs c = false
  end ->
  after_run cs st = st.
Proof.
  intro H. unfold after_run. destruct st as [p [|c t] cp]; cbn [rest prev caps] in *.
  - reflexivity.
  - cbn [char_run]. now rewrite H.
Qed.

(** A repetition of a class, greedy or lazy, followed by something that
    cannot start with a character of the class reads the whole run. *)
Lemma star_run (g : greed) (cs : cset) (k : kont) :
  (forall st c t, rest st = String c t -> cset_mem cs c = true -> k st = None) ->
  forall fuel st,
    length (rest st) <= fuel ->
    star_loop g (m (Char cs)) k fuel st = k (after_run cs st).
Proof.
  intros Hk. induction fuel as [|fuel IH]; intros st Hf.
  - destruct (rest st) as [|c t] eqn:E; [|simpl in Hf; lia].
    cbn [star_loop]. now rewrite after_run_stop by now rewrite E.
  - cbn [star_loop m]. destruct (rest st) as [|c t] eqn:E.
    + rewrite after_run_stop by now rewrite E. now destruct g, (k st).
    + destruct (cset_mem cs c) eqn:Ec.
      * cbn [advance rest].
        replace (length t <? length (String c t)) with true
          by (symmetry; apply Nat.ltb_lt; simpl; lia).
        rewrite IH by (cbn [advance rest]; simpl in Hf; lia).
        rewrite (after_run_advance cs c t st E Ec), (Hk st c t E Ec).
        now destruct g, (k (after_run cs st)).
      * rewrite after_run_stop by now rewrite E, Ec. now destruct g, (k st).
Qed.

(** A greedy repetition of a class reads the whole run when what follows
    succeeds there. *)
Lemma star_run_greedy (cs : cset) (k : kont) (x : mstate) :
  forall fuel st,
    length (rest st) <= fuel ->
    k (after_run cs st) = Some x ->
    star_loop Greedy (m (Char cs)) k fuel st = Some x.
Proof.
  induction fuel as [|fuel IH]; intros st Hf Hx.
  - destruct (rest st) as [|c t] eqn:E; [|simpl in Hf; lia].
    cbn [star_loop]. now rewrite after_run_stop in Hx by now rewrite E.
  - cbn [star_loop m]. destruct (rest st) as [|c t] eqn:E.
    + rewrite after_run_stop in Hx by now rewrite E. now rewrite Hx.
    + destruct (cset_mem cs c) eqn:Ec.
      * cbn [advance rest].
        replace (length t <? length (String c t)) with true
          by (symmetry; apply Nat.ltb_lt; simpl; lia).
        assert (Hd : star_loop Greedy (m (Char cs)) k fuel (advance c t st) = Some x).
        { apply IH; [cbn [advance rest]; simpl in Hf; lia|].
          now rewrite (after_run_advance cs c t st E Ec). }
        change (match star_loop Greedy (m (Char cs)) k fuel (advance c t st) with
                | Some y => Some y
                | None => k st
                end = Some x).
        now rewrite Hd.
      * rewrite after_run_stop in Hx by now rewrite E, Ec. now rewrite Hx.
Qed.

(** ** The comment rule of [handle_verbose_mode] *)

Lemma m_NotBehind (cs : cset) (k : kont) (st : mstate) :
  m (NotBehind cs) k st
  = match prev st with
    | Some c => if cset_mem cs c then None else k st
    | None => k st
    end.
Proof. reflexivity. Qed.

Lemma m_Eol (multiline : bool) (k : kont) (st : mstate) :
  m (Eol multiline) k st = if at_eol multiline (rest st) then k st else None.
Proof. reflexivity. Qed.

(** A line ends where the run of characters other than the newline
    stops. *)
Lemma at_eol_after_line (t : string) :
  at_eol true (snd (char_run Dot t)) = true.
Proof.
  pose proof (char_run_stops Dot t) as H.
  destruct (snd (char_run Dot t)) as [|c r]; [reflexivity|].
  cbn [cset_mem] in H. apply negb_false_iff in H. cbn [at_eol]. now rewrite H.
Qed.

Lemma char_run_length (cs : cset) (t : string) :
  length (snd (char_run cs t)) <= length t.
Proof.
  rewrite (char_run_app cs t) at 2. rewrite append_length. lia.
Qed.

(** One attempt of the comment pattern succeeds exactly at a [#] that is
    not directly behind a backslash, and reads to the end of the line. *)
Lemma match_here_comment (must_advance : bool) (p : option ascii) (s : string) :
  match_here re_comment must_advance p s
  = match s with
    | EmptyString => None
    | String c t =>
      if starts_comment p c
      then Some {| prev := last_or (Some c) (fst (char_run Dot t));
                   rest := snd (char_run Dot t);
                   caps := [] |}
      else None
    end.
Proof.
  unfold match_here, re_comment.
  rewrite m_Seq, m_NotBehind. cbn [prev].
  assert (Hbody :
    m (Seq (Lit "#") (Seq (Star Greedy (Char Dot)) (Eol true)))
      (fun st' => if must_advance && (length (rest st') =? length s)
                  then None else Some st')
      {| prev := p; rest := s; caps := [] |}
    = match s with
      | EmptyString => None
      | String c t =>
        if Ascii.eqb c "#"
        then Some {| prev := last_or (Some c) (fst (char_run Dot t));
                     rest := snd (char_run Dot t);
                     caps := [] |}
        else None
      end).
  { rewrite m_Seq, m_Lit. cbn [rest prev caps].
    destruct s as [|c t]; [reflexivity|].
    rewrite prefix_cons, prefix_nil, andb_true_r, (Ascii.eqb_sym "#" c).
    destruct (Ascii.eqb_spec c "#") as [->|ne]; [|reflexivity].
    cbn [length PyStr.drop last_or].
    rewrite m_Seq, m_Star. cbn [rest].
    rewrite star_run.
    - rewrite m_Eol. unfold after_run. cbn [rest prev caps].
      rewrite at_eol_after_line.
      pose proof (char_run_length Dot t) as L.
      match goal with
      | |- context [?a =? ?b] =>
        replace (a =? b) with false by (symmetry; apply Nat.eqb_neq; simpl; lia)
      end.
      now rewrite andb_false_r.
    - intros st c u E Hc. rewrite m_Eol, E. cbn [at_eol].
      cbn [cset_mem] in Hc. apply negb_true_iff in Hc. now rewrite Hc.
    - cbn [rest]. lia. }
  destruct p as [b|]; cbn [cset_mem cclass_mem].
  - destruct (Ascii.eqb b backslash) eqn:Eb.
    + destruct s as [|c t]; [reflexivity|].
      unfold starts_comment. rewrite Eb. cbn [negb]. now rewrite andb_false_r.
    + rewrite Hbody. destruct s as [|c t]; [reflexivity|].
      unfold starts_comment. rewrite Eb. cbn [negb]. now rewrite andb_true_r.
  - rewrite Hbody. destruct s as [|c t]; [reflexivity|].
    unfold starts_comment. now rewrite andb_true_r.
Qed.

(** Inside a comment everything up to the end of the line goes. *)
Lemma strip_comments_line (t : string) :
  forall p p',
    strip_comments true p t = strip_comments false p' (snd (char_run Dot t)).
Proof.
  induction t as [|c t IH]; intros p p'; [reflexivity|].
  cbn [strip_comments char_run cset_mem].
  destruct (Ascii.eqb_spec c newline) as [->|ne]; cbn [negb].
  - reflexivity.
  - rewrite (IH (Some c) p'). now destruct (char_run Dot t) as [w r].
Qed.

(** A search stops at the first comment. *)
Lemma search_comment (s : string) :
  forall must_advance p,
    match search re_comment must_advance p s with
    | None => strip_comments false p s = s
    | Some f =>
      strip_comments false p s
      = gap f ++ strip_comments false (after_prev f) (after f)
      /\ length (after f) < length s
    end.
Proof.
  induction s as [|c t IH]; intros ma p; cbn [search];
    rewrite match_here_comment.
  - reflexivity.
  - cbn [strip_comments]. destruct (starts_comment p c) eqn:E.
    + cbn [gap after after_prev rest prev append]. split.
      * apply strip_comments_line.
      * pose proof (char_run_length Dot t). simpl. lia.
    + specialize (IH false (Some c)).
      destruct (search re_comment false (Some c) t) as [f|].
      * cbn [gap after after_prev append]. destruct IH as [IH L].
        split; [now rewrite IH | simpl; lia].
      * now rewrite IH.
Qed.

Lemma scan_loop_comment (fuel : nat) :
  forall must_advance p s,
    length s < fuel ->
    join (map (fun '(g, _) => g ++ "")
              (fst (scan_loop fuel re_comment must_advance p s)))
    ++ snd (scan_loop fuel re_comment must_advance p s)
    = strip_comments false p s.
Proof.
  induction fuel as [|fuel IH]; intros ma p s Hf; [lia|].
  cbn [scan_loop]. pose proof (search_comment s ma p) as Hs.
  destruct (search re_comment ma p s) as [f|].
  - destruct Hs as [Hs L].
    specialize (IH (is_empty (whole (mo f))) (after_prev f) (after f)).
    destruct (scan_loop fuel re_comment _ (after_prev f) (after f)) as [segs tail].
    cbn [fst snd map join] in *. rewrite Hs, <- IH by lia.
    now rewrite append_nil_r, !append_assoc.
  - cbn [fst snd map join append]. now symmetry.
Qed.

Lemma sub_comment (s : string) :
  Re.sub re_comment (fun _ => "") s = strip_comments false None s.
Proof.
  unfold Re.sub, Re.scan.
  pose proof (scan_loop_comment (2 * length s + 1) false None s ltac:(lia)) as H.
  destruct (scan_loop (2 * length s + 1) re_comment false None s) as [segs tail].
  cbn [fst snd] in H. now rewrite <- H.
Qed.

(** What is left holds no comment: taking comments away twice is taking
    them away once. *)
Lemma strip_comments_twice (s : string) :
  (forall p, strip_comments false p (strip_comments false p s)
             = strip_comments false p s)
  /\ (forall p q, strip_comments false q (strip_comments true p s)
                  = strip_comments true p s).
Proof.
  induction s as [|c t [IH1 IH2]]; [split; reflexivity|]. split.
  - intro p. cbn [strip_comments]. destruct (starts_comment p c) eqn:E.
    + apply IH2.
    + cbn [strip_comments]. now rewrite E, IH1.
  - intros p q. cbn [strip_comments].
    destruct (Ascii.eqb_spec c newline) as [->|ne].
    + cbn [strip_comments].
      replace (starts_comment q newline) with false
        by (unfold starts_comment; reflexivity).
      now rewrite IH1.
    + apply IH2.
Qed.

Lemma strip_comments_none (s : string) :
  forall p, has_comment p s = false -> strip_comments false p s = s.
Proof.
  induction s as [|c t IH]; intros p H; [reflexivity|].
  cbn [has_comment] in H. apply orb_false_elim in H. destruct H as [Hc Ht].
  cbn [strip_comments]. unfold starts_comment. rewrite Hc. now rewrite IH.
Qed.

Lemma strip_comments_at (a b : string) :
  forall p,
    has_comment p a = false ->
    last_or p a <> Some backslash ->
    strip_comments false p (a ++ String "#" b)
    = a ++ strip_comments true (Some "#"%char) b.
Proof.
  induction a as [|c a IH]; intros p Ha Hl.
  - cbn [append strip_comments last_or] in *. unfold starts_comment.
    destruct p as [x|]; [|reflexivity].
    destruct (Ascii.eqb_spec x backslash) as [->|ne]; [congruence | reflexivity].
  - cbn [has_comment] in Ha. apply orb_false_elim in Ha. destruct Ha as [Hc Ha].
    cbn [append strip_comments last_or] in *. unfold starts_comment.
    rewrite Hc. now rewrite IH.
Qed.

Lemma strip_comments_rest_of_line (b : string) :
  forall p, PyStr.mem newline b = false -> strip_comments true p b = "".
Proof.
  induction b as [|c b IH]; intros p H; [reflexivity|].
  cbn [PyStr.mem] in H. apply orb_false_elim in H. destruct H as [Hc Hb].
  cbn [strip_comments]. rewrite (Ascii.eqb_sym c newline), Hc. now apply IH.
Qed.

(** X14.  The comment rule of [handle_verbose_mode] works line by line and
    looks at nothing but the character before a [#]: on each line it takes
    away everything from the first [#] that is not directly behind a
    backslash up to the end of the line, and leaves the newline.  The
    normalizer therefore treats a pattern and the pattern without its
    comments alike; and a pattern on one line is cut at its first such [#],
    wherever that stands, inside a character class or a group as well. *)
Theorem handle_verbose_mode_comments (regex : string) :
  Re.sub re_comment (fun _ => "") regex = strip_comments false None regex
  /\ handle_verbose_mode (strip_comments false None regex)
     = handle_verbose_mode regex
  /\ (forall a b,
        regex = a ++ "#" ++ b ->
        has_comment None a = false ->
        last_or None a <> Some backslash ->
        PyStr.mem newline b = false ->
        handle_verbose_mode regex = handle_verbose_mode a).
Proof.
  split; [apply sub_comment|]. split.
  - unfold handle_verbose_mode. rewrite !sub_comment.
    now destruct (strip_comments_twice regex) as [-> _].
  - intros a b -> Ha Hl Hb. unfold handle_verbose_mode. rewrite !sub_comment.
    rewrite (strip_comments_none a None Ha).
    cbn [append]. rewrite (strip_comments_at a b None Ha Hl).
    now rewrite (strip_comments_rest_of_line b _ Hb), append_nil_r.
Qed.

(** ** The layout rule of [handle_verbose_mode] without character classes *)

Lemma m_Ahead (r : regex) (k : kont) (st : mstate) :
  m (Ahead r) k st
  = match m r Some st with
    | Some st' => k (with_caps st st')
    | None => None
    end.
Proof. reflexivity. Qed.

Lemma bracket_free_app (a b : string) :
  bracket_free (a ++ b) = bracket_free a && bracket_free b.
Proof.
  unfold bracket_free. rewrite !mem_app.
  destruct (PyStr.mem "[" a), (PyStr.mem "]" a), (PyStr.mem "[" b),
    (PyStr.mem "]" b); reflexivity.
Qed.

Lemma bracket_free_suffix (a b : string) :
  bracket_free (a ++ b) = true -> bracket_free b = true.
Proof. rewrite bracket_free_app. intro H. now apply andb_prop in H. Qed.

Lemma bracket_free_tail (c : ascii) (t : string) :
  bracket_free (String c t) = true -> bracket_free t = true.
Proof. apply (bracket_free_suffix (String c "") t). Qed.

Lemma bracket_free_run (cs : cset) (t : string) :
  bracket_free t = true -> bracket_free (snd (char_run cs t)) = true.
Proof.
  intro H. rewrite (char_run_app cs t) in H. now apply bracket_free_suffix in H.
Qed.

(** In a text without brackets every character is one for "[^[\]]". *)
Lemma char_run_no_bracket (s : string) :
  bracket_free s = true ->
  char_run (NotIn [CLit "["%char; CLit "]"%char]) s = (s, "").
Proof.
  induction s as [|c t IH]; intro H; [reflexivity|].
  pose proof (bracket_free_tail c t H) as Ht.
  unfold bracket_free in H. cbn [PyStr.mem] in H.
  cbn [char_run cset_mem existsb cclass_mem].
  rewrite !(Ascii.eqb_sym c).
  destruct (Ascii.eqb "[" c); [discriminate|].
  destruct (Ascii.eqb "]" c); [now rewrite andb_false_r in H|].
  cbn [orb negb]. now rewrite (IH Ht).
Qed.

(** A repetition whose body cannot match is over at once. *)
Lemma star_loop_body_none (g : greed) (r : regex) (k : kont) (st : mstate) :
  (forall k', m r k' st = None) ->
  forall fuel, star_loop g (m r) k fuel st = k st.
Proof.
  intros H [|fuel]; [reflexivity|]. cbn [star_loop].
  rewrite H. now destruct g, (k st).
Qed.

(** The group of the look-ahead ends with a character class: it needs an
    opening bracket. *)
Lemma class_group_needs_bracket (r1 r2 r3 : regex) (st st' : mstate) :
  matches (Seq r1 (Seq r2 (Seq (Lit "[") r3))) st st' ->
  PyStr.mem "["%char (rest st) = true.
Proof.
  intro H.
  apply matches_Seq_inv in H. destruct H as (st1 & H1 & H).
  apply matches_Seq_inv in H. destruct H as (st2 & H2 & H).
  apply matches_Seq_inv in H. destruct H as (st3 & H3 & _).
  apply matches_reads in H1, H2. destruct H1 as (w1 & E1 & _), H2 as (w2 & E2 & _).
  apply (matches_Lit "[") in H3. destruct H3 as (E3 & _).
  rewrite E1, E2, E3, !mem_app. cbn [append PyStr.mem]. rewrite Ascii.eqb_refl.
  now rewrite !orb_true_r.
Qed.

(** Where no bracket follows, the look-ahead succeeds and reads what is
    left. *)
Lemma outside_class_bracket_free (st : mstate) :
  bracket_free (rest st) = true ->
  m re_outside_class Some st
  = Some (after_run (NotIn [CLit "["%char; CLit "]"%char]) st).
Proof.
  intro H. unfold re_outside_class.
  rewrite m_Seq, m_Star, star_loop_body_none.
  - unfold no_bracket. rewrite m_Seq, m_Star.
    apply star_run_greedy; [lia|].
    rewrite m_Eol. unfold after_run at 1. cbn [rest].
    now rewrite (char_run_no_bracket _ H).
  - intro k'.
    match goal with |- ?lhs = None => destruct lhs as [x|] eqn:E end;
      [|reflexivity].
    apply m_sound in E. destruct E as (st' & Hm & _).
    apply class_group_needs_bracket in Hm.
    unfold bracket_free in H. now rewrite Hm in H.
Qed.

Lemma without_space_run (t : string) :
  without_space t = without_space (snd (char_run (Is CSpace) t)).
Proof.
  unfold without_space. induction t as [|c t IH]; [reflexivity|].
  cbn [char_run cset_mem cclass_mem filter_chars].
  destruct (PyStr.isspace c) eqn:E; cbn [negb].
  - rewrite IH. now destruct (char_run (Is CSpace) t) as [w r].
  - cbn [snd filter_chars]. now rewrite E.
Qed.

(** In a text without brackets one attempt of the layout pattern succeeds
    exactly at a white-space character, and reads the whole run of white
    space. *)
Lemma match_here_layout (must_advance : bool) (p : option ascii) (s : string) :
  bracket_free s = true ->
  match_here re_layout must_advance p s
  = match s with
    | EmptyString => None
    | String c t =>
      if PyStr.isspace c
      then Some {| prev := last_or (Some c) (fst (char_run (Is CSpace) t));
                   rest := snd (char_run (Is CSpace) t);
                   caps := [] |}
      else None
    end.
Proof.
  intro H. unfold match_here, re_layout, Plus.
  rewrite !m_Seq, m_Char. cbn [rest].
  destruct s as [|c t]; [reflexivity|].
  cbn [cset_mem cclass_mem]. destruct (PyStr.isspace c); [|reflexivity].
  rewrite m_Star. apply star_run_greedy; [lia|].
  rewrite m_Ahead, outside_class_bracket_free.
  - unfold after_run, with_caps. cbn [advance rest prev caps].
    pose proof (char_run_length (Is CSpace) t) as L.
    match goal with
    | |- context [?a =? ?b] =>
      replace (a =? b) with false by (symmetry; apply Nat.eqb_neq; simpl; lia)
    end.
    now rewrite andb_false_r.
  - unfold after_run. cbn [advance rest].
    apply bracket_free_run. now apply bracket_free_tail in H.
Qed.

Lemma search_layout (s : string) :
  forall must_advance p,
    bracket_free s = true ->
    match search re_layout must_advance p s with
    | None => without_space s = s
    | Some f =>
      without_space s = gap f ++ without_space (after f)
      /\ length (after f) < length s
      /\ bracket_free (after f) = true
    end.
Proof.
  induction s as [|c t IH]; intros ma p H; cbn [search];
    rewrite match_here_layout by assumption.
  - reflexivity.
  - pose proof (bracket_free_tail c t H) as Ht.
    destruct (PyStr.isspace c) eqn:E.
    + cbn [gap after rest append]. repeat split.
      * rewrite <- without_space_run. unfold without_space. cbn [filter_chars].
        now rewrite E.
      * pose proof (char_run_length (Is CSpace) t). simpl. lia.
      * now apply bracket_free_run.
    + specialize (IH false (Some c) Ht).
      unfold without_space in *. cbn [filter_chars]. rewrite E. cbn [negb].
      destruct (search re_layout false (Some c) t) as [f|].
      * cbn [gap after append]. destruct IH as (IH & L & B).
        repeat split; [now rewrite IH | simpl; lia | assumption].
      * now rewrite IH.
Qed.

Lemma scan_loop_layout (fuel : nat) :
  forall must_advance p s,
    bracket_free s = true ->
    length s < fuel ->
    join (map (fun '(g, _) => g ++ "")
              (fst (scan_loop fuel re_layout must_advance p s)))
    ++ snd (scan_loop fuel re_layout must_advance p s)
    = without_space s.
Proof.
  induction fuel as [|fuel IH]; intros ma p s H Hf; [lia|].
  cbn [scan_loop]. pose proof (search_layout s ma p H) as Hs.
  destruct (search re_layout ma p s) as [f|].
  - destruct Hs as (Hs & L & B).
    specialize (IH (is_empty (whole (mo f))) (after_prev f) (after f) B).
    destruct (scan_loop fuel re_layout _ (after_prev f) (after f)) as [segs tail].
    cbn [fst snd map join] in *. rewrite Hs, <- IH by lia.
    now rewrite append_nil_r, !append_assoc.
  - cbn [fst snd map join append]. now symmetry.
Qed.

Lemma sub_layout (s : string) :
  bracket_free s = true ->
  Re.sub re_layout (fun _ => "") s = without_space s.
Proof.
  intro H. unfold Re.sub, Re.scan.
  pose proof (scan_loop_layout (2 * length s + 1) false None s H ltac:(lia)) as E.
  destruct (scan_loop (2 * length s + 1) re_layout false None s) as [segs tail].
  cbn [fst snd] in E. now rewrite <- E.
Qed.

(** ** Substituting for a literal *)

Lemma drop_length (n : nat) (s : string) : length (PyStr.drop n s) <= length s.
Proof.
  revert s. induction n as [|n IH]; intros [|c t]; simpl; try lia.
  specialize (IH t). lia.
Qed.

Section LiteralSub.

Variable x : ascii.
Variable u : string.
Variable new : string.

Local Abbreviation a := (String x u).

Lemma match_here_literal (must_advance : bool) (p : option ascii) (s : string) :
  match_here (Lit a) must_advance p s
  = if prefix a s
    then Some {| prev := last_or p a;
                 rest := PyStr.drop (length a) s;
                 caps := [] |}
    else None.
Proof.
  unfold match_here. rewrite m_Lit. cbn [rest prev caps].
  destruct (prefix a s) eqn:E; [|reflexivity].
  apply prefix_inv in E.
  assert (L : length (PyStr.drop (length a) s) <> length s).
  { rewrite E at 2. rewrite append_length. simpl. lia. }
  apply Nat.eqb_neq in L. cbn [rest]. now rewrite L, andb_false_r.
Qed.

Lemma search_literal (s : string) :
  forall must_advance p,
    match search (Lit a) must_advance p s with
    | None => PyStr.replace a new s = s
    | Some f =>
      PyStr.replace a new s = gap f ++ new ++ PyStr.replace a new (after f)
      /\ length (after f) < length s
    end.
Proof.
  induction s as [|c t IH]; intros ma p; cbn [search];
    rewrite match_here_literal.
  - reflexivity.
  - rewrite replace_cons. destruct (prefix a (String c t)) eqn:E.
    + cbn [gap after rest append length PyStr.drop]. split; [reflexivity|].
      pose proof (drop_length (length u) t). simpl. lia.
    + specialize (IH false (Some c)).
      destruct (search (Lit a) false (Some c) t) as [f|].
      * cbn [gap after append]. destruct IH as [IH L].
        split; [now rewrite IH | simpl; lia].
      * now rewrite IH.
Qed.

Lemma scan_loop_literal (fuel : nat) :
  forall must_advance p s,
    length s < fuel ->
    join (map (fun '(g, _) => g ++ new)
              (fst (scan_loop fuel (Lit a) must_advance p s)))
    ++ snd (scan_loop fuel (Lit a) must_advance p s)
    = PyStr.replace a new s.
Proof.
  induction fuel as [|fuel IH]; intros ma p s Hf; [lia|].
  cbn [scan_loop]. pose proof (search_literal s ma p) as Hs.
  destruct (search (Lit a) ma p s) as [f|].
  - destruct Hs as [Hs L].
    specialize (IH (is_empty (whole (mo f))) (after_prev f) (after f)).
    destruct (scan_loop fuel (Lit a) _ (after_prev f) (after f)) as [segs tail].
    cbn [fst snd map join] in *. rewrite Hs, <- IH by lia.
    now rewrite !append_assoc.
  - cbn [fst snd map join append]. now symmetry.
Qed.

(** [re.sub] of a literal pattern with a constant replacement is
    [str.replace]. *)
Lemma sub_literal (s : string) :
  Re.sub (Lit a) (fun _ => new) s = PyStr.replace a new s.
Proof.
  unfold Re.sub, Re.scan.
  pose proof (scan_loop_literal (2 * length s + 1) false None s ltac:(lia)) as H.
  destruct (scan_loop (2 * length s + 1) (Lit a) false None s) as [segs tail].
  cbn [fst snd] in H. now rewrite <- H.
Qed.

End LiteralSub.

(** ** The normalizer on patterns without character classes *)

Lemma Subseq_mem (a b : string) (c : ascii) :
  Subseq a b -> PyStr.mem c a = true -> PyStr.mem c b = true.
Proof.
  induction 1 as [|d a b _ IH|d a b _ IH]; cbn [PyStr.mem]; intro H.
  - assumption.
  - apply orb_prop in H. destruct H as [->|H]; [reflexivity|].
    rewrite (IH H). apply orb_true_r.
  - rewrite (IH H). apply orb_true_r.
Qed.

Lemma Subseq_drop (n : nat) (s : string) : Subseq (PyStr.drop n s) s.
Proof.
  revert s. induction n as [|n IH]; intros [|c t]; cbn [PyStr.drop];
    try apply Subseq_refl.
  apply Subseq_skip, IH.
Qed.

Lemma Subseq_trans (a b c : string) : Subseq a b -> Subseq b c -> Subseq a c.
Proof.
  intros Hab Hbc. revert a Hab.
  induction Hbc as [|d b c _ IH|d b c _ IH]; intros a Hab.
  - assumption.
  - inversion Hab; subst; [apply Subseq_keep | apply Subseq_skip]; now apply IH.
  - apply Subseq_skip. now apply IH.
Qed.

Lemma replace_erase_subseq (x : ascii) (u s : string) :
  Subseq (PyStr.replace (String x u) "" s) s.
Proof.
  induction s as [s IH] using string_len_ind.
  destruct s as [|c t]; [constructor|].
  rewrite replace_cons. destruct (prefix (String x u) (String c t)).
  - cbn [append]. apply Subseq_skip.
    apply Subseq_trans with (b := PyStr.drop (length u) t).
    + apply IH. pose proof (drop_length (length u) t). simpl. lia.
    + apply Subseq_drop.
  - apply Subseq_keep. apply IH. simpl. lia.
Qed.

Lemma strip_comments_subseq (s : string) :
  forall b p, Subseq (strip_comments b p s) s.
Proof.
  induction s as [|c t IH]; intros b p; [constructor|].
  cbn [strip_comments].
  destruct b; [destruct (Ascii.eqb c newline) | destruct (starts_comment p c)];
    (apply Subseq_keep || apply Subseq_skip); apply IH.
Qed.

Lemma strip_space_nospace (s : string) :
  (forall c, PyStr.mem c s = true -> PyStr.isspace c = false) ->
  PyStr.strip_space s = s.
Proof.
  intro H. unfold PyStr.strip_space.
  assert (El : PyStr.lstrip_space s = s).
  { destruct s as [|c t]; [reflexivity|]. cbn [PyStr.lstrip_space].
    rewrite (H c); [reflexivity|]. cbn [PyStr.mem]. now rewrite Ascii.eqb_refl. }
  rewrite El. clear El.
  induction s as [|c t IH]; [reflexivity|]. cbn [PyStr.rstrip_space].
  rewrite IH.
  - destruct t; [|reflexivity].
    rewrite (H c); [reflexivity|]. cbn [PyStr.mem]. now rewrite Ascii.eqb_refl.
  - intros d Hd. apply H. cbn [PyStr.mem]. rewrite Hd. apply orb_true_r.
Qed.

Lemma without_space_members (s : string) (c : ascii) :
  PyStr.mem c (without_space s) = true -> PyStr.isspace c = false.
Proof.
  unfold without_space. rewrite mem_filter_chars. intro H.
  apply andb_prop in H. destruct H as [H _]. now apply negb_true_iff in H.
Qed.

(** X15.  On a pattern without square brackets [handle_verbose_mode] is
    three plain text operations one after the other: the comments go (from
    a [#] not directly behind a backslash to the end of its line), then
    every white-space character goes, wherever it stands, then every inline
    marker (?x) that is there by then.  The result holds no white space. *)
Theorem handle_verbose_mode_without_classes (regex : string) :
  bracket_free regex = true ->
  handle_verbose_mode regex
  = PyStr.replace "(?x)" "" (without_space (strip_comments false None regex))
  /\ (forall c, PyStr.mem c (handle_verbose_mode regex) = true ->
                PyStr.isspace c = false).
Proof.
  intro H.
  assert (Hm : forall c,
             PyStr.mem c (PyStr.replace "(?x)" ""
                            (without_space (strip_comments false None regex)))
             = true ->
             PyStr.isspace c = false).
  { intros c Hc. apply (without_space_members (strip_comments false None regex)).
    revert Hc. apply Subseq_mem, replace_erase_subseq. }
  assert (E : handle_verbose_mode regex
              = PyStr.replace "(?x)" ""
                  (without_space (strip_comments false None regex))).
  { unfold handle_verbose_mode. rewrite sub_comment, sub_layout.
    - unfold re_inline_verbose.
      rewrite (sub_literal "(" "?x)" ""). now apply strip_space_nospace.
    - unfold bracket_free in *.
      apply andb_prop in H. destruct H as [H1 H2].
      apply negb_true_iff in H1, H2.
      pose proof (strip_comments_subseq regex false None) as S.
      destruct (PyStr.mem "[" (strip_comments false None regex)) eqn:E1.
      + apply (Subseq_mem _ _ _ S) in E1. congruence.
      + destruct (PyStr.mem "]" (strip_comments false None regex)) eqn:E2;
          [|reflexivity].
        apply (Subseq_mem _ _ _ S) in E2. congruence. }
  split; [assumption|]. now rewrite E.
Qed.

Lemma handle_verbose_mode_without_classes_witness :
  handle_verbose_mode ("(?x) \d+  # digits" ++ String newline " \s* \#")
  = PyStr.replace "(?x)" ""
      (without_space
         (strip_comments false None
            ("(?x) \d+  # digits" ++ String newline " \s* \#")))
  /\ (forall c,
        PyStr.mem c
          (handle_verbose_mode ("(?x) \d+  # digits" ++ String newline " \s* \#"))
        = true ->
        PyStr.isspace c = false).
Proof.
  apply (handle_verbose_mode_without_classes
           ("(?x) \d+  # digits" ++ String newline " \s* \#")).
  reflexivity.
Defined.

(** ** The optional non-capturing group in [conservative_conversion] *)

Lemma char_run_exact (cs : cset) (w r : string) :
  (forall c, PyStr.mem c w = true -> cset_mem cs c = true) ->
  match r with
  | EmptyString => True
  | String c _ => cset_mem cs c = false
  end ->
  char_run cs (w ++ r) = (w, r).
Proof.
  intros Hw Hr. induction w as [|c w IH]; cbn [append char_run].
  - destruct r as [|c r]; [reflexivity|]. cbn [char_run]. now rewrite Hr.
  - rewrite (Hw c) by (cbn [PyStr.mem]; now rewrite Ascii.eqb_refl).
    rewrite IH; [reflexivity|].
    intros d Hd. apply Hw. cbn [PyStr.mem]. rewrite Hd. apply orb_true_r.
Qed.

(** One attempt of the optional-group pattern: the opener, then up to the
    first closing parenthesis, which has to be followed by a question
    mark. *)
Lemma match_here_optional (must_advance : bool) (p : option ascii) (s : string) :
  match_here re_optional_group must_advance p s
  = if prefix "(?:" s
    then
      if prefix ")?" (snd (char_run (NotIn [CLit ")"%char]) (PyStr.drop 3 s)))
      then Some {| prev := Some "?"%char;
                   rest := PyStr.drop 2
                             (snd (char_run (NotIn [CLit ")"%char])
                                            (PyStr.drop 3 s)));
                   caps := [] |}
      else None
    else None.
Proof.
  unfold match_here, re_optional_group.
  rewrite m_Seq, m_Lit. cbn [rest prev caps length].
  destruct (prefix "(?:" s) eqn:Ep; [|reflexivity].
  apply prefix_inv in Ep. cbn [length] in Ep.
  rewrite m_Seq, m_Star. cbn [rest]. rewrite star_run.
  - rewrite m_Lit. unfold after_run. cbn [rest prev caps length].
    destruct (prefix ")?" (snd (char_run (NotIn [CLit ")"%char]) (PyStr.drop 3 s))));
      [|reflexivity].
    cbn [last_or].
    pose proof (char_run_length (NotIn [CLit ")"%char]) (PyStr.drop 3 s)) as L1.
    pose proof (drop_length 2 (snd (char_run (NotIn [CLit ")"%char])
                                             (PyStr.drop 3 s)))) as L2.
    assert (L3 : length s = 3 + length (PyStr.drop 3 s))
      by (rewrite Ep at 1; now rewrite append_length).
    match goal with
    | |- context [?a =? ?b] =>
      replace (a =? b) with false by (symmetry; apply Nat.eqb_neq; lia)
    end.
    now rewrite andb_false_r.
  - intros st c t E Hc. rewrite m_Lit, E, prefix_cons.
    cbn [cset_mem existsb cclass_mem] in Hc.
    rewrite orb_false_r in Hc. apply negb_true_iff in Hc.
    now rewrite (Ascii.eqb_sym ")" c), Hc.
  - cbn [rest]. lia.
Qed.

Lemma prefix_other_head (x c : ascii) (w t : string) :
  Ascii.eqb x c = false -> prefix (String x w) (String c t) = false.
Proof. intro H. now rewrite prefix_cons, H. Qed.

(** Before the first opening parenthesis no attempt succeeds. *)
Lemma search_optional_pre (pre rest' : string) :
  PyStr.mem "("%char pre = false ->
  forall must_advance p,
    search re_optional_group must_advance p (pre ++ rest')
    = match search re_optional_group
              (match pre with EmptyString => must_advance | _ => false end)
              (last_or p pre) rest' with
      | Some f =>
        Some {| gap := pre ++ gap f; mo := mo f;
                after_prev := after_prev f; after := after f |}
      | None => None
      end.
Proof.
  induction pre as [|c pre IH]; intros H ma p.
  - cbn [append last_or]. now destruct (search re_optional_group ma p rest') as [[]|].
  - cbn [PyStr.mem] in H. apply orb_false_elim in H. destruct H as [Hc Hp].
    cbn [append search last_or]. rewrite match_here_optional.
    rewrite (prefix_other_head "(" c) by assumption.
    rewrite (IH Hp false (Some c)).
    destruct pre as [|d pre'];
      now destruct (search re_optional_group false _ rest') as [[]|].
Qed.

Lemma search_optional_none (post : string) :
  PyStr.mem "("%char post = false ->
  forall must_advance p, search re_optional_group must_advance p post = None.
Proof.
  induction post as [|c post IH]; intros H ma p; cbn [search];
    rewrite match_here_optional.
  - reflexivity.
  - cbn [PyStr.mem] in H. apply orb_false_elim in H. destruct H as [Hc Hp].
    rewrite (prefix_other_head "(" c) by assumption. now rewrite (IH Hp).
Qed.

Lemma search_here (r : regex) (must_advance : bool) (p : option ascii)
  (s : string) (st' : mstate) :
  match_here r must_advance p s = Some st' ->
  search r must_advance p s
  = Some {| gap := EmptyString;
            mo := {| whole := PyStr.take (length s - length (rest st')) s;
                     groups := caps st' |};
            after_prev := prev st';
            after := rest st' |}.
Proof. intro H. destruct s; cbn [search]; now rewrite H. Qed.

Lemma match_here_optional_hit (body post : string) (must_advance : bool)
  (p : option ascii) :
  PyStr.mem ")"%char body = false ->
  match_here re_optional_group must_advance p ("(?:" ++ body ++ ")?" ++ post)
  = Some {| prev := Some "?"%char; rest := post; caps := [] |}.
Proof.
  intro Hbody.
  assert (Hrun : char_run (NotIn [CLit ")"%char]) (body ++ ")?" ++ post)
                 = (body, ")?" ++ post)).
  { apply char_run_exact; [|reflexivity].
    intros c Hc. cbn [cset_mem existsb cclass_mem]. rewrite orb_false_r.
    apply negb_true_iff. destruct (Ascii.eqb_spec c ")") as [->|]; congruence. }
  rewrite match_here_optional, prefix_app.
  change (PyStr.drop 3 ("(?:" ++ body ++ ")?" ++ post)) with (body ++ ")?" ++ post).
  rewrite Hrun. cbn [snd]. rewrite prefix_app. reflexivity.
Qed.

(** The substitution wraps the one optional group that is there. *)
Lemma sub_optional_group (pre body post : string) :
  PyStr.mem "("%char pre = false ->
  PyStr.mem ")"%char body = false ->
  PyStr.mem "("%char post = false ->
  Re.sub re_optional_group (fun mt => "(?:" ++ whole mt ++ ")?")
         (pre ++ "(?:" ++ body ++ ")?" ++ post)
  = pre ++ "(?:(?:" ++ body ++ ")?)?" ++ post.
Proof.
  intros Hpre Hbody Hpost. unfold Re.sub, Re.scan.
  set (s := pre ++ "(?:" ++ body ++ ")?" ++ post).
  assert (Hs : search re_optional_group false None s
               = Some {| gap := pre;
                         mo := {| whole := "(?:" ++ body ++ ")?"; groups := [] |};
                         after_prev := Some "?"%char; after := post |}).
  { subst s. rewrite (search_optional_pre pre _ Hpre).
    rewrite (search_here _ _ _ _ _ (match_here_optional_hit body post _ _ Hbody)).
    cbn [gap mo after after_prev rest caps prev]. rewrite append_nil_r.
    do 3 f_equal.
    assert (E : ("(?:" ++ body ++ ")?") ++ post = "(?:" ++ body ++ ")?" ++ post)
      by (rewrite !append_assoc; reflexivity).
    rewrite <- E. apply take_app_length. }
  assert (Hf : 2 * length s + 1 = S (S (2 * length s - 1))).
  { subst s. rewrite !append_length. simpl. lia. }
  rewrite Hf. cbn [scan_loop]. rewrite Hs. cbn [mo whole after after_prev is_empty].
  rewrite (search_optional_none post Hpost).
  cbn [map join gap mo whole]. rewrite append_nil_r, !append_assoc.
  cbn [append]. rewrite ?append_assoc. reflexivity.
Qed.

Lemma contains_absent_head (x : ascii) (w s : string) :
  PyStr.mem x s = false -> PyStr.contains (String x w) s = false.
Proof.
  induction s as [|c t IH]; [reflexivity|]. cbn [PyStr.mem PyStr.contains].
  intro H. apply orb_false_elim in H. destruct H as [Hc Ht].
  rewrite (prefix_other_head x c) by assumption. now apply IH.
Qed.

Lemma contains_skip (x : ascii) (w u v : string) :
  PyStr.mem x u = false ->
  PyStr.contains (String x w) (u ++ v) = PyStr.contains (String x w) v.
Proof.
  induction u as [|c u IH]; [reflexivity|]. cbn [PyStr.mem append PyStr.contains].
  intro H. apply orb_false_elim in H. destruct H as [Hc Hu].
  rewrite (prefix_other_head x c) by assumption. now apply IH.
Qed.

(** Without a backslash and without a named group opener, the conversion
    is the wrapping substitution alone. *)
Lemma conservative_conversion_only_wraps (s : string) :
  PyStr.mem backslash s = false ->
  PyStr.contains "(?P<" s = false ->
  conservative_conversion s
  = Re.sub re_optional_group (fun mt => "(?:" ++ whole mt ++ ")?") s.
Proof.
  intros Hb Hn. unfold conservative_conversion.
  rewrite (replace_absent _ _ _ s) by now apply contains_absent_head.
  rewrite (replace_absent _ _ _ s) by now apply contains_absent_head.
  rewrite (sub_no_match re_named_group); [reflexivity|].
  intros x Hx. apply found_in_literal in Hx. congruence.
Qed.

(** X16.  [conservative_conversion] does not leave an optional
    non-capturing group as it is: it puts another optional non-capturing
    group around it.  For a pattern with no backslash whose only
    parentheses are those of one such group, the output is the input with
    the group wrapped once, and converting the output again wraps the group
    a second time: the conversion is not idempotent. *)
Theorem conservative_conversion_wraps_optional (pre body post : string) :
  PyStr.mem backslash (pre ++ body ++ post) = false ->
  PyStr.mem "("%char (pre ++ body ++ post) = false ->
  PyStr.mem ")"%char body = false ->
  conservative_conversion (pre ++ "(?:" ++ body ++ ")?" ++ post)
  = pre ++ "(?:(?:" ++ body ++ ")?)?" ++ post
  /\ conservative_conversion
       (conservative_conversion (pre ++ "(?:" ++ body ++ ")?" ++ post))
     = pre ++ "(?:(?:(?:" ++ body ++ ")?)?)?" ++ post.
Proof.
  intros Hb Ho Hc. rewrite !mem_app in Hb, Ho.
  apply orb_false_elim in Hb, Ho.
  destruct Hb as [Hb1 Hb], Ho as [Ho1 Ho].
  apply orb_false_elim in Hb, Ho.
  destruct Hb as [Hb2 Hb3], Ho as [Ho2 Ho3].
  assert (Hn : forall tail, PyStr.mem "("%char tail = false ->
                            PyStr.contains "(?P<" ("(?:" ++ tail) = false).
  { intros tail Ht. cbn [append PyStr.contains].
    rewrite !prefix_cons. cbn [Ascii.eqb Bool.eqb andb orb].
    now apply contains_absent_head. }
  assert (E1 : conservative_conversion (pre ++ "(?:" ++ body ++ ")?" ++ post)
               = pre ++ "(?:(?:" ++ body ++ ")?)?" ++ post).
  { rewrite conservative_conversion_only_wraps.
    - now apply sub_optional_group.
    - rewrite !mem_app, Hb1, Hb2, Hb3. reflexivity.
    - rewrite contains_skip by assumption. apply Hn.
      rewrite !mem_app, Ho2, Ho3. reflexivity. }
  split; [assumption|]. rewrite E1.
  rewrite conservative_conversion_only_wraps.
  - pose proof (sub_optional_group pre ("(?:" ++ body) (")?" ++ post)) as H.
    cbn [append] in H |- *. apply H; [assumption | | ].
    + cbn [PyStr.mem]. now rewrite Hc.
    + cbn [PyStr.mem]. now rewrite Ho3.
  - rewrite !mem_app, Hb1, Hb2, Hb3. reflexivity.
  - rewrite contains_skip by assumption.
    cbn [append PyStr.contains]. rewrite !prefix_cons.
    cbn [Ascii.eqb Bool.eqb andb orb].
    apply (Hn (body ++ ")?)?" ++ post)).
    rewrite !mem_app, Ho2, Ho3. reflexivity.
Qed.

Lemma conservative_conversion_wraps_optional_witness :
  conservative_conversion ("ab" ++ "(?:" ++ "c|d" ++ ")?" ++ "e")
  = "ab" ++ "(?:(?:" ++ "c|d" ++ ")?)?" ++ "e"
  /\ conservative_conversion
       (conservative_conversion ("ab" ++ "(?:" ++ "c|d" ++ ")?" ++ "e"))
     = "ab" ++ "(?:(?:(?:" ++ "c|d" ++ ")?)?)?" ++ "e".
Proof.
  apply (conservative_conversion_wraps_optional "ab" "c|d" "e"); reflexivity.
Defined.

(** ** Named groups in [conservative_conversion] *)

(** One attempt of the named-group pattern succeeds exactly where a named
    group opener is written, and reads exactly it. *)
Lemma match_here_named_group (must_advance : bool) (p : option ascii) (s : string) :
  match_here re_named_group must_advance p s
  = if named_group_at s
    then Some {| prev := Some ">"%char;
                 rest := PyStr.drop 1 (snd (char_run (Is CWord) (PyStr.drop 4 s)));
                 caps := [(1, fst (char_run (Is CWord) (PyStr.drop 4 s)))] |}
    else None.
Proof.
  unfold match_here, re_named_group, named_group_at.
  rewrite m_Seq, m_Lit. cbn [rest prev caps length].
  destruct (prefix "(?P<" s) eqn:Ep; [|reflexivity]. cbn [andb].
  apply prefix_inv in Ep. cbn [length] in Ep.
  set (u := PyStr.drop 4 s) in *.
  unfold word1, Plus. rewrite m_Seq, m_Group, m_Seq, m_Char. cbn [rest].
  destruct u as [|c t] eqn:Eu; [reflexivity|].
  cbn [cset_mem cclass_mem char_run]. destruct (isword c) eqn:Ew; [|reflexivity].
  rewrite m_Star, star_run.
  - unfold after_run. cbn [advance rest prev caps].
    pose proof (char_run_app (Is CWord) t) as Et.
    pose proof (char_run_length (Is CWord) t) as Lt.
    destruct (char_run (Is CWord) t) as [w r]. cbn [fst snd] in *.
    rewrite m_Lit. cbn [set_cap rest prev caps].
    destruct r as [|d t2]; [reflexivity|].
    rewrite prefix_cons, prefix_nil, andb_true_r, (Ascii.eqb_sym ">" d).
    destruct (Ascii.eqb_spec d ">") as [->|ne]; [|reflexivity].
    cbn [length PyStr.drop last_or].
    assert (Hlen : length t2 <> length s).
    { rewrite Ep, Et. cbn [append length]. rewrite append_length. simpl. lia. }
    apply Nat.eqb_neq in Hlen. rewrite Hlen, andb_false_r.
    unfold consumed. cbn [rest]. rewrite Et.
    change (String c (w ++ String ">" t2)) with (String c w ++ String ">" t2).
    now rewrite take_app_length.
  - intros st c' t' E' Ew'. rewrite m_Lit. cbn [set_cap rest]. rewrite E'.
    rewrite prefix_cons. cbn [cset_mem cclass_mem] in Ew'.
    destruct (Ascii.eqb_spec ">" c') as [<-|ne]; [discriminate | reflexivity].
  - cbn [advance rest]. lia.
Qed.

Lemma named_group_at_opener (c : ascii) (t : string) :
  Ascii.eqb "(" c = false -> named_group_at (String c t) = false.
Proof. intro H. unfold named_group_at. now rewrite (prefix_other_head "(" c). Qed.

(** Where no opening parenthesis stands, nothing is renamed. *)
Lemma rename_groups_skip (u t : string) :
  PyStr.mem "("%char u = false -> rename_groups (u ++ t) = u ++ rename_groups t.
Proof.
  induction u as [|c u IH]; [reflexivity|]. cbn [PyStr.mem].
  intro H. apply orb_false_elim in H. destruct H as [Hc Hu].
  cbn [append rename_groups]. rewrite (named_group_at_opener c _ Hc).
  now rewrite IH.
Qed.

Lemma word_chars_no_opener_after (w : string) :
  (forall c, PyStr.mem c w = true -> cset_mem (Is CWord) c = true) ->
  PyStr.mem "("%char ("<" ++ w) = false.
Proof.
  intro H. cbn [append PyStr.mem]. cbn [Ascii.eqb Bool.eqb orb].
  destruct (PyStr.mem "(" w) eqn:E; [|reflexivity].
  apply H in E. discriminate.
Qed.

Lemma rename_groups_hit (a b x : ascii) (t2 : string) :
  named_group_at (String a (String b (String x t2))) = true ->
  rename_groups (String a (String b (String x t2)))
  = String a (String b (rename_groups t2)).
Proof. intro H. cbn [rename_groups]. now rewrite H. Qed.

(** What is written at a named group opener, and what becomes of it. *)
Lemma rename_groups_at (s : string) :
  named_group_at s = true ->
  exists w t,
    char_run (Is CWord) (PyStr.drop 4 s) = (w, String ">" t)
    /\ s = "(?P<" ++ w ++ ">" ++ t
    /\ rename_groups s = "(?<" ++ w ++ ">" ++ rename_groups t.
Proof.
  intro H. pose proof H as H0. unfold named_group_at in H.
  apply andb_prop in H. destruct H as [Hp Hr].
  apply prefix_inv in Hp. cbn [length] in Hp.
  pose proof (char_run_app (Is CWord) (PyStr.drop 4 s)) as Ea.
  pose proof (char_run_members (Is CWord) (PyStr.drop 4 s)) as Hw.
  destruct (char_run (Is CWord) (PyStr.drop 4 s)) as [[|c w] [|d t]];
    try discriminate.
  apply Ascii.eqb_eq in Hr. subst d. cbn [fst snd] in *.
  exists (String c w), t. split; [reflexivity|].
  assert (Es : s = "(?P<" ++ String c w ++ ">" ++ t)
    by (rewrite Hp at 1; now rewrite Ea).
  split; [assumption|].
  assert (Hno : PyStr.mem "("%char ("<" ++ String c w) = false).
  { apply word_chars_no_opener_after. exact Hw. }
  rewrite Es in H0 |- *.
  change ("(?P<" ++ String c w ++ ">" ++ t)
    with (String "(" (String "?" (String "P" (("<" ++ String c w) ++ ">" ++ t))))
    in H0 |- *.
  rewrite (rename_groups_hit _ _ _ _ H0), (rename_groups_skip _ _ Hno).
  now rewrite (rename_groups_skip ">" t eq_refl).
Qed.

(** A search stops at the first named group opener. *)
Lemma search_named_group (s : string) :
  forall must_advance p,
    match search re_named_group must_advance p s with
    | None => rename_groups s = s
    | Some f =>
      rename_groups s
      = gap f ++ ("(?<" ++ group_text 1 (mo f) ++ ">") ++ rename_groups (after f)
      /\ length (after f) < length s
    end.
Proof.
  induction s as [|c t IH]; intros ma p; cbn [search];
    rewrite match_here_named_group.
  - reflexivity.
  - destruct (named_group_at (String c t)) eqn:E.
    + cbn [gap mo after rest caps]. unfold group_text, group.
      cbn [groups lookup Nat.eqb].
      destruct (rename_groups_at _ E) as (w & u & Er & Es & Eg).
      rewrite Er. cbn [fst snd PyStr.drop]. split.
      * rewrite Eg. cbn [append]. now rewrite !append_assoc.
      * rewrite Es, !append_length. simpl. lia.
    + specialize (IH false (Some c)). cbn [rename_groups]. rewrite E.
      destruct (search re_named_group false (Some c) t) as [f|].
      * cbn [gap mo after append]. destruct IH as [IH L].
        split; [now rewrite IH | simpl; lia].
      * now rewrite IH.
Qed.

Lemma scan_loop_named_group (fuel : nat) :
  forall must_advance p s,
    length s < fuel ->
    join (map (fun '(g, x) => g ++ "(?<" ++ group_text 1 x ++ ">")
              (fst (scan_loop fuel re_named_group must_advance p s)))
    ++ snd (scan_loop fuel re_named_group must_advance p s)
    = rename_groups s.
Proof.
  induction fuel as [|fuel IH]; intros ma p s Hf; [lia|].
  cbn [scan_loop]. pose proof (search_named_group s ma p) as Hs.
  destruct (search re_named_group ma p s) as [f|].
  - destruct Hs as [Hs L].
    specialize (IH (is_empty (whole (mo f))) (after_prev f) (after f)).
    destruct (scan_loop fuel re_named_group _ (after_prev f) (after f))
      as [segs tail].
    cbn [fst snd map join] in *. rewrite Hs, <- IH by lia.
    now rewrite !append_assoc.
  - cbn [fst snd map join append]. now symmetry.
Qed.

Lemma sub_named_group (s : string) :
  Re.sub re_named_group (fun mt => "(?<" ++ group_text 1 mt ++ ">") s
  = rename_groups s.
Proof.
  unfold Re.sub, Re.scan.
  pose proof (scan_loop_named_group (2 * length s + 1) false None s ltac:(lia)) as H.
  destruct (scan_loop (2 * length s + 1) re_named_group false None s)
    as [segs tail].
  cbn [fst snd] in H. now rewrite <- H.
Qed.

(** X17.  The named-group rule of [conservative_conversion] takes the
    letter P out of every named group opener and changes nothing else: an
    opener is the four characters of the Python form, a name of one or more
    word characters and the closing angle bracket, so an opener with an
    empty name or with another character in the name stays as it is.  The
    whole of [conservative_conversion] is the two anchor replacements, this
    renaming and the wrapping of optional groups, in that order. *)
Theorem conservative_conversion_named_groups (regex : string) :
  Re.sub re_named_group (fun mt => "(?<" ++ group_text 1 mt ++ ">") regex
  = rename_groups regex
  /\ conservative_conversion regex
     = Re.sub re_optional_group (fun mt => "(?:" ++ whole mt ++ ")?")
              (rename_groups (anchors_done regex))
  /\ (named_group_at regex = true ->
      exists name tail,
        regex = "(?P<" ++ name ++ ">" ++ tail
        /\ rename_groups regex = "(?<" ++ name ++ ">" ++ rename_groups tail)
  /\ rename_groups ("(?P<>" ++ regex) = "(?P<>" ++ rename_groups regex
  /\ rename_groups ("(?P<a-b>" ++ regex) = "(?P<a-b>" ++ rename_groups regex.
Proof.
  split; [apply sub_named_group|]. split.
  - unfold conservative_conversion, anchors_done. now rewrite sub_named_group.
  - split; [|split; reflexivity].
    intro H. destruct (rename_groups_at _ H) as (w & t & _ & Es & Eg). eauto.
Qed.

(** ** The self-test *)

(** The loop gives the verdicts of the cases taken one by one: a call does
    not depend on the calls before it. *)
Lemma run_cases_failures (cases : list (string * string * string * list string)) :
  forall i h, fst (run_cases i cases h) = Val (failures i cases).
Proof.
  induction cases as [|[[[py_regex flags] expected] expected_warnings] cases IH];
    intros i h; [reflexivity|].
  cbn [run_cases failures]. unfold bind at 1.
  destruct (observe_any_heap py_regex (parse_flags flags) false h) as [O _].
  destruct (py_to_js_regex_closed_form py_regex (parse_flags flags) false h)
    as (steps & E & _).
  rewrite <- O.
  destruct (py_to_js_regex py_regex (parse_flags flags) false h)
    as [[[[js w] s]|e] h1]; [|discriminate].
  cbn [observe] in *. unfold bind at 1, items at 1. unfold bind at 1.
  specialize (IH (S i) h1).
  destruct (run_cases (S i) cases h1) as [r h2]. cbn [fst] in IH. subst r.
  unfold ret. cbn [fst].
  now destruct (as_expected js (deref w h1) expected expected_warnings).
Qed.

(** X18.  The self-test of the module has forty cases and reports exactly
    one of them as failed, whatever the heap holds when it starts: case 33,
    the complex pattern converted with the flags m and x.  With the x flag
    the comment rule cuts that pattern at its [#], so that the literal
    returned is not the one the table expects. *)
Theorem run_tests_reports_one_failure (h : Store) :
  fst (run_tests h) = Val [33]
  /\ List.length test_cases = 40
  /\ (exists expected,
        nth_error test_cases 32
        = Some ("^(?:(?P<word>\w+)\s*:\s*(?P<number>\d+)\s*(?:#.*" ++ ")?\n?)+$",
                "mx", expected, [])
        /\ convert_fresh
             ("^(?:(?P<word>\w+)\s*:\s*(?P<number>\d+)\s*(?:#.*" ++ ")?\n?)+$")
             (parse_flags "mx") false
           = Some (Some "/^(?:(?<word>\w+)\s*:\s*(?<number>\d+)\s*(?:))/m", [], [])
        /\ expected <> "/^(?:(?<word>\w+)\s*:\s*(?<number>\d+)\s*(?:))/m").
Proof.
  split; [|split; [reflexivity|]].
  - unfold run_tests. rewrite run_cases_failures. apply f_equal.
    vm_compute. reflexivity.
  - eexists. split; [reflexivity|]. split; [vm_compute; reflexivity|].
    vm_compute. discriminate.
Qed.

(** ** The text that [handle_named_group_references] returns *)

Lemma rewrite_refs_skip (s : string) :
  forall k, rewrite_refs k s = rewrite_refs 0 (PyStr.drop k s).
Proof.
  induction s as [|c t IH]; intros [|k]; try reflexivity.
  cbn [rewrite_refs PyStr.drop]. apply IH.
Qed.

Lemma drop_app_length (a b : string) : PyStr.drop (length a) (a ++ b) = b.
Proof. induction a as [|c a IH]; [reflexivity | exact IH]. Qed.

(** What becomes of a named back-reference written at the start. *)
Lemma rewrite_refs_at (s w u : string) :
  named_ref_at s = Some (w, u) ->
  rewrite_refs 0 s = "\k<" ++ w ++ ">" ++ rewrite_refs 0 u.
Proof.
  intro H. destruct (named_ref_at_shape s w u H) as [Es _].
  destruct s as [|c t]; [discriminate|].
  cbn [rewrite_refs]. rewrite H, rewrite_refs_skip. do 4 f_equal.
  cbn [append] in Es. injection Es as _ Et. rewrite Et.
  replace (String "?" (String "P" (String "=" (w ++ String ")" u))))
    with (("?P=" ++ w ++ ")") ++ u) by (cbn [append]; now rewrite append_assoc).
  replace (length w + 4) with (length ("?P=" ++ w ++ ")"))
    by (cbn [append length]; rewrite append_length; simpl; lia).
  now rewrite drop_app_length.
Qed.

(** A search stops at the first named back-reference. *)
Lemma search_named_ref_text (s : string) :
  forall must_advance p,
    match search re_named_ref must_advance p s with
    | None => rewrite_refs 0 s = s
    | Some f =>
      rewrite_refs 0 s
      = gap f ++ ("\k<" ++ group_str 1 (mo f) ++ ">") ++ rewrite_refs 0 (after f)
      /\ length (after f) < length s
    end.
Proof.
  induction s as [|c t IH]; intros ma p; cbn [search];
    rewrite match_here_named_ref.
  - reflexivity.
  - destruct (named_ref_at (String c t)) as [[w u]|] eqn:E.
    + cbn [gap mo after rest caps]. unfold group_str, group.
      cbn [groups lookup Nat.eqb]. split.
      * rewrite (rewrite_refs_at _ _ _ E). cbn [append].
        now rewrite !append_assoc.
      * apply named_ref_at_shape in E. destruct E as [E _].
        rewrite E, !append_length. simpl. lia.
    + specialize (IH false (Some c)). cbn [rewrite_refs]. rewrite E.
      destruct (search re_named_ref false (Some c) t) as [f|].
      * cbn [gap mo after append]. destruct IH as [IH L].
        split; [now rewrite IH | simpl; lia].
      * now rewrite IH.
Qed.

Lemma scan_loop_named_ref_text (fuel : nat) :
  forall must_advance p s,
    length s < fuel ->
    join (map (fun '(g, x) => g ++ "\k<" ++ group_str 1 x ++ ">")
              (fst (scan_loop fuel re_named_ref must_advance p s)))
    ++ snd (scan_loop fuel re_named_ref must_advance p s)
    = rewrite_refs 0 s.
Proof.
  induction fuel as [|fuel IH]; intros ma p s Hf; [lia|].
  cbn [scan_loop]. pose proof (search_named_ref_text s ma p) as Hs.
  destruct (search re_named_ref ma p s) as [f|].
  - destruct Hs as [Hs L].
    specialize (IH (is_empty (whole (mo f))) (after_prev f) (after f)).
    destruct (scan_loop fuel re_named_ref _ (after_prev f) (after f))
      as [segs tail].
    cbn [fst snd map join] in *. rewrite Hs, <- IH by lia.
    now rewrite !append_assoc.
  - cbn [fst snd map join append]. now symmetry.
Qed.

Lemma sub_named_ref (s : string) :
  Re.sub re_named_ref (fun mt => "\k<" ++ group_str 1 mt ++ ">") s
  = rewrite_refs 0 s.
Proof.
  unfold Re.sub, Re.scan.
  pose proof (scan_loop_named_ref_text (2 * length s + 1) false None s
                ltac:(lia)) as H.
  destruct (scan_loop (2 * length s + 1) re_named_ref false None s)
    as [segs tail].
  cbn [fst snd] in H. now rewrite <- H.
Qed.

(** X19.  [handle_named_group_references] as a function of the text: on
    any heap it returns the pattern with every named back-reference (the
    four characters of the Python opener, a name of one or more word
    characters, a closing parenthesis) written as a backslash, the letter k
    and the name in angle brackets, and a fresh list that holds one warning
    for each of them, in the order in which they are written; nothing else
    of the pattern changes and no older object of the heap is touched. *)
Theorem handle_named_group_references_text (regex : string) (h : Store) :
  handle_named_group_references regex h
  = (Val (rewrite_refs 0 regex, Loc (List.length h)),
     (h ++ [map named_ref_warning (named_refs_in regex)])%list)
  /\ (forall name tail,
        named_ref_at regex = Some (name, tail) ->
        regex = "(?P=" ++ name ++ ")" ++ tail
        /\ rewrite_refs 0 regex = "\k<" ++ name ++ ">" ++ rewrite_refs 0 tail)
  /\ (named_refs_in regex = [] -> rewrite_refs 0 regex = regex).
Proof.
  split; [|split].
  - rewrite handle_named_group_references_run, sub_named_ref.
    now rewrite <- scan_named_ref, map_map.
  - intros name tail H. split; [now apply named_ref_at_shape in H|].
    now apply rewrite_refs_at.
  - induction regex as [|c t IH]; [reflexivity|].
    cbn [named_refs_in rewrite_refs].
    destruct (named_ref_at (String c t)) as [[w u]|]; [discriminate|].
    intro H. now rewrite (IH H).
Qed.

(** ** The stripping step in the conversion *)

Lemma lstrip_split (chars t : string) :
  exists q, only_chars chars q = true /\ t = q ++ PyStr.lstrip chars t.
Proof.
  induction t as [|c t IH]; [now exists ""|]. cbn [PyStr.lstrip].
  destruct (PyStr.mem c chars) eqn:Ec; [|now exists ""].
  destruct IH as (q & Hq & E). exists (String c q). cbn [only_chars append].
  rewrite Ec, Hq. split; [reflexivity | now rewrite <- E].
Qed.

Lemma rstrip_split (chars u : string) :
  exists q, only_chars chars q = true /\ u = PyStr.rstrip chars u ++ q.
Proof.
  induction u as [|c u IH]; [now exists ""|]. cbn [PyStr.rstrip].
  destruct IH as (q & Hq & E).
  destruct (PyStr.rstrip chars u) as [|d r] eqn:Er.
  - cbn [append] in E. subst u. destruct (PyStr.mem c chars) eqn:Ec.
    + exists (String c q). cbn [only_chars append]. now rewrite Ec, Hq.
    + exists q. now split.
  - exists q. split; [assumption|]. cbn [append] in E |- *. now rewrite <- E.
Qed.

(** [strip] takes away a run of [chars] at either end, and nothing else. *)
Lemma strip_split (chars t : string) :
  exists q q',
    only_chars chars q = true /\ only_chars chars q' = true
    /\ t = q ++ PyStr.strip chars t ++ q'.
Proof.
  destruct (lstrip_split chars t) as (q & Hq & E).
  destruct (rstrip_split chars (PyStr.lstrip chars t)) as (q' & Hq' & E').
  exists q, q'. unfold PyStr.strip. now rewrite <- E', <- E.
Qed.

Lemma lstrip_head (chars t : string) :
  match PyStr.lstrip chars t with
  | EmptyString => True
  | String c _ => PyStr.mem c chars = false
  end.
Proof.
  induction t as [|c t IH]; [exact I|]. cbn [PyStr.lstrip].
  now destruct (PyStr.mem c chars) eqn:Ec.
Qed.

Lemma rstrip_head (chars : string) (c : ascii) (u : string) :
  match PyStr.rstrip chars (String c u) with
  | EmptyString => True
  | String d _ => d = c
  end.
Proof.
  cbn [PyStr.rstrip]. destruct (PyStr.rstrip chars u); [|reflexivity].
  now destruct (PyStr.mem c chars).
Qed.

Lemma rstrip_last (chars u : string) :
  match last_or None (PyStr.rstrip chars u) with
  | Some c => PyStr.mem c chars = false
  | None => True
  end.
Proof.
  induction u as [|c u IH]; [exact I|]. cbn [PyStr.rstrip].
  destruct (PyStr.rstrip chars u) as [|d r].
  - now destruct (PyStr.mem c chars) eqn:Ec.
  - exact IH.
Qed.

(** What [strip] returns neither begins nor ends with one of [chars]. *)
Lemma strip_bare (chars t : string) : bare chars (PyStr.strip chars t) = true.
Proof.
  unfold bare, PyStr.strip. apply andb_true_intro. split.
  - pose proof (lstrip_head chars t) as Hh.
    destruct (PyStr.lstrip chars t) as [|c u]; [reflexivity|].
    pose proof (rstrip_head chars c u) as Hr.
    destruct (PyStr.rstrip chars (String c u)) as [|d r]; [reflexivity|].
    subst d. now rewrite Hh.
  - pose proof (rstrip_last chars (PyStr.lstrip chars t)) as Hl.
    destruct (last_or None (PyStr.rstrip chars (PyStr.lstrip chars t)));
      [now rewrite Hl | reflexivity].
Qed.

Lemma rep_length (n : nat) (c : ascii) : length (rep n c) = n.
Proof. induction n as [|n IH]; [reflexivity|]. cbn [rep length]. now rewrite IH. Qed.

(** With at least one marker in front, stripping changes the pattern. *)
Lemma stripped_differs (n : nat) (t : string) :
  0 < n -> String.eqb (PyStr.strip quote_chars t) (rep n "r" ++ t) = false.
Proof.
  intro Hn. apply String.eqb_neq. intro E.
  destruct (strip_split quote_chars t) as (q & q' & _ & _ & Et).
  apply (f_equal length) in E, Et.
  rewrite !append_length, rep_length in *. lia.
Qed.

(** C9.  Whatever the number [n] of marker characters r in front of a
    pattern body [t] that does not itself begin with r, the stripping step
    of [py_to_js_regex] removes all [n] of them and then the quote
    characters at either end of what is left: the stripped pattern is [t]
    without the run of quotes in front of it and the run behind it, and it
    neither begins nor ends with a quote.  The stages that follow work on
    that stripped pattern: the first of them receives it, and the call, on
    any heap and for either value of [verbose], returns the literal and the
    warnings of the body [t] alone (without [verbose], the very result of
    the call on [t], heap included).  With [verbose] and at least one
    marker, the second step recorded, directly behind the one for the
    pattern as given, names the stripped pattern.  When the stripped
    pattern is inert and the VERBOSE bit is not set, the literal is the
    stripped pattern between two slashes followed by the flag letters: no r
    and no quote of the input is left in it. *)
Theorem strips_every_leading_marker (n : nat) (t : string) :
  prefix "r" t = false ->
  PyStr.lstrip "r" (rep n "r" ++ t) = t
  /\ stage_stripped (rep n "r" ++ t) = PyStr.strip quote_chars t
  /\ (exists q q',
        only_chars quote_chars q = true /\ only_chars quote_chars q' = true
        /\ t = q ++ stage_stripped (rep n "r" ++ t) ++ q')
  /\ bare quote_chars (stage_stripped (rep n "r" ++ t)) = true
  /\ forall py_flags verbose h,
       stage_normalized (rep n "r" ++ t) py_flags
       = (if truthy (Z.land py_flags VERBOSE)
          then handle_verbose_mode (PyStr.strip quote_chars t)
          else PyStr.strip quote_chars t)
       /\ observe (py_to_js_regex (rep n "r" ++ t) py_flags verbose h)
          = Some (Some (literal_text t py_flags), diagnostics t py_flags,
                  if verbose then trace (rep n "r" ++ t) py_flags else [])
       /\ py_to_js_regex (rep n "r" ++ t) py_flags false h
          = py_to_js_regex t py_flags false h
       /\ (0 < n ->
           nth_error (trace (rep n "r" ++ t) py_flags) 1
           = Some ("Stripped 'r' prefix and quotes: "
                   ++ PyStr.strip quote_chars t))
       /\ (truthy (Z.land py_flags VERBOSE) = false ->
           inert (PyStr.strip quote_chars t) = true ->
           literal_text t py_flags
           = "/" ++ PyStr.strip quote_chars t ++ "/" ++ handle_flags py_flags).
Proof.
  intro Ht.
  assert (El : PyStr.lstrip "r" (rep n "r" ++ t) = t)
    by (rewrite lstrip_rep; now apply lstrip_no_marker).
  assert (Es : stage_stripped (rep n "r" ++ t) = PyStr.strip quote_chars t)
    by (unfold stage_stripped; now rewrite El).
  assert (Et : stage_stripped t = PyStr.strip quote_chars t)
    by (unfold stage_stripped; now rewrite (lstrip_no_marker "r" t Ht)).
  split; [assumption|]. split; [assumption|]. rewrite Es.
  split; [apply strip_split|]. split; [apply strip_bare|].
  intros py_flags verbose h.
  assert (E : stage_stripped (rep n "r" ++ t) = stage_stripped t) by congruence.
  destruct (stripped_determines _ _ py_flags E) as (EL & ED & _).
  split; [unfold stage_normalized; now rewrite Es|].
  split; [now rewrite observe_py_to_js_regex, EL, ED|].
  split.
  { unfold py_to_js_regex, try_block. cbn [andb when].
    fold (stage_stripped (rep n "r" ++ t)). fold (stage_stripped t).
    now rewrite E. }
  split.
  - intro Hn. unfold trace. cbv zeta.
    rewrite Es, (stripped_differs n t Hn). reflexivity.
  - intros Hv Hi. rewrite <- Et in Hi.
    destruct (inert_stages t py_flags Hv Hi) as (E1 & E2 & _).
    unfold literal_text. now rewrite E1, E2, Et.
Qed.

Lemma strips_every_leading_marker_witness :
  prefix "r" "'abc'" = false
  /\ stage_stripped (rep 3 "r" ++ "'abc'") = "abc"
  /\ observe (py_to_js_regex (rep 3 "r" ++ "'abc'") 0 true [])
     = Some (Some "/abc/", [],
             ["Original Python regex: rrr'abc'";
              "Stripped 'r' prefix and quotes: abc";
              "Handled non-capturing groups: abc";
              "Preserved complex patterns: abc";
              "Ensured pattern preservation: abc";
              "Ensured balanced parentheses: abc";
              "Handled flags: ";
              "Final JavaScript regex: /abc/"])
  /\ observe (py_to_js_regex (rep 3 "r" ++ "'abc'") 0 false [])
     = Some (Some "/abc/", [], []).
Proof.
  destruct (strips_every_leading_marker 3 "'abc'" eq_refl)
    as (_ & Es & _ & _ & H).
  split; [reflexivity|]. split; [exact Es|]. split.
  - destruct (H 0%Z true []) as (_ & Ho & _). exact Ho.
  - destruct (H 0%Z false []) as (_ & Ho & _). exact Ho.
Defined.
